(** * Susu's Kitchen: the orchestration and state-synchronisation logic of App.tsx

    The React component [App] is embedded as a transition system.  The
    component's [useState] cells form the record [AppState]; every event
    handler is a function on that record; an [await] splits a handler in the
    part that runs at the click and a continuation that runs when the promise
    settles, with the values the closure captured stored in a pending [Task].
    The Generation Gateway, the clock ([Date.now]) and [Math.random] are
    inputs of the transitions.

    JavaScript numbers are IEEE doubles.  A number is embedded as the
    rational it denotes ([Q]); time stamps are embedded as [N].  The serving
    multiplier only takes the values k/2, on which the additions of the
    program are exact; the product of a cost and the multiplier is rounded to
    the nearest double ([Number_times]).  A string is embedded as the bytes
    of its UTF-8 encoding. *)

From Stdlib Require Import ZArith QArith Qround Qabs Qpower Lia Lqa.
From stdpp Require Import base list strings pretty sorting.

Local Open Scope string_scope.

(** ** JavaScript primitives used by the program *)

(** Truthiness of a string: only the empty string is falsy. *)
Definition truthy (s : string) : bool := negb (String.eqb s "").

(** [x || undefined] for [x : string | null]. *)
Definition or_undefined (x : option string) : option string :=
  match x with
  | Some s => if truthy s then Some s else None
  | None => None
  end.

(** Truthiness of an optional string ([undefined], [null] and [""] are falsy). *)
Definition truthy_opt (x : option string) : bool :=
  match x with
  | Some s => truthy s
  | None => false
  end.

(** [!==] and [>] on numbers. *)
Definition num_neq (x y : Q) : bool := negb (Qeq_bool x y).
Definition num_gt (x y : Q) : bool := negb (Qle_bool x y).

(** [Math.max] on numbers, and [Math.max] and [Math.min] on the integers
    that index an array. *)
Definition Math_max (x y : Q) : Q := if Qle_bool x y then y else x.
Definition Math_max_int (x y : Z) : Z := Z.max x y.
Definition Math_min_int (x y : Z) : Z := Z.min x y.

(** [`${x}`] for a number [x].  For a non-negative multiple of one half
    (below 1e21) JavaScript prints the integer part and, for an odd number of
    halves, the fraction [.5]; these are the only values the program
    interpolates. *)
Definition Number_toString (x : Q) : string :=
  let h := Qfloor (x * 2)%Q in
  if (h mod 2 =? 0)%Z then pretty (h / 2)%Z else pretty (h / 2)%Z +:+ ".5".

(** [x.toFixed(2)] (below 1e21): the integer [n] for which [n / 100 - x] is
    as close to zero as possible, the larger [n] on a tie, printed with two
    decimals; a negative [x] is printed as ["-"] followed by the result for
    [-x].  [toFixed2_digits] computes [n] by rounding half up. *)
Definition toFixed2_digits (x : Q) : Z := Qfloor (Qabs x * 100 + (1 # 2))%Q.

Definition two_digits (d : Z) : string :=
  if (d <? 10)%Z then "0" +:+ pretty d else pretty d.

Definition toFixed2 (x : Q) : string :=
  let n := toFixed2_digits x in
  (if Qle_bool 0 x then "" else "-")
    +:+ pretty (n / 100)%Z +:+ "." +:+ two_digits (n mod 100)%Z.

(** [x * y] on numbers: the product, rounded to the nearest double
    (binary64: 53 significant bits, the smallest step 2^-1074), the one with
    the even significand on a tie.  [Qlog2 x] is [floor (log2 x)] for a
    positive [x].  Products of 2^1024 and more, which JavaScript turns into
    [Infinity], are outside the embedding. *)
Definition round_half_even (x : Q) : Z :=
  let f := Qfloor x in
  match Qcompare (x - inject_Z f) (1 # 2) with
  | Lt => f
  | Gt => (f + 1)%Z
  | Eq => if Z.even f then f else (f + 1)%Z
  end.

Definition Qlog2 (x : Q) : Z :=
  let l := (Z.log2 (Qnum x) - Z.log2 (Z.pos (Qden x)))%Z in
  if Qle_bool (Qpower 2 l) x then l else (l - 1)%Z.

Definition round_binary64 (x : Q) : Q :=
  if Qeq_bool x 0 then 0%Q
  else
    let e := Z.max (Qlog2 (Qabs x) - 52) (-1074) in
    ((if Qle_bool 0 x then 1 else -1)
     * inject_Z (round_half_even (Qabs x / Qpower 2 e)) * Qpower 2 e)%Q.

(** The doubles (overflow aside): a significand [k] of at most 53 bits at an
    exponent [e] from -1074 on. *)
Definition binary64 (y : Q) : Prop :=
  exists k e : Z,
    (Z.abs k < 2 ^ 53)%Z /\ (-1074 <= e)%Z
    /\ (y == inject_Z k * Qpower 2 e)%Q.

Definition Number_times (x y : Q) : Q := round_binary64 (x * y).

(** The number a decimal literal (or a number of a JSON text) denotes: the
    double nearest to it. *)
Definition Number_literal (decimal : Q) : Q := round_binary64 decimal.

(** The UTF-16 code units of a string, which is what JavaScript compares:
    the bytes are decoded to code points ([need] continuation bytes are still
    to come for the code point begun in [acc]) and a code point above the
    Basic Multilingual Plane gives a surrogate pair. *)
Fixpoint code_points_from (acc : N) (need : nat) (s : string) : list N :=
  match s with
  | EmptyString => []
  | String c rest =>
      let b := Ascii.N_of_ascii c in
      match need with
      | O =>
          if (b <? 128)%N then b :: code_points_from 0 0 rest
          else if (b <? 224)%N then code_points_from (b - 192) 1 rest
          else if (b <? 240)%N then code_points_from (b - 224) 2 rest
          else code_points_from (b - 240) 3 rest
      | S n =>
          let acc' := (acc * 64 + b mod 64)%N in
          match n with
          | O => acc' :: code_points_from 0 0 rest
          | S _ => code_points_from acc' n rest
          end
      end
  end.

Definition code_units_of (cp : N) : list N :=
  if (cp <? 65536)%N then [cp]
  else [(55296 + (cp - 65536) / 1024)%N; (56320 + (cp - 65536) mod 1024)%N].

Definition code_units (s : string) : list N :=
  flat_map code_units_of (code_points_from 0 0 s).

(** [a <= b] on strings: the lexicographic order of the code units, the
    order of [Array.prototype.sort()] without a comparison function. *)
Fixpoint code_units_leb (a b : list N) : bool :=
  match a, b with
  | [], _ => true
  | _ :: _, [] => false
  | x :: a', y :: b' =>
      if (x <? y)%N then true
      else if (y <? x)%N then false
      else code_units_leb a' b'
  end.

Definition String_leb (a b : string) : bool :=
  code_units_leb (code_units a) (code_units b).

(** [a[i]] on an array: [undefined] outside the bounds. *)
Definition array_get {A} (a : list A) (i : Z) : option A :=
  if (i <? 0)%Z then None else a !! Z.to_nat i.

(** [a.find(p)]: the first element that satisfies [p]. *)
Definition array_find {A} (p : A -> bool) (a : list A) : option A := List.find p a.

(** [a.map((x, idx) => f x idx)]. *)
Definition array_mapi {A B} (f : A -> nat -> B) (a : list A) : list B :=
  imap (fun idx x => f x idx) a.

(** [a.includes(x)] on an array of strings. *)
Definition includes (a : list string) (x : string) : bool :=
  existsb (String.eqb x) a.

(** ** types.ts *)

Inductive UserRole := ADMIN | USER.

Inductive Difficulty := Easy | Medium | Hard.

Inductive ViewState :=
  HOME | RECIPE_DETAIL | CREATE_RECIPE | SHOPPING_LIST | COOKING_MODE.

Module Ingredient.
Record t := mk {
  id : string;
  item : string;
  amount : string;
  baseAmount : option Q;
  unit : option string;
  estimatedCost : Q;
  category : string;
  checked : bool
}.

(** [{...i, checked: b}] *)
Definition with_checked (b : bool) (i : t) : t :=
  mk (id i) (item i) (amount i) (baseAmount i) (unit i) (estimatedCost i)
     (category i) b.
End Ingredient.

Module User.
Record t := mk {
  id : string;
  name : string;
  role : UserRole;
  avatar : string;
  favorites : list string;
  shoppingList : list Ingredient.t
}.

(** [{...u, avatar: a}] *)
Definition with_avatar (a : string) (u : t) : t :=
  mk (id u) (name u) (role u) a (favorites u) (shoppingList u).

(** [{...u, favorites: f}] *)
Definition with_favorites (f : list string) (u : t) : t :=
  mk (id u) (name u) (role u) (avatar u) f (shoppingList u).

(** [{...u, shoppingList: l}] *)
Definition with_shoppingList (l : list Ingredient.t) (u : t) : t :=
  mk (id u) (name u) (role u) (avatar u) (favorites u) l.
End User.

Module Recipe.
Record t := mk {
  id : string;
  title : string;
  description : string;
  ingredients : list Ingredient.t;
  instructions : list string;
  instructionThumbnails : option (list string);
  tips : string;
  imageUrl : option string;
  videoUrl : option string;
  authorId : string;
  createdAt : N;
  tags : list string;
  servings : Q;
  prepTime : string;
  cookTime : option string;
  difficulty : option Difficulty;
  calories : option Z
}.

(** [{...r, videoUrl: v}] *)
Definition with_videoUrl (v : string) (r : t) : t :=
  mk (id r) (title r) (description r) (ingredients r) (instructions r)
     (instructionThumbnails r) (tips r) (imageUrl r) (Some v) (authorId r)
     (createdAt r) (tags r) (servings r) (prepTime r) (cookTime r)
     (difficulty r) (calories r).

(** [{...r, instructionThumbnails: th}] *)
Definition with_instructionThumbnails (th : list string) (r : t) : t :=
  mk (id r) (title r) (description r) (ingredients r) (instructions r)
     (Some th) (tips r) (imageUrl r) (videoUrl r) (authorId r)
     (createdAt r) (tags r) (servings r) (prepTime r) (cookTime r)
     (difficulty r) (calories r).

(** [{...r, imageUrl: u}] *)
Definition with_imageUrl (u : string) (r : t) : t :=
  mk (id r) (title r) (description r) (ingredients r) (instructions r)
     (instructionThumbnails r) (tips r) (Some u) (videoUrl r) (authorId r)
     (createdAt r) (tags r) (servings r) (prepTime r) (cookTime r)
     (difficulty r) (calories r).

(** [{...r, title: x}] *)
Definition with_title (x : string) (r : t) : t :=
  mk (id r) x (description r) (ingredients r) (instructions r)
     (instructionThumbnails r) (tips r) (imageUrl r) (videoUrl r) (authorId r)
     (createdAt r) (tags r) (servings r) (prepTime r) (cookTime r)
     (difficulty r) (calories r).

(** [{...r, description: x}] *)
Definition with_description (x : string) (r : t) : t :=
  mk (id r) (title r) x (ingredients r) (instructions r)
     (instructionThumbnails r) (tips r) (imageUrl r) (videoUrl r) (authorId r)
     (createdAt r) (tags r) (servings r) (prepTime r) (cookTime r)
     (difficulty r) (calories r).

(** [{...r, difficulty: d}] *)
Definition with_difficulty (d : Difficulty) (r : t) : t :=
  mk (id r) (title r) (description r) (ingredients r) (instructions r)
     (instructionThumbnails r) (tips r) (imageUrl r) (videoUrl r) (authorId r)
     (createdAt r) (tags r) (servings r) (prepTime r) (cookTime r)
     (Some d) (calories r).

(** [{...r, calories: c}] *)
Definition with_calories (c : Z) (r : t) : t :=
  mk (id r) (title r) (description r) (ingredients r) (instructions r)
     (instructionThumbnails r) (tips r) (imageUrl r) (videoUrl r) (authorId r)
     (createdAt r) (tags r) (servings r) (prepTime r) (cookTime r)
     (difficulty r) (Some c).
End Recipe.

(** The ingredient rows and the response of the transcribe-and-structure call. *)
Module GenIngredient.
Record t := mk {
  item : string;
  amount : string;
  estimatedCost : Q;
  category : string
}.
End GenIngredient.

Module RecipeGenResponse.
Record t := mk {
  title : string;
  description : string;
  ingredients : list GenIngredient.t;
  instructions : list string;
  tips : string;
  servings : Q;
  prepTime : string;
  tags : list string;
  difficulty : Difficulty;
  calories : Z
}.
End RecipeGenResponse.

(** ** Constants and seed data of App.tsx *)

(** The double-quote character, for the texts that contain one. *)
Definition dq : string :=
  String (Ascii.Ascii false true false false false true false false) EmptyString.

(** The line feed, for the prompts that span lines. *)
Definition nl : string :=
  String (Ascii.Ascii false true false true false false false false) EmptyString.

Definition SUSU_IMAGE_URL : string :=
  "https://images.unsplash.com/photo-1556910103-1c02745a30bf?ixlib=rb-4.0.3&auto=format&fit=crop&w=2000&q=80".

Definition susu : User.t := {|
  User.id := "susu";
  User.name := "Susu";
  User.role := ADMIN;
  User.avatar :=
    "https://images.unsplash.com/photo-1544005313-94ddf0286df2?ixlib=rb-4.0.3&auto=format&fit=crop&w=400&q=80";
  User.favorites := [];
  User.shoppingList := []
|}.

Definition dad : User.t := {|
  User.id := "dad";
  User.name := "Papa Joe";
  User.role := USER;
  User.avatar :=
    "https://images.unsplash.com/photo-1506794778202-cad84cf45f1d?ixlib=rb-4.0.3&auto=format&fit=crop&w=400&q=80";
  User.favorites := [];
  User.shoppingList := []
|}.

Definition kid1 : User.t := {|
  User.id := "kid1";
  User.name := "Sofia";
  User.role := USER;
  User.avatar :=
    "https://images.unsplash.com/photo-1494790108377-be9c29b29330?ixlib=rb-4.0.3&auto=format&fit=crop&w=400&q=80";
  User.favorites := [];
  User.shoppingList := []
|}.

Definition kid2 : User.t := {|
  User.id := "kid2";
  User.name := "Leo";
  User.role := USER;
  User.avatar :=
    "https://images.unsplash.com/photo-1507003211169-0a1dd7228f2d?ixlib=rb-4.0.3&auto=format&fit=crop&w=400&q=80";
  User.favorites := [];
  User.shoppingList := []
|}.

Definition DEFAULT_USERS : list User.t := [susu; dad; kid1; kid2].

(** An ingredient literal of the seed recipes ([checked: false], no
    [baseAmount], no [unit]). *)
Definition seed_ingredient (id item amount : string) (estimatedCost : Q)
    (category : string) : Ingredient.t :=
  Ingredient.mk id item amount None None estimatedCost category false.

(** The seed recipes; [t0] is the value of [Date.now()] when the module is
    loaded. *)
Definition recipe_rec_1 (t0 : N) : Recipe.t := {|
  Recipe.id := "rec-1";
  Recipe.title := "Susu's Sunday Gravy";
  Recipe.description :=
    "The secret family tomato sauce slowly simmered with pork ribs and meatballs. A Sunday tradition that brings everyone to the table.";
  Recipe.ingredients := [
    seed_ingredient "ing-1" "Pork Ribs" "1 lb" (17 # 2) "Meat";
    seed_ingredient "ing-2" "San Marzano Tomatoes" "2 cans" (6 # 1) "Pantry";
    seed_ingredient "ing-3" "Garlic" "5 cloves" (1 # 2) "Produce";
    seed_ingredient "ing-4" "Fresh Basil" "1 bunch" (5 # 2) "Produce"];
  Recipe.instructions := [
    "Sear the pork ribs in a heavy pot until browned on all sides.";
    "Remove meat, add minced garlic and sauté until fragrant (don't burn it!).";
    "Crush the tomatoes by hand and add them to the pot with the juices.";
    "Return meat to pot, add basil, and simmer on low for at least 4 hours."];
  Recipe.instructionThumbnails := None;
  Recipe.tips :=
    "Don't rush the onions! Let them caramelize slowly for the best sweetness.";
  Recipe.imageUrl := Some
    "https://images.unsplash.com/photo-1572449043416-55f4685c9bb7?ixlib=rb-4.0.3&auto=format&fit=crop&w=1200&q=80";
  Recipe.videoUrl := None;
  Recipe.authorId := "susu";
  Recipe.createdAt := t0;
  Recipe.tags := ["Italian"; "Dinner"; "Slow Cook"];
  Recipe.servings := (6 # 1);
  Recipe.prepTime := "4 hours";
  Recipe.cookTime := None;
  Recipe.difficulty := Some Medium;
  Recipe.calories := Some 450%Z
|}.

Definition recipe_rec_2 (t0 : N) : Recipe.t := {|
  Recipe.id := "rec-2";
  Recipe.title := "Lemon Ricotta Pancakes";
  Recipe.description :=
    "Fluffy, light, and zesty. These pancakes are perfect for a special birthday breakfast.";
  Recipe.ingredients := [
    seed_ingredient "ing-2-1" "Ricotta Cheese" "1 cup" (4 # 1) "Dairy";
    seed_ingredient "ing-2-2" "Lemons" "2" (3 # 2) "Produce";
    seed_ingredient "ing-2-3" "Flour" "1.5 cups" (1 # 2) "Pantry"];
  Recipe.instructions := [
    "Whisk flour, sugar, and baking powder.";
    "In another bowl, mix ricotta, eggs, milk, and lemon zest.";
    "Fold wet into dry ingredients gently. Do not overmix!";
    "Cook on buttered griddle until golden."];
  Recipe.instructionThumbnails := None;
  Recipe.tips :=
    "Use fresh ricotta for the best texture.";
  Recipe.imageUrl := Some
    "https://images.unsplash.com/photo-1506084868230-bb9d95c24759?ixlib=rb-4.0.3&auto=format&fit=crop&w=1200&q=80";
  Recipe.videoUrl := None;
  Recipe.authorId := "susu";
  Recipe.createdAt := t0;
  Recipe.tags := ["Breakfast"; "Sweet"; "Easy"];
  Recipe.servings := (4 # 1);
  Recipe.prepTime := "20 mins";
  Recipe.cookTime := None;
  Recipe.difficulty := Some Easy;
  Recipe.calories := Some 320%Z
|}.

Definition recipe_rec_3 (t0 : N) : Recipe.t := {|
  Recipe.id := "rec-3";
  Recipe.title := "Grandma's Stuffed Vine Leaves";
  Recipe.description :=
    "Delicate vine leaves rolled with aromatic rice, pine nuts, and currants. A labor of love.";
  Recipe.ingredients := [
    seed_ingredient "ing-3-1" "Grape Leaves" "1 jar" (5 # 1) "Pantry";
    seed_ingredient "ing-3-2" "Short Grain Rice" "2 cups" (2 # 1) "Pantry";
    seed_ingredient "ing-3-3" "Dill & Mint" "1 bunch each" (3 # 1) "Produce";
    seed_ingredient "ing-3-4" "Lemon Juice" "1/2 cup" (1 # 1) "Produce"];
  Recipe.instructions := [
    "Rinse the grape leaves to remove brine.";
    "Mix rice with herbs, lemon, and olive oil.";
    "Place a spoonful of filling on a leaf, fold sides, and roll tight.";
    "Stack tightly in a pot, cover with water and lemon, and simmer."];
  Recipe.instructionThumbnails := None;
  Recipe.tips :=
    "Place a heavy plate on top of the rolls while cooking to keep them tight.";
  Recipe.imageUrl := Some
    "https://images.unsplash.com/photo-1606923829571-0f2636499681?ixlib=rb-4.0.3&auto=format&fit=crop&w=1200&q=80";
  Recipe.videoUrl := None;
  Recipe.authorId := "susu";
  Recipe.createdAt := t0;
  Recipe.tags := ["Appetizer"; "Vegetarian"; "Difficult"];
  Recipe.servings := (8 # 1);
  Recipe.prepTime := "2 hours";
  Recipe.cookTime := None;
  Recipe.difficulty := Some Hard;
  Recipe.calories := Some 150%Z
|}.

Definition recipe_rec_4 (t0 : N) : Recipe.t := {|
  Recipe.id := "rec-4";
  Recipe.title := "Chicken Maqluba";
  Recipe.description :=
    ("The famous " +:+ dq +:+ "Upside Down" +:+ dq +:+ " rice dish with layers of eggplant, cauliflower, and spiced chicken.");
  Recipe.ingredients := [
    seed_ingredient "ing-4-1" "Chicken Thighs" "6 pieces" (8 # 1) "Meat";
    seed_ingredient "ing-4-2" "Eggplant" "1 large" (2 # 1) "Produce";
    seed_ingredient "ing-4-3" "Cauliflower" "1 head" (3 # 1) "Produce";
    seed_ingredient "ing-4-4" "Basmati Rice" "3 cups" (3 # 1) "Pantry"];
  Recipe.instructions := [
    "Fry eggplant and cauliflower slices until golden.";
    "Boil chicken with aromatics (cardamom, cinnamon) to make broth.";
    "Layer veggies, chicken, and soaked rice in a pot.";
    "Add broth and cook. Flip upside down onto a platter to serve!"];
  Recipe.instructionThumbnails := None;
  Recipe.tips :=
    "Let the pot rest for 15 minutes before flipping to hold the shape.";
  Recipe.imageUrl := Some
    "https://images.unsplash.com/photo-1512058564366-18510be2db19?ixlib=rb-4.0.3&auto=format&fit=crop&w=1200&q=80";
  Recipe.videoUrl := None;
  Recipe.authorId := "susu";
  Recipe.createdAt := t0;
  Recipe.tags := ["Dinner"; "Showstopper"; "Family"];
  Recipe.servings := (6 # 1);
  Recipe.prepTime := "1.5 hours";
  Recipe.cookTime := None;
  Recipe.difficulty := Some Hard;
  Recipe.calories := Some 600%Z
|}.

Definition recipe_rec_5 (t0 : N) : Recipe.t := {|
  Recipe.id := "rec-5";
  Recipe.title := "Honey Walnut Baklava";
  Recipe.description :=
    "Crispy layers of phyllo dough filled with crushed walnuts and soaked in orange blossom syrup.";
  Recipe.ingredients := [
    seed_ingredient "ing-5-1" "Phyllo Dough" "1 pack" (4 # 1) "Frozen";
    seed_ingredient "ing-5-2" "Walnuts" "3 cups" (10 # 1) "Pantry";
    seed_ingredient "ing-5-3" "Butter" "2 sticks" (3 # 1) "Dairy";
    seed_ingredient "ing-5-4" "Honey" "1 cup" (6 # 1) "Pantry"];
  Recipe.instructions := [
    "Layer buttered phyllo sheets in a pan.";
    "Spread nut mixture every few layers.";
    "Cut into diamond shapes BEFORE baking.";
    "Pour cold syrup over hot pastry immediately after baking."];
  Recipe.instructionThumbnails := None;
  Recipe.tips :=
    "The syrup must be cold and the baklava hot for it to stay crispy!";
  Recipe.imageUrl := Some
    "https://images.unsplash.com/photo-1519676867240-f03562e64548?ixlib=rb-4.0.3&auto=format&fit=crop&w=1200&q=80";
  Recipe.videoUrl := None;
  Recipe.authorId := "susu";
  Recipe.createdAt := t0;
  Recipe.tags := ["Dessert"; "Sweet"; "Party"];
  Recipe.servings := (12 # 1);
  Recipe.prepTime := "1 hour";
  Recipe.cookTime := None;
  Recipe.difficulty := Some Medium;
  Recipe.calories := Some 400%Z
|}.

Definition recipe_rec_6 (t0 : N) : Recipe.t := {|
  Recipe.id := "rec-6";
  Recipe.title := "Spicy Moroccan Fish Stew";
  Recipe.description :=
    "White fish poached in a spicy tomato and pepper sauce with preserved lemons.";
  Recipe.ingredients := [
    seed_ingredient "ing-6-1" "White Fish Fillets" "4 fillets" (12 # 1) "Meat";
    seed_ingredient "ing-6-2" "Bell Peppers" "3 mixed" (3 # 1) "Produce";
    seed_ingredient "ing-6-3" "Paprika & Cumin" "2 tbsp" (1 # 1) "Pantry";
    seed_ingredient "ing-6-4" "Cilantro" "1 bunch" (1 # 1) "Produce"];
  Recipe.instructions := [
    "Sauté peppers and garlic with spices.";
    "Add tomatoes and simmer to make a thick sauce.";
    "Nestle fish into the sauce and cover.";
    "Cook gently for 10-15 minutes. Garnish with cilantro."];
  Recipe.instructionThumbnails := None;
  Recipe.tips :=
    "Serve with crusty bread to soak up the sauce.";
  Recipe.imageUrl := Some
    "https://images.unsplash.com/photo-1513222858102-4c280147cb23?ixlib=rb-4.0.3&auto=format&fit=crop&w=1200&q=80";
  Recipe.videoUrl := None;
  Recipe.authorId := "susu";
  Recipe.createdAt := t0;
  Recipe.tags := ["Dinner"; "Seafood"; "Healthy"];
  Recipe.servings := (4 # 1);
  Recipe.prepTime := "40 mins";
  Recipe.cookTime := None;
  Recipe.difficulty := Some Medium;
  Recipe.calories := Some 350%Z
|}.

Definition INITIAL_RECIPES (t0 : N) : list Recipe.t :=
  [recipe_rec_1 t0; recipe_rec_2 t0; recipe_rec_3 t0; recipe_rec_4 t0; recipe_rec_5 t0; recipe_rec_6 t0].

(** ** services/geminiService.ts: the Generation Gateway *)

(** A part of a model response; [inlineData] holds the base64 payload when
    the part is an image. *)
Record Part := { inlineData : option string }.

(** The outcome of one [ai.models.generateContent] call: the call throws, or
    it answers with [response.candidates?.[0]?.content?.parts || []]. *)
Inductive ContentResult :=
| Throws
| Responds (parts : list Part).

(** The first part that carries inline data, as a data URL (the [for] loop
    over the parts with its early [return]). *)
Fixpoint first_inline_image (parts : list Part) : option string :=
  match parts with
  | [] => None
  | part :: rest =>
      match inlineData part with
      | Some data => Some ("data:image/png;base64," +:+ data)
      | None => first_inline_image rest
      end
  end.

Definition image_prompt (title description : string) : string :=
  "A professional, cinematic, high-resolution food photography shot of "
    +:+ title +:+ ". " +:+ description +:+ ". " +:+ nl
    +:+ "  Dark moody lighting, rustic wooden table, 4k, michelin star presentation, highly detailed texture.".

(** [generateRecipeImage]: the data URL of the first image, or a rejection
    ([None]) when the call throws or no part is an image. *)
Definition generateRecipeImage (generateContent : string -> ContentResult)
    (title description : string) : option string :=
  match generateContent (image_prompt title description) with
  | Throws => None
  | Responds parts => first_inline_image parts
  end.

Definition thumbnail_prompt (inst : string) : string :=
  "Cinematic close-up food photography thumbnail representing this cooking step: "
    +:+ dq +:+ inst +:+ dq +:+ ". " +:+ nl
    +:+ "        Focus strictly on the action (e.g. chopping, stirring, boiling, baking). " +:+ nl
    +:+ "        Warm, moody lighting, photorealistic, appetizing, highly detailed.".

(** The body of the [async (inst, index) => ...] callback: the [try] returns
    the first image or [""], the [catch] returns [""]. *)
Definition instruction_thumbnail (generateContent : nat -> string -> ContentResult)
    (inst : string) (index : nat) : string :=
  match generateContent index (thumbnail_prompt inst) with
  | Throws => ""
  | Responds parts =>
      match first_inline_image parts with
      | Some url => url
      | None => ""
      end
  end.

(** [generateInstructionThumbnails]: [Promise.all] over the mapped promises
    keeps the order of the input whatever the order of completion; no inner
    promise rejects.  [generateContent index prompt] is the gateway's outcome
    for the request issued for step [index]. *)
Definition generateInstructionThumbnails
    (generateContent : nat -> string -> ContentResult)
    (instructions : list string) : list string :=
  array_mapi (instruction_thumbnail generateContent) instructions.

(** A snapshot of the long-running video operation. *)
Record Operation := { done : bool; uri : option string }.

(** [while (!operation.done) operation = await getVideosOperation(...)]:
    [polls] are the snapshots the successive polls return; [None] while no
    snapshot seen so far is done. *)
Fixpoint poll_until_done (operation : Operation) (polls : list Operation)
    : option Operation :=
  if done operation then Some operation
  else match polls with
       | [] => None
       | next :: rest => poll_until_done next rest
       end.

(** The settlement of a promise: fulfilled with a value or rejected. *)
Inductive Settled (A : Type) :=
| Fulfilled (value : A)
| Rejected.
Arguments Fulfilled {A} value.
Arguments Rejected {A}.

(** What the environment does with a video request: a call throws (the
    submission, a poll or the download fails), or the request is submitted
    with a first snapshot, polled, and the video downloaded into an object
    URL. *)
Inductive VideoRun :=
| VideoThrows
| VideoSubmitted (submitted : Operation) (polls : list Operation)
                 (objectUrl : string).

(** [generateRecipeVideo]: [None] while the polling goes on; rejected when a
    call throws or the finished operation has no result URI; otherwise
    fulfilled with the object URL of the downloaded video. *)
Definition generateRecipeVideo (r : VideoRun) : option (Settled string) :=
  match r with
  | VideoThrows => Some Rejected
  | VideoSubmitted submitted polls objectUrl =>
      match poll_until_done submitted polls with
      | None => None
      | Some operation =>
          if truthy_opt (uri operation) then Some (Fulfilled objectUrl)
          else Some Rejected
      end
  end.

(** ** The state of the [App] component

    The cells that only drive the layout (the user menu, the modals, the tag
    filter, the Ask-Susu box) are left out: no handler below reads them. *)

Inductive CreationStep := MEDIA | REVIEW.

Record AppState := mkApp {
  users : list User.t;
  currentUser : User.t;
  recipes : list Recipe.t;
  view : ViewState;
  selectedRecipe : option Recipe.t;
  servingsMultiplier : Q;
  currentStepIndex : Z;
  isGenerating : bool;
  creationStep : CreationStep;
  draftRecipe : option Recipe.t;
  capturedImage : option string
}.

Definition setUsers (x : list User.t) (s : AppState) : AppState :=
  mkApp x (currentUser s) (recipes s) (view s) (selectedRecipe s)
    (servingsMultiplier s) (currentStepIndex s) (isGenerating s)
    (creationStep s) (draftRecipe s) (capturedImage s).

Definition setCurrentUser (x : User.t) (s : AppState) : AppState :=
  mkApp (users s) x (recipes s) (view s) (selectedRecipe s)
    (servingsMultiplier s) (currentStepIndex s) (isGenerating s)
    (creationStep s) (draftRecipe s) (capturedImage s).

Definition setRecipes (x : list Recipe.t) (s : AppState) : AppState :=
  mkApp (users s) (currentUser s) x (view s) (selectedRecipe s)
    (servingsMultiplier s) (currentStepIndex s) (isGenerating s)
    (creationStep s) (draftRecipe s) (capturedImage s).

Definition setView (x : ViewState) (s : AppState) : AppState :=
  mkApp (users s) (currentUser s) (recipes s) x (selectedRecipe s)
    (servingsMultiplier s) (currentStepIndex s) (isGenerating s)
    (creationStep s) (draftRecipe s) (capturedImage s).

Definition setSelectedRecipe (x : option Recipe.t) (s : AppState) : AppState :=
  mkApp (users s) (currentUser s) (recipes s) (view s) x
    (servingsMultiplier s) (currentStepIndex s) (isGenerating s)
    (creationStep s) (draftRecipe s) (capturedImage s).

Definition setServingsMultiplier (x : Q) (s : AppState) : AppState :=
  mkApp (users s) (currentUser s) (recipes s) (view s) (selectedRecipe s)
    x (currentStepIndex s) (isGenerating s)
    (creationStep s) (draftRecipe s) (capturedImage s).

Definition setCurrentStepIndex (x : Z) (s : AppState) : AppState :=
  mkApp (users s) (currentUser s) (recipes s) (view s) (selectedRecipe s)
    (servingsMultiplier s) x (isGenerating s)
    (creationStep s) (draftRecipe s) (capturedImage s).

Definition setIsGenerating (x : bool) (s : AppState) : AppState :=
  mkApp (users s) (currentUser s) (recipes s) (view s) (selectedRecipe s)
    (servingsMultiplier s) (currentStepIndex s) x
    (creationStep s) (draftRecipe s) (capturedImage s).

Definition setCreationStep (x : CreationStep) (s : AppState) : AppState :=
  mkApp (users s) (currentUser s) (recipes s) (view s) (selectedRecipe s)
    (servingsMultiplier s) (currentStepIndex s) (isGenerating s)
    x (draftRecipe s) (capturedImage s).

Definition setDraftRecipe (x : option Recipe.t) (s : AppState) : AppState :=
  mkApp (users s) (currentUser s) (recipes s) (view s) (selectedRecipe s)
    (servingsMultiplier s) (currentStepIndex s) (isGenerating s)
    (creationStep s) x (capturedImage s).

Definition setCapturedImage (x : option string) (s : AppState) : AppState :=
  mkApp (users s) (currentUser s) (recipes s) (view s) (selectedRecipe s)
    (servingsMultiplier s) (currentStepIndex s) (isGenerating s)
    (creationStep s) (draftRecipe s) x.

(** The [useState] initial values. *)
Definition initialState (t0 : N) : AppState := {|
  users := DEFAULT_USERS;
  currentUser := susu;
  recipes := INITIAL_RECIPES t0;
  view := HOME;
  selectedRecipe := None;
  servingsMultiplier := 1;
  currentStepIndex := 0;
  isGenerating := false;
  creationStep := MEDIA;
  draftRecipe := None;
  capturedImage := None
|}.

(** [prev.map(u => u.id === user.id ? user : u)] *)
Definition replace_user (user : User.t) (prev : list User.t) : list User.t :=
  map (fun u => if String.eqb (User.id u) (User.id user) then user else u) prev.

(** [prev.map(r => r.id === recipe.id ? recipe : r)] *)
Definition replace_recipe (recipe : Recipe.t) (prev : list Recipe.t)
    : list Recipe.t :=
  map (fun r => if String.eqb (Recipe.id r) (Recipe.id recipe) then recipe else r)
      prev.

(** The effect registered on [[currentUser]]: it runs after every render in
    which [currentUser] was set and mirrors the active profile into the
    roster. *)
Definition mirrorEffect (s : AppState) : AppState :=
  setUsers (replace_user (currentUser s) (users s)) s.

(** The state after the mount: the persistence effect loads the saved roster
    and recipe collection, when there are any, and the mirror effect of the
    first render follows it. *)
Definition mountedState (t0 : N) (savedUsers : option (list User.t))
    (savedRecipes : option (list Recipe.t)) : AppState :=
  let s := initialState t0 in
  let s := match savedUsers with Some us => setUsers us s | None => s end in
  let s := match savedRecipes with Some rs => setRecipes rs s | None => s end in
  mirrorEffect s.

(** ** The world around the component

    Besides the React state, a run has the messages shown with [alert] and
    the promises that are still pending, each with the values its
    continuation captured when the handler was called. *)

(** The awaited calls, with what each continuation captured:
    [generateRecipeFromMedia(audioBlob, capturedImage || undefined)],
    [generateRecipeImage(title, description)],
    [generateRecipeVideo(title, imageUrl, SUSU_IMAGE_URL)] for the draft and
    for the selected recipe, and
    [generateInstructionThumbnails(selectedRecipe.instructions)].
    [Recording] is a running recorder of [AudioRecorder]: its [onstop]
    callback, assigned in [startRecording], calls the [onRecordingComplete]
    of the render in which the recording was started, that is the
    [handleGenerateRecipe] that closes over the [capturedImage] and the
    [currentUser] of that render. *)
Inductive Task :=
| Recording (capturedImage : option string) (currentUser : User.t)
| AwaitRecipeFromMedia (capturedImage : option string) (currentUser : User.t)
| AwaitRecipeImage (title description : string)
| AwaitDraftVideo (title : string) (imageUrl : option string)
| AwaitVideoForActiveRecipe (selectedRecipe : Recipe.t)
| AwaitInstructionThumbnails (selectedRecipe : Recipe.t).

Record World := mkWorld {
  app : AppState;
  alerts : list string;
  pending : list Task
}.

Definition on_app (f : AppState -> AppState) (w : World) : World :=
  mkWorld (f (app w)) (alerts w) (pending w).

Definition alert (message : string) (w : World) : World :=
  mkWorld (app w) (alerts w ++ [message]) (pending w).

Definition spawn (t : Task) (w : World) : World :=
  mkWorld (app w) (alerts w) (pending w ++ [t]).

Definition initialWorld (t0 : N) : World := mkWorld (initialState t0) [] [].

(** ** Action handlers (App.tsx, "Action Handlers")

    A handler that calls [setCurrentUser] is followed, in the same
    transition, by the mirror effect of the render it causes. *)

Definition handleSwitchUser (userId : string) (s : AppState) : AppState :=
  match array_find (fun u => String.eqb (User.id u) userId) (users s) with
  | Some user => mirrorEffect (setView HOME (setCurrentUser user s))
  | None => s
  end.

Definition handleUpdateAvatar (imageBase64 : string) (s : AppState) : AppState :=
  let updatedUser := User.with_avatar imageBase64 (currentUser s) in
  mirrorEffect
    (setUsers (replace_user updatedUser (users s)) (setCurrentUser updatedUser s)).

(** The avatars under "Who is cooking today?": [setCurrentUser(u)] for the
    [i]-th entry of the roster. *)
Definition selectCook (i : nat) (s : AppState) : AppState :=
  match users s !! i with
  | Some u => mirrorEffect (setCurrentUser u s)
  | None => s
  end.

(** The draft built from the gateway's answer (the object literal
    [newRecipe]); [now] is the value of [Date.now()] when the continuation
    runs. *)
Definition draft_ingredient (now : N) (ing : GenIngredient.t) (idx : nat)
    : Ingredient.t :=
  Ingredient.mk ("ing-" +:+ pretty now +:+ "-" +:+ pretty idx)
    (GenIngredient.item ing) (GenIngredient.amount ing) None None
    (GenIngredient.estimatedCost ing) (GenIngredient.category ing) false.

Definition newRecipe (genData : RecipeGenResponse.t) (now : N)
    (capturedImage : option string) (currentUser : User.t) : Recipe.t := {|
  Recipe.id := "rec-" +:+ pretty now;
  Recipe.title := RecipeGenResponse.title genData;
  Recipe.description := RecipeGenResponse.description genData;
  Recipe.ingredients :=
    array_mapi (draft_ingredient now) (RecipeGenResponse.ingredients genData);
  Recipe.instructions := RecipeGenResponse.instructions genData;
  Recipe.instructionThumbnails := None;
  Recipe.tips := RecipeGenResponse.tips genData;
  Recipe.imageUrl := or_undefined capturedImage;
  Recipe.videoUrl := None;
  Recipe.authorId := User.id currentUser;
  Recipe.createdAt := now;
  Recipe.tags := RecipeGenResponse.tags genData;
  Recipe.servings := RecipeGenResponse.servings genData;
  Recipe.prepTime := RecipeGenResponse.prepTime genData;
  Recipe.cookTime := None;
  Recipe.difficulty := Some (RecipeGenResponse.difficulty genData);
  Recipe.calories := Some (RecipeGenResponse.calories genData)
|}.

(** [startRecording] of [AudioRecorder]: when the microphone is granted the
    recorder runs, holding the handler of this render; otherwise the [catch]
    alerts. *)
Definition startRecording (granted : bool) (w : World) : World :=
  if granted
  then spawn (Recording (capturedImage (app w)) (currentUser (app w))) w
  else alert "Could not access microphone. Please check permissions." w.

(** [handleGenerateRecipe] up to its [await]; [capturedImage] and
    [currentUser] are the values its closure holds. *)
Definition handleGenerateRecipe (capturedImage : option string)
    (currentUser : User.t) (w : World) : World :=
  spawn (AwaitRecipeFromMedia capturedImage currentUser)
        (on_app (setIsGenerating true) w).

(** The [onstop] callback of the [k]-th entry of the pending list, a running
    recorder: the recorder is gone and the handler it holds is called. *)
Definition stopRecording (k : nat) (w : World) : World :=
  match pending w !! k with
  | Some (Recording capturedImage currentUser) =>
      handleGenerateRecipe capturedImage currentUser
        (mkWorld (app w) (alerts w) (delete k (pending w)))
  | _ => w
  end.

(** [handleGenerateRecipe] after the [await]: the [try] body when the
    gateway call is fulfilled, the [catch] when it is rejected (the call
    failed, or its text did not parse into a recipe), then the [finally]. *)
Definition handleGenerateRecipe_settled (capturedImage : option string)
    (currentUser : User.t) (result : Settled RecipeGenResponse.t) (now : N)
    (w : World) : World :=
  match result with
  | Fulfilled genData =>
      let recipe := newRecipe genData now capturedImage currentUser in
      let w := on_app (setDraftRecipe (Some recipe)) w in
      let w := on_app (setCreationStep REVIEW) w in
      let w :=
        if negb (truthy_opt capturedImage) && truthy (Recipe.title recipe)
           && truthy (Recipe.description recipe)
        then spawn (AwaitRecipeImage (Recipe.title recipe) (Recipe.description recipe)) w
        else w in
      on_app (setIsGenerating false) w
  | Rejected =>
      on_app (setIsGenerating false)
             (alert "Susu didn't quite catch that. Try again!" w)
  end.

(** The [.then] callback of the fire-and-forget image request:
    [setDraftRecipe(prev => prev ? ({ ...prev, imageUrl: url }) : null)].
    A rejection has no handler. *)
Definition recipeImage_settled (result : option string) (s : AppState) : AppState :=
  match result with
  | Some url =>
      setDraftRecipe
        (match draftRecipe s with
         | Some prev => Some (Recipe.with_imageUrl url prev)
         | None => None
         end) s
  | None => s
  end.

Definition handleSaveRecipe (s : AppState) : AppState :=
  match draftRecipe s with
  | Some draft =>
      if truthy (Recipe.title draft) then
        setView HOME
          (setCreationStep MEDIA
             (setCapturedImage None
                (setDraftRecipe None (setRecipes (draft :: recipes s) s))))
      else s
  | None => s
  end.

(** [handleGenerateVideo] up to the [await] of the video; [keySelected] is
    false when the key dialog of the host was dismissed (the early
    [return] in the [catch]). *)
Definition handleGenerateVideo (keySelected : bool) (w : World) : World :=
  match draftRecipe (app w) with
  | Some draft =>
      if truthy (Recipe.title draft) && keySelected then
        spawn (AwaitDraftVideo (Recipe.title draft) (Recipe.imageUrl draft))
              (on_app (setIsGenerating true) w)
      else w
  | None => w
  end.

Definition handleGenerateVideo_settled (result : Settled string) (w : World)
    : World :=
  match result with
  | Fulfilled videoUrl =>
      on_app (setIsGenerating false)
        (on_app (fun s =>
           setDraftRecipe
             (match draftRecipe s with
              | Some prev => Some (Recipe.with_videoUrl videoUrl prev)
              | None => None
              end) s) w)
  | Rejected =>
      on_app (setIsGenerating false)
             (alert "Video generation failed or quota exceeded." w)
  end.

Definition handleGenerateVideoForActiveRecipe (keySelected : bool) (w : World)
    : World :=
  match selectedRecipe (app w) with
  | Some selected =>
      if keySelected then
        spawn (AwaitVideoForActiveRecipe selected)
              (on_app (setIsGenerating true) w)
      else w
  | None => w
  end.

Definition handleGenerateVideoForActiveRecipe_settled
    (selectedRecipe : Recipe.t) (result : Settled string) (w : World) : World :=
  match result with
  | Fulfilled videoUrl =>
      let updatedRecipe := Recipe.with_videoUrl videoUrl selectedRecipe in
      on_app (setIsGenerating false)
        (on_app (fun s =>
           setRecipes (replace_recipe updatedRecipe (recipes s))
                      (setSelectedRecipe (Some updatedRecipe) s)) w)
  | Rejected =>
      on_app (setIsGenerating false)
             (alert "Video generation failed. Please try again." w)
  end.

Definition handleVisualizeSteps (w : World) : World :=
  match selectedRecipe (app w) with
  | Some selected =>
      spawn (AwaitInstructionThumbnails selected)
            (on_app (setIsGenerating true) w)
  | None => w
  end.

Definition handleVisualizeSteps_settled (selectedRecipe : Recipe.t)
    (result : Settled (list string)) (w : World) : World :=
  match result with
  | Fulfilled thumbnails =>
      let updatedRecipe :=
        Recipe.with_instructionThumbnails thumbnails selectedRecipe in
      on_app (setIsGenerating false)
        (on_app (fun s =>
           setRecipes (replace_recipe updatedRecipe (recipes s))
                      (setSelectedRecipe (Some updatedRecipe) s)) w)
  | Rejected =>
      on_app (setIsGenerating false)
             (alert "Could not generate visuals. Please try again." w)
  end.

(** The item that [addToShoppingList] makes of an ingredient; [now] is
    [Date.now()] and [random idx] the text
    [Math.random().toString(36).substr(2, 9)] of the [idx]-th item. *)
Definition shopping_item (multiplier : Q) (now : N) (random : nat -> string)
    (ing : Ingredient.t) (idx : nat) : Ingredient.t :=
  Ingredient.mk
    ("shop-" +:+ pretty now +:+ "-" +:+ random idx)
    (Ingredient.item ing +:+ " "
       +:+ (if num_gt multiplier 1
            then "(x" +:+ Number_toString multiplier +:+ ")" else ""))
    (Ingredient.amount ing) (Ingredient.baseAmount ing) (Ingredient.unit ing)
    (Ingredient.estimatedCost ing) (Ingredient.category ing) false.

Definition addToShoppingList (now : N) (random : nat -> string)
    (ingredients : list Ingredient.t) (w : World) : World :=
  let multiplier := servingsMultiplier (app w) in
  let newItems := array_mapi (shopping_item multiplier now random) ingredients in
  alert "Added to your shopping list!"
    (on_app (fun s =>
       mirrorEffect
         (setCurrentUser
            (User.with_shoppingList
               (User.shoppingList (currentUser s) ++ newItems) (currentUser s))
            s)) w).

(** ** Handlers written inline in the render helpers *)

(** The heart buttons of [renderHome] and [renderDetail]. *)
Definition toggleFavorite (recipeId : string) (s : AppState) : AppState :=
  let isFav := includes (User.favorites (currentUser s)) recipeId in
  let newFavs :=
    if isFav
    then List.filter (fun id => negb (String.eqb id recipeId))
                     (User.favorites (currentUser s))
    else (User.favorites (currentUser s) ++ [recipeId])%list in
  mirrorEffect (setCurrentUser (User.with_favorites newFavs (currentUser s)) s).

(** The card of a recipe in [renderHome]. *)
Definition openRecipe (recipe : Recipe.t) (s : AppState) : AppState :=
  setView RECIPE_DETAIL (setServingsMultiplier 1 (setSelectedRecipe (Some recipe) s)).

(** The [-] and [+] buttons of the serving scale. *)
Definition servingsMinus (s : AppState) : AppState :=
  setServingsMultiplier (Math_max (1 # 2) (servingsMultiplier s - (1 # 2))) s.

Definition servingsPlus (s : AppState) : AppState :=
  setServingsMultiplier (servingsMultiplier s + (1 # 2)) s.

(** What [renderDetail] shows for one ingredient: the amount text, the scale
    annotation (rendered only when the multiplier is not 1), the item name
    and the cost. *)
Record IngredientRow := {
  row_amount : string;
  row_scale : option string;
  row_item : string;
  row_cost : string
}.

Definition renderIngredient (servingsMultiplier : Q) (ing : Ingredient.t)
    : IngredientRow := {|
  row_amount := Ingredient.amount ing;
  row_scale :=
    if num_neq servingsMultiplier 1
    then Some ("(x" +:+ Number_toString servingsMultiplier +:+ ")")
    else None;
  row_item := Ingredient.item ing;
  row_cost :=
    "$" +:+ toFixed2 (Number_times (Ingredient.estimatedCost ing) servingsMultiplier)
|}.

(** Cooking mode. *)
Definition startCookingMode (s : AppState) : AppState :=
  setView COOKING_MODE (setCurrentStepIndex 0 s).

Definition closeCookingMode (s : AppState) : AppState :=
  setCurrentStepIndex 0 (setView RECIPE_DETAIL s).

Definition previousStep (s : AppState) : AppState :=
  setCurrentStepIndex (Math_max_int 0 (currentStepIndex s - 1)) s.

Definition nextStep (s : AppState) : AppState :=
  match selectedRecipe s with
  | Some selected =>
      setCurrentStepIndex
        (Math_min_int (Z.of_nat (length (Recipe.instructions selected)) - 1)
                  (currentStepIndex s + 1)) s
  | None => s
  end.

(** [const currentStep = selectedRecipe.instructions[currentStepIndex]] in
    [renderCookingMode]; the outer [None] is the [return null] of the guard,
    the inner one is [undefined]. *)
Definition currentStep (s : AppState) : option (option string) :=
  match selectedRecipe s with
  | Some selected =>
      Some (array_get (Recipe.instructions selected) (currentStepIndex s))
  | None => None
  end.

(** The shopping list view. *)
Definition toggleChecked (itemId : string) (s : AppState) : AppState :=
  let newList :=
    map (fun i => if String.eqb (Ingredient.id i) itemId
                  then Ingredient.with_checked (negb (Ingredient.checked i)) i
                  else i)
        (User.shoppingList (currentUser s)) in
  mirrorEffect (setCurrentUser (User.with_shoppingList newList (currentUser s)) s).

Definition removeItem (itemId : string) (s : AppState) : AppState :=
  let newList :=
    List.filter (fun i => negb (String.eqb (Ingredient.id i) itemId))
                (User.shoppingList (currentUser s)) in
  mirrorEffect (setCurrentUser (User.with_shoppingList newList (currentUser s)) s).

Definition clearAll (s : AppState) : AppState :=
  mirrorEffect (setCurrentUser (User.with_shoppingList [] (currentUser s)) s).

(** The create view. *)
Definition openCreate (s : AppState) : AppState :=
  setView CREATE_RECIPE (setCreationStep MEDIA s).

Definition cancelCreate (s : AppState) : AppState :=
  setView HOME (setDraftRecipe None s).

Definition discardDraft (s : AppState) : AppState :=
  setDraftRecipe None (setCreationStep MEDIA s).

(** [setDraftRecipe({...draftRecipe, field: value})] of the review form,
    which is rendered only while there is a draft. *)
Definition editDraft (f : Recipe.t -> Recipe.t) (s : AppState) : AppState :=
  match draftRecipe s with
  | Some draft => setDraftRecipe (Some (f draft)) s
  | None => s
  end.

(** ** Events and transitions *)

(** What the environment hands to a pending promise; the continuation reads
    the clock when it runs.  For the thumbnails,
    [ai] is rejected when the client cannot be made ([getAI] throws) and
    otherwise gives the outcome of each request. *)
Inductive Settlement :=
| RecipeFromMedia (result : Settled RecipeGenResponse.t)
| RecipeImage (generateContent : string -> ContentResult)
| RecipeVideo (r : VideoRun)
| InstructionThumbnails (ai : Settled (nat -> string -> ContentResult)).

Inductive Event :=
(* header *)
| ClickLogo
| ClickShoppingList
| SwitchUser (userId : string)
| CaptureAvatar (imageBase64 : string)
(* home *)
| ClickCreate
| ClickCook (i : nat)
| ClickRecipe (i : nat)
| ClickFavorite (i : nat)
(* create *)
| ClickCancel
| CapturePhoto (img : string)
| RetakePhoto
| StartRecording (granted : bool)
| RecordingComplete (k : nat)
| ClickDiscard
| ClickSave
| ClickGenerateVideo (keySelected : bool)
| EditTitle (value : string)
| EditDescription (value : string)
| EditDifficulty (value : Difficulty)
| EditCalories (value : Z)
(* detail *)
| ClickBack
| ClickFavoriteDetail
| ClickGenerateVideoForRecipe (keySelected : bool)
| ClickVisualizeSteps
| ClickServingsMinus
| ClickServingsPlus
| ClickAddAllToShoppingList (random : nat -> string)
| ClickStartCooking
(* cooking mode *)
| ClickCloseCooking
| ClickPreviousStep
| ClickNextStep
(* shopping list *)
| ClickItemCheckbox (i : nat)
| ClickRemoveItem (i : nat)
| ClickClearAll
(* a pending promise settles *)
| Settle (k : nat) (v : Settlement).

(** The continuation of a task on the value it awaited; [None] when the value
    is not of the kind the task awaits, or the awaited call has not finished. *)
Definition resume (now : N) (t : Task) (v : Settlement) (w : World)
    : option World :=
  match t, v with
  | AwaitRecipeFromMedia capturedImage currentUser, RecipeFromMedia result =>
      Some (handleGenerateRecipe_settled capturedImage currentUser result now w)
  | AwaitRecipeImage title description, RecipeImage generateContent =>
      Some (on_app (recipeImage_settled
                      (generateRecipeImage generateContent title description)) w)
  | AwaitDraftVideo _ _, RecipeVideo r =>
      match generateRecipeVideo r with
      | Some result => Some (handleGenerateVideo_settled result w)
      | None => None
      end
  | AwaitVideoForActiveRecipe selected, RecipeVideo r =>
      match generateRecipeVideo r with
      | Some result =>
          Some (handleGenerateVideoForActiveRecipe_settled selected result w)
      | None => None
      end
  | AwaitInstructionThumbnails selected, InstructionThumbnails ai =>
      Some (handleVisualizeSteps_settled selected
              (match ai with
               | Fulfilled generateContent =>
                   Fulfilled (generateInstructionThumbnails generateContent
                                (Recipe.instructions selected))
               | Rejected => Rejected
               end) w)
  | _, _ => None
  end.

(** The [k]-th pending promise settles: it leaves the pending list and its
    continuation runs. *)
Definition settle (now : N) (k : nat) (v : Settlement) (w : World) : World :=
  match pending w !! k with
  | Some t =>
      match resume now t v (mkWorld (app w) (alerts w) (delete k (pending w))) with
      | Some w' => w'
      | None => w
      end
  | None => w
  end.

(** One transition; [now] is the value of the clock ([Date.now()]) when the
    event happens. *)
Definition step (now : N) (e : Event) (w : World) : World :=
  let s := app w in
  match e with
  | ClickLogo => on_app (setView HOME) w
  | ClickShoppingList => on_app (setView SHOPPING_LIST) w
  | SwitchUser userId => on_app (handleSwitchUser userId) w
  | CaptureAvatar imageBase64 => on_app (handleUpdateAvatar imageBase64) w
  | ClickCreate => on_app openCreate w
  | ClickCook i => on_app (selectCook i) w
  | ClickRecipe i =>
      match recipes s !! i with
      | Some recipe => on_app (openRecipe recipe) w
      | None => w
      end
  | ClickFavorite i =>
      match recipes s !! i with
      | Some recipe => on_app (toggleFavorite (Recipe.id recipe)) w
      | None => w
      end
  | ClickCancel => on_app cancelCreate w
  | CapturePhoto img => on_app (setCapturedImage (Some img)) w
  | RetakePhoto => on_app (setCapturedImage None) w
  | StartRecording granted => startRecording granted w
  | RecordingComplete k => stopRecording k w
  | ClickDiscard => on_app discardDraft w
  | ClickSave => on_app handleSaveRecipe w
  | ClickGenerateVideo keySelected => handleGenerateVideo keySelected w
  | EditTitle value => on_app (editDraft (Recipe.with_title value)) w
  | EditDescription value => on_app (editDraft (Recipe.with_description value)) w
  | EditDifficulty value => on_app (editDraft (Recipe.with_difficulty value)) w
  | EditCalories value => on_app (editDraft (Recipe.with_calories value)) w
  | ClickBack => on_app (setView HOME) w
  | ClickFavoriteDetail =>
      match selectedRecipe s with
      | Some selected => on_app (toggleFavorite (Recipe.id selected)) w
      | None => w
      end
  | ClickGenerateVideoForRecipe keySelected =>
      handleGenerateVideoForActiveRecipe keySelected w
  | ClickVisualizeSteps => handleVisualizeSteps w
  | ClickServingsMinus => on_app servingsMinus w
  | ClickServingsPlus => on_app servingsPlus w
  | ClickAddAllToShoppingList random =>
      match selectedRecipe s with
      | Some selected =>
          addToShoppingList now random (Recipe.ingredients selected) w
      | None => w
      end
  | ClickStartCooking => on_app startCookingMode w
  | ClickCloseCooking => on_app closeCookingMode w
  | ClickPreviousStep => on_app previousStep w
  | ClickNextStep => on_app nextStep w
  | ClickItemCheckbox i =>
      match User.shoppingList (currentUser s) !! i with
      | Some item => on_app (toggleChecked (Ingredient.id item)) w
      | None => w
      end
  | ClickRemoveItem i =>
      match User.shoppingList (currentUser s) !! i with
      | Some item => on_app (removeItem (Ingredient.id item)) w
      | None => w
      end
  | ClickClearAll => on_app clearAll w
  | Settle k v => settle now k v w
  end.

(** A run: the events in the order they happen, each with its clock value. *)
Definition run (es : list (N * Event)) (w : World) : World :=
  fold_left (fun w e => step (fst e) (snd e) w) es w.

(** ** What the render offers

    [offered inert w e]: in the state [w] the render attaches the handler of
    the event [e] to an element (the [&&] and [?:] of the JSX), and the
    element is not disabled.  The component [Button] is left a parameter:
    [inert] says whether a [Button] whose [disabled] or [isLoading] is set
    passes no click on.  The cells that only drive the layout are not part of
    the state, so an element behind the user menu, the profile modal or the
    tag filter counts as offered: the menu or the modal can be opened and the
    filter cleared first.  The local state of [WebcamCapture] and
    [AudioRecorder], which decides which of their two buttons is shown, is
    not tracked either: a photo can be taken or retaken, and a recorder that
    runs can be stopped.  A settlement is an event of the environment. *)

Definition ViewState_eqb (a b : ViewState) : bool :=
  match a, b with
  | HOME, HOME | RECIPE_DETAIL, RECIPE_DETAIL | CREATE_RECIPE, CREATE_RECIPE
  | SHOPPING_LIST, SHOPPING_LIST | COOKING_MODE, COOKING_MODE => true
  | _, _ => false
  end.

Definition is_ADMIN (u : User.t) : bool :=
  match User.role u with ADMIN => true | USER => false end.

Definition Button_passes (inert disabled : bool) : bool := negb (inert && disabled).

(** The branches of [renderCreate]. *)
Definition capturing (s : AppState) : bool :=
  ViewState_eqb (view s) CREATE_RECIPE
  && match creationStep s with MEDIA => true | REVIEW => false end.

Definition reviewing (s : AppState) : bool :=
  ViewState_eqb (view s) CREATE_RECIPE
  && match creationStep s with MEDIA => false | REVIEW => true end
  && match draftRecipe s with Some _ => true | None => false end.

(** [renderDetail] and [renderCookingMode] return [null] without a selected
    recipe. *)
Definition detail_of (s : AppState) : option Recipe.t :=
  if ViewState_eqb (view s) RECIPE_DETAIL then selectedRecipe s else None.

Definition cooking_of (s : AppState) : option Recipe.t :=
  if ViewState_eqb (view s) COOKING_MODE then selectedRecipe s else None.

Definition offered (inert : bool) (w : World) (e : Event) : bool :=
  let s := app w in
  match e with
  | ClickLogo | ClickShoppingList | CaptureAvatar _ => true
  | SwitchUser userId =>
      existsb (fun u => String.eqb (User.id u) userId) (users s)
  | ClickCreate => ViewState_eqb (view s) HOME && is_ADMIN (currentUser s)
  | ClickCook i => ViewState_eqb (view s) HOME && (i <? length (users s))%nat
  | ClickRecipe i | ClickFavorite i =>
      ViewState_eqb (view s) HOME && (i <? length (recipes s))%nat
  | ClickCancel => ViewState_eqb (view s) CREATE_RECIPE
  | CapturePhoto _ | RetakePhoto => capturing s
  | StartRecording _ => capturing s && Button_passes inert (isGenerating s)
  | RecordingComplete k =>
      capturing s
      && match pending w !! k with Some (Recording _ _) => true | _ => false end
  | ClickDiscard | ClickSave
  | EditTitle _ | EditDescription _ | EditDifficulty _ | EditCalories _ =>
      reviewing s
  | ClickGenerateVideo _ =>
      reviewing s
      && match draftRecipe s with
         | Some draft => negb (truthy_opt (Recipe.videoUrl draft))
         | None => false
         end
      && Button_passes inert (isGenerating s)
  | ClickBack | ClickFavoriteDetail | ClickServingsMinus | ClickServingsPlus
  | ClickAddAllToShoppingList _ | ClickStartCooking =>
      match detail_of s with Some _ => true | None => false end
  | ClickGenerateVideoForRecipe _ =>
      match detail_of s with
      | Some selected =>
          negb (truthy_opt (Recipe.videoUrl selected))
          && Button_passes inert (isGenerating s)
      | None => false
      end
  | ClickVisualizeSteps =>
      match detail_of s with
      | Some selected =>
          match Recipe.instructionThumbnails selected with
          | Some _ => false
          | None => Button_passes inert (isGenerating s)
          end
      | None => false
      end
  | ClickCloseCooking =>
      match cooking_of s with Some _ => true | None => false end
  | ClickPreviousStep =>
      match cooking_of s with
      | Some _ => negb (currentStepIndex s =? 0)%Z
      | None => false
      end
  | ClickNextStep =>
      match cooking_of s with
      | Some selected =>
          negb (currentStepIndex s
                =? Z.of_nat (length (Recipe.instructions selected)) - 1)%Z
      | None => false
      end
  | ClickItemCheckbox i | ClickRemoveItem i =>
      ViewState_eqb (view s) SHOPPING_LIST
      && (i <? length (User.shoppingList (currentUser s)))%nat
  | ClickClearAll =>
      ViewState_eqb (view s) SHOPPING_LIST
      && match User.shoppingList (currentUser s) with [] => false | _ => true end
  | Settle _ _ => true
  end.

(** Every event of the run is offered in the state it happens in. *)
Fixpoint ui_run (inert : bool) (es : list (N * Event)) (w : World) : bool :=
  match es with
  | [] => true
  | e :: rest =>
      offered inert w (snd e) && ui_run inert rest (step (fst e) (snd e) w)
  end.

(** ** Properties of the states of a run *)

(** [a] is the id of the administrators. *)
Definition admin_is (a : string) (u : User.t) : Prop := is_ADMIN u = true -> User.id u = a.

(** The recorders and the generations in flight that hold the profile with
    id [a]. *)
Definition authored_by (a : string) (t : Task) : Prop :=
  match t with
  | Recording _ u | AwaitRecipeFromMedia _ u => User.id u = a
  | _ => True
  end.

(** The roster has no administrator but [a], the create view is shown to an
    administrator only, and the draft, the recorders and the generations in
    flight carry the id [a] as author. *)
Definition author_inv (a : string) (w : World) : Prop :=
  (forall u, u ∈ users (app w) -> admin_is a u)
  /\ admin_is a (currentUser (app w))
  /\ (view (app w) = CREATE_RECIPE -> is_ADMIN (currentUser (app w)) = true)
  /\ (forall draft, draftRecipe (app w) = Some draft -> Recipe.authorId draft = a)
  /\ Forall (authored_by a) (pending w).

(** A profile that differs from the active one in its avatar, favorites or
    shopping list only. *)
Definition same_person (u u' : User.t) : Prop :=
  User.id u' = User.id u /\ User.role u' = User.role u.

(** The ids in use: the one of the draft, when there is a draft, and those
    of the collection. *)
Definition catalogue (w : World) : list string :=
  match draftRecipe (app w) with
  | Some draft => Recipe.id draft :: (Recipe.id <$> recipes (app w))
  | None => Recipe.id <$> recipes (app w)
  end.

(** Every event happens at a later clock value than the one before it, the
    first one after [from]. *)
Fixpoint ticking (from : N) (es : list (N * Event)) : Prop :=
  match es with
  | [] => True
  | e :: rest => (from < fst e)%N /\ ticking (fst e) rest
  end.

(** The ids in use are pairwise different and were made from clock values
    before [T]. *)
Definition ids_inv (T : N) (w : World) : Prop :=
  NoDup (catalogue w)
  /\ forall id, id ∈ catalogue w -> exists t, (t < T)%N /\ id = "rec-" +:+ pretty t.

(** ** The start frame of a video request (geminiService.ts) *)

(** The comma character. *)
Definition comma : Ascii.ascii :=
  Ascii.Ascii false false true true false true false false.

(** [s.split(',')]: the pieces of [s] between the commas. *)
Fixpoint split_comma (s : string) : list string :=
  match s with
  | EmptyString => [""]
  | String c rest =>
      if Ascii.eqb c comma then "" :: split_comma rest
      else match split_comma rest with
           | piece :: pieces => String c piece :: pieces
           | [] => [String c ""]
           end
  end.

(** [s.split(',')[1]] *)
Definition second_piece (s : string) : option string := split_comma s !! 1%nat.

(** [urlToBase64]: the image behind [url] is fetched and read as a data URL
    ([readAsDataURL url] is the text the [FileReader] produces, or the
    rejection of the fetch or of the reader) and the part after its first
    comma is returned. *)
Definition urlToBase64 (readAsDataURL : string -> Settled string) (url : string)
    : Settled (option string) :=
  match readAsDataURL url with
  | Fulfilled base64 => Fulfilled (second_piece base64)
  | Rejected => Rejected
  end.

Definition video_prompt_of_image (title : string) : string :=
  "Cinematic slow motion masterpiece shot of " +:+ title
    +:+ ". Golden hour lighting. The camera pans slowly over the dish, showcasing steam rising and delicious textures. 4k resolution, highly detailed, professional food commercial style.".

Definition video_prompt_of_persona (title : string) : string :=
  "Cinematic transition starting with a warm, loving grandmother in a kitchen, smoothly transforming into a close-up of a delicious "
    +:+ title
    +:+ ". Warm golden lighting, steam rising, high-end culinary documentary style. 4k resolution.".

(** What [generateRecipeVideo] submits to [generateVideos]: the prompt, and
    the start image when [startImageBase64] is truthy. *)
Record VideoRequest := {
  request_prompt : string;
  request_imageBytes : option string
}.

(** [generateRecipeVideo] up to the submission: the request it submits, or
    the rejection of [urlToBase64]. *)
Definition generateRecipeVideo_request (readAsDataURL : string -> Settled string)
    (title : string) (imageUrl personaImageUrl : option string)
    : Settled VideoRequest :=
  let startImageBase64 : Settled (option string) :=
    if truthy_opt imageUrl then Fulfilled (imageUrl ≫= second_piece)
    else if truthy_opt personaImageUrl then
      match personaImageUrl with
      | Some p => urlToBase64 readAsDataURL p
      | None => Fulfilled None
      end
    else Fulfilled None in
  let prompt :=
    if truthy_opt imageUrl then video_prompt_of_image title
    else video_prompt_of_persona title in
  match startImageBase64 with
  | Fulfilled base64 =>
      Fulfilled {| request_prompt := prompt;
                   request_imageBytes := or_undefined base64 |}
  | Rejected => Rejected
  end.

(** ** The [SafeImage] component *)








(** ** [renderHome]: the tag filter *)

(** [Array.from(new Set(a))]: the elements of [a] in the order of their
    first occurrence. *)
Definition unique (a : list string) : list string :=
  fold_left (fun seen x => if includes seen x then seen else (seen ++ [x])%list) a [].

(** The order of [Array.prototype.sort()] on strings, by UTF-16 code
    units. *)
Definition string_le (a b : string) : Prop := String_leb a b = true.

#[local] Instance string_le_dec (a b : string) : Decision (string_le a b).
Proof. unfold string_le. apply _. Defined.

Definition allTags (recipes : list Recipe.t) : list string :=
  merge_sort string_le (unique (flat_map Recipe.tags recipes)).

Definition filteredRecipes (selectedTag : option string)
    (recipes : list Recipe.t) : list Recipe.t :=
  match selectedTag with
  | Some tag =>
      if truthy tag
      then List.filter (fun r => includes (Recipe.tags r) tag) recipes
      else recipes
  | None => recipes
  end.

(** ** Ask Susu (App.tsx [handleAskSusu], geminiService.ts
       [askSusuWithGrounding]) *)

(** A grounding chunk as the gateway returns it: the citation is under
    [web], or directly in the chunk. *)
Module WebSource.
Record t := mk { uri : option string; title : option string }.
End WebSource.

Module GroundingChunk.
Record t := mk {
  web : option WebSource.t;
  uri : option string;
  title : option string
}.
End GroundingChunk.

(** [a || b] on optional strings. *)
Definition or_else (a b : option string) : option string :=
  if truthy_opt a then a else b.

(** [s.web?.uri || s.uri], the link target of a citation. *)
Definition citation_href (s : GroundingChunk.t) : option string :=
  or_else (GroundingChunk.web s ≫= WebSource.uri) (GroundingChunk.uri s).



Module SusuResponse.
Record t := mk { text : string; sources : list GroundingChunk.t }.
End SusuResponse.







(** * Properties *)

(** ** Sample inputs of the examples *)

(** Two answers of the transcribe-and-structure call. *)
Definition soup : RecipeGenResponse.t := {|
  RecipeGenResponse.title := "Soup";
  RecipeGenResponse.description := "Warm";
  RecipeGenResponse.ingredients :=
    [GenIngredient.mk "Water" "1 l" (1 # 4) "Pantry"];
  RecipeGenResponse.instructions := ["Boil."];
  RecipeGenResponse.tips := "Salt late.";
  RecipeGenResponse.servings := 2;
  RecipeGenResponse.prepTime := "5 mins";
  RecipeGenResponse.tags := ["Dinner"];
  RecipeGenResponse.difficulty := Easy;
  RecipeGenResponse.calories := 10
|}.

Definition salad : RecipeGenResponse.t := {|
  RecipeGenResponse.title := "Salad";
  RecipeGenResponse.description := "Fresh";
  RecipeGenResponse.ingredients :=
    [GenIngredient.mk "Lettuce" "1 head" (3 # 2) "Produce"];
  RecipeGenResponse.instructions := ["Wash."; "Toss."];
  RecipeGenResponse.tips := "Dress at the table.";
  RecipeGenResponse.servings := 2;
  RecipeGenResponse.prepTime := "10 mins";
  RecipeGenResponse.tags := ["Lunch"];
  RecipeGenResponse.difficulty := Easy;
  RecipeGenResponse.calories := 80
|}.

(** A gateway that answers [prompt] with the image [data] and throws on any
    other prompt. *)
Definition image_only_for (prompt data : string) (p : string) : ContentResult :=
  if String.eqb p prompt then Responds [{| inlineData := Some data |}] else Throws.

(** A gateway for the thumbnails that throws on the request of step
    [failing] and answers every other request with the image [data]. *)
Definition thumbnails_failing_at (failing : nat) (data : string)
    (index : nat) (prompt : string) : ContentResult :=
  if Nat.eqb index failing then Throws
  else Responds [{| inlineData := Some data |}].

(** A snapshot of a video operation that is still running. *)
Definition notDone : Operation := {| done := false; uri := None |}.

(** The third ingredient of the first seed recipe. *)
Definition garlic : Ingredient.t :=
  seed_ingredient "ing-3" "Garlic" "5 cloves" (1 # 2) "Produce".

(** ** Runs *)

Section Runs.

Implicit Types (w : World) (es : list (N * Event)).

Lemma run_cons (e : N * Event) es w :
  run (e :: es) w = run es (step (fst e) (snd e) w).
Proof. reflexivity. Qed.

Lemma run_app es1 es2 w : run (es1 ++ es2) w = run es2 (run es1 w).
Proof. apply fold_left_app. Qed.

Lemma world_eta w : mkWorld (app w) (alerts w) (pending w) = w.
Proof. by destruct w. Qed.

(** The clicks: every event but the settlement of a promise and the stop of
    a recorder.  A click takes nothing from the pending list. *)
Definition is_click (e : Event) : bool :=
  match e with
  | Settle _ _ | RecordingComplete _ => false
  | _ => true
  end.

Lemma click_pending now (e : Event) w :
  is_click e = true -> exists more, pending (step now e w) = (pending w ++ more)%list.
Proof.
  intros He.
  assert (Hnil : exists more, pending w = (pending w ++ more)%list)
    by (exists []; by rewrite app_nil_r).
  destruct e; try discriminate He; cbn [step]; try exact Hnil.
  - destruct (recipes (app w) !! i); exact Hnil.
  - destruct (recipes (app w) !! i); exact Hnil.
  - unfold startRecording. destruct granted; [by eexists|exact Hnil].
  - unfold handleGenerateVideo. destruct (draftRecipe (app w)) as [draft|];
      [|exact Hnil].
    destruct (truthy (Recipe.title draft) && keySelected); [by eexists|exact Hnil].
  - destruct (selectedRecipe (app w)); exact Hnil.
  - unfold handleGenerateVideoForActiveRecipe.
    destruct (selectedRecipe (app w)); [|exact Hnil].
    destruct keySelected; [by eexists|exact Hnil].
  - unfold handleVisualizeSteps.
    destruct (selectedRecipe (app w)); [by eexists|exact Hnil].
  - destruct (selectedRecipe (app w)); exact Hnil.
  - destruct (User.shoppingList (currentUser (app w)) !! i); exact Hnil.
  - destruct (User.shoppingList (currentUser (app w)) !! i); exact Hnil.
Qed.

Lemma clicks_pending es : forall w,
  Forall (fun e => is_click (snd e) = true) es ->
  exists more, pending (run es w) = (pending w ++ more)%list.
Proof.
  induction es as [|[now e] es IH]; intros w Hes.
  - exists []. by rewrite app_nil_r.
  - apply Forall_cons in Hes as [He Hes]. rewrite run_cons. cbn [fst snd] in *.
    destruct (click_pending now e w He) as [more1 E1].
    destruct (IH (step now e w) Hes) as [more2 E2].
    exists (more1 ++ more2)%list. by rewrite E2, E1, app_assoc.
Qed.

(** A recording from its start to its stop, with any clicks in between: the
    generation that the stop requests carries the photo and the profile of
    the state in which the recording was started. *)
Lemma recording_handed_over (t0 t1 : N) es w :
  Forall (fun e => is_click (snd e) = true) es ->
  let recording := run es (step t0 (StartRecording true) w) in
  let stopped := step t1 (RecordingComplete (length (pending w))) recording in
  exists more,
    pending recording
    = (pending w
         ++ Recording (capturedImage (app w)) (currentUser (app w)) :: more)%list
    /\ pending stopped
       = (pending w ++ more
            ++ [AwaitRecipeFromMedia (capturedImage (app w)) (currentUser (app w))])%list
    /\ length (pending stopped) = length (pending recording)
    /\ app stopped = setIsGenerating true (app recording)
    /\ alerts stopped = alerts recording.
Proof.
  intros Hes recording stopped.
  destruct (clicks_pending es (step t0 (StartRecording true) w) Hes) as [more E].
  fold recording in E.
  change (pending (step t0 (StartRecording true) w))
    with (pending w ++ [Recording (capturedImage (app w)) (currentUser (app w))])%list
    in E.
  rewrite <- app_assoc in E. cbn [List.app] in E.
  exists more. split; [exact E|].
  subst stopped. cbn [step]. unfold stopRecording.
  rewrite E, list_lookup_middle by done.
  cbn [handleGenerateRecipe spawn on_app app alerts pending].
  rewrite delete_middle, <- !app_assoc.
  split; [reflexivity|]. split; [|by split].
  rewrite !length_app. cbn [length]. rewrite ?length_app. cbn [length]. lia.
Qed.

End Runs.

(** ** Favorites *)

Section Favorites.

Implicit Types (favs : list string) (recipeId x : string).

(** The favorites left when [recipeId] is toggled off. *)
Definition favorites_without recipeId favs : list string :=
  List.filter (fun id => negb (String.eqb id recipeId)) favs.

Lemma includes_spec favs x : includes favs x = true <-> x ∈ favs.
Proof.
  unfold includes. rewrite existsb_exists. split.
  - intros (y & Hy & E). apply String.eqb_eq in E. subst y.
    by apply list_elem_of_In.
  - intros H. exists x. split; [by apply list_elem_of_In | apply String.eqb_refl].
Qed.

Lemma includes_false favs x : includes favs x = false <-> x ∉ favs.
Proof.
  rewrite <- includes_spec. destruct (includes favs x); split; congruence.
Qed.

Lemma elem_of_favorites_without favs recipeId x :
  x ∈ favorites_without recipeId favs <-> x ∈ favs /\ x <> recipeId.
Proof.
  unfold favorites_without. rewrite !list_elem_of_In, filter_In, negb_true_iff.
  rewrite String.eqb_neq. tauto.
Qed.

Lemma favorites_without_absent favs recipeId :
  recipeId ∉ favs -> favorites_without recipeId favs = favs.
Proof.
  induction favs as [|y favs IH]; intros H; [done|].
  apply not_elem_of_cons in H as [Hne Hnot]. unfold favorites_without in *. simpl.
  destruct (String.eqb_spec y recipeId) as [->|_]; [done|].
  simpl. by rewrite IH.
Qed.

Lemma favorites_without_added favs recipeId :
  recipeId ∉ favs -> favorites_without recipeId (favs ++ [recipeId])%list = favs.
Proof.
  intros H. unfold favorites_without. rewrite List.filter_app.
  fold (favorites_without recipeId favs).
  rewrite (favorites_without_absent _ _ H). simpl.
  rewrite String.eqb_refl. simpl. apply app_nil_r.
Qed.

Lemma favorites_toggleFavorite recipeId (s : AppState) :
  User.favorites (currentUser (toggleFavorite recipeId s)) =
  if includes (User.favorites (currentUser s)) recipeId
  then favorites_without recipeId (User.favorites (currentUser s))
  else (User.favorites (currentUser s) ++ [recipeId])%list.
Proof. reflexivity. Qed.

(** One toggle: the recipe is a favorite afterwards exactly when it was
    none before; the other ids are members as before. *)
Lemma toggleFavorite_member recipeId (s : AppState) x :
  x ∈ User.favorites (currentUser (toggleFavorite recipeId s)) <->
  (x = recipeId /\ recipeId ∉ User.favorites (currentUser s))
  \/ (x <> recipeId /\ x ∈ User.favorites (currentUser s)).
Proof.
  rewrite favorites_toggleFavorite.
  destruct (includes (User.favorites (currentUser s)) recipeId) eqn:E.
  - apply includes_spec in E. rewrite elem_of_favorites_without.
    destruct (decide (x = recipeId)) as [->|]; tauto.
  - apply includes_false in E. rewrite elem_of_app, list_elem_of_singleton.
    destruct (decide (x = recipeId)) as [->|]; tauto.
Qed.

(** C9.  The favorite button is a set-membership toggle on the favorites of
    the active profile: one toggle makes the recipe a favorite exactly when
    it was none, leaves every other id in or out as it was and changes
    nothing else of the profile; it is what both heart buttons do.  Toggling
    twice in succession gives the profile the favorites it had as a set: the
    same ids are members.  When the list had no duplicate it is again
    without duplicate and a permutation of the original, and when the recipe
    was not a favorite the list itself is back. *)
Theorem toggleFavorite_twice recipeId (s : AppState) :
  let favs := User.favorites (currentUser s) in
  let favs1 := User.favorites (currentUser (toggleFavorite recipeId s)) in
  let favs2 :=
    User.favorites
      (currentUser (toggleFavorite recipeId (toggleFavorite recipeId s))) in
  (recipeId ∈ favs1 <-> recipeId ∉ favs)
  /\ (forall x, x <> recipeId -> (x ∈ favs1 <-> x ∈ favs))
  /\ currentUser (toggleFavorite recipeId s)
     = User.with_favorites favs1 (currentUser s)
  /\ (forall now w i recipe,
        recipes (app w) !! i = Some recipe ->
        app (step now (ClickFavorite i) w)
        = toggleFavorite (Recipe.id recipe) (app w))
  /\ (forall now w selected,
        selectedRecipe (app w) = Some selected ->
        app (step now ClickFavoriteDetail w)
        = toggleFavorite (Recipe.id selected) (app w))
  /\ (forall x, x ∈ favs2 <-> x ∈ favs)
  /\ (NoDup favs -> NoDup favs2 /\ favs2 ≡ₚ favs)
  /\ (recipeId ∉ favs -> favs2 = favs).
Proof.
  intros favs favs1 favs2.
  split.
  { subst favs1. rewrite toggleFavorite_member. fold favs. tauto. }
  split.
  { intros x Hx. subst favs1. rewrite toggleFavorite_member. fold favs. tauto. }
  split; [reflexivity|].
  split; [by intros now w i recipe Hi; cbn [step]; rewrite Hi|].
  split; [by intros now w selected Hsel; cbn [step]; rewrite Hsel|].
  clear favs1. subst favs2. rewrite !favorites_toggleFavorite. fold favs.
  destruct (includes favs recipeId) eqn:E.
  - rewrite (proj2 (includes_false _ _)).
    2:{ rewrite elem_of_favorites_without. tauto. }
    apply includes_spec in E.
    assert (Hset : forall x,
              x ∈ (favorites_without recipeId favs ++ [recipeId])%list <-> x ∈ favs).
    { intros x. rewrite elem_of_app, elem_of_favorites_without, list_elem_of_singleton.
      destruct (decide (x = recipeId)) as [->|]; tauto. }
    split; [exact Hset|]. split; [|tauto].
    intros Hnd.
    assert (Hnd2 : NoDup (favorites_without recipeId favs ++ [recipeId])%list).
    { apply NoDup_app. split; [|split].
      - unfold favorites_without.
        apply NoDup_ListNoDup, List.NoDup_filter. by apply NoDup_ListNoDup.
      - intros x Hx Hx'. apply elem_of_favorites_without in Hx.
        apply list_elem_of_singleton in Hx'. tauto.
      - apply NoDup_singleton. }
    split; [exact Hnd2|]. by apply NoDup_Permutation.
  - apply includes_false in E.
    assert (E2 : includes (favs ++ [recipeId])%list recipeId = true).
    { apply includes_spec, elem_of_app. right. by apply list_elem_of_singleton. }
    rewrite E2, !(favorites_without_added _ _ E).
    split; [done|]. split; [|done]. intros Hnd. by split.
Qed.

End Favorites.

(** ** The roster and the active profile *)

Section Roster.

Implicit Types (s : AppState) (w : World) (u user : User.t) (roster : list User.t).

(** Every roster entry with the id of the active profile is the active profile. *)
Definition mirrored s : Prop :=
  forall u, u ∈ users s -> User.id u = User.id (currentUser s) -> u = currentUser s.

(** The active profile is an entry of the roster. *)
Definition enrolled s : Prop := currentUser s ∈ users s.

Definition roster_inv w : Prop := mirrored (app w) /\ enrolled (app w).

(** The two ways a transition treats the roster: it keeps roster and active
    profile, or it makes [user] the active profile and writes it over the
    entries with its id. *)
Definition roster_kept s s' : Prop :=
  users s' = users s /\ currentUser s' = currentUser s.

Definition roster_replaced user s s' : Prop :=
  currentUser s' = user /\ users s' = replace_user user (users s).

Lemma replace_user_lookup user roster (i : nat) :
  replace_user user roster !! i =
  (fun u => if String.eqb (User.id u) (User.id user) then user else u) <$> roster !! i.
Proof. unfold replace_user. apply list_lookup_fmap. Qed.

Lemma elem_of_replace_user user roster u' :
  u' ∈ replace_user user roster <->
  exists u, u ∈ roster /\ u' = if String.eqb (User.id u) (User.id user) then user else u.
Proof.
  unfold replace_user. rewrite list_elem_of_fmap. split; intros (u & H1 & H2); eauto.
Qed.

Lemma replace_user_idem user roster :
  replace_user user (replace_user user roster) = replace_user user roster.
Proof.
  unfold replace_user. rewrite map_map. apply map_ext. intros u.
  destruct (String.eqb_spec (User.id u) (User.id user)) as [E|E].
  - by rewrite String.eqb_refl.
  - by apply String.eqb_neq in E as ->.
Qed.

Lemma replace_user_mirrored user roster u' :
  u' ∈ replace_user user roster -> User.id u' = User.id user -> u' = user.
Proof.
  rewrite elem_of_replace_user. intros (u & _ & ->).
  destruct (String.eqb_spec (User.id u) (User.id user)); [done|]. intros; contradiction.
Qed.

Lemma replace_user_enrolled user roster :
  (exists u, u ∈ roster /\ User.id u = User.id user) -> user ∈ replace_user user roster.
Proof.
  intros (u & Hu & E). apply elem_of_replace_user. exists u. split; [done|].
  rewrite E. by rewrite String.eqb_refl.
Qed.

Lemma array_find_Some {A} (p : A -> bool) (a : list A) (x : A) :
  array_find p a = Some x -> x ∈ a /\ p x = true.
Proof.
  intros H. apply find_some in H as [H1 H2]. split; [by apply list_elem_of_In|done].
Qed.


(** The events that mutate the active profile: favorite toggles, the avatar
    update and the shopping-list edits. *)
Definition is_profile_mutation (e : Event) : bool :=
  match e with
  | CaptureAvatar _ | ClickFavorite _ | ClickFavoriteDetail
  | ClickAddAllToShoppingList _ | ClickItemCheckbox _ | ClickRemoveItem _
  | ClickClearAll => true
  | _ => false
  end.

(** The events that replace the active profile by a roster entry. *)
Definition is_switch (e : Event) : bool :=
  match e with
  | SwitchUser _ | ClickCook _ => true
  | _ => false
  end.

Ltac roster_kept := left; split; reflexivity.
Ltac roster_mutated :=
  right; eexists; split; [split; reflexivity | split; [reflexivity | discriminate]].

Lemma step_roster now (e : Event) w :
  roster_kept (app w) (app (step now e w))
  \/ exists user,
       roster_replaced user (app w) (app (step now e w))
       /\ (is_profile_mutation e = true -> User.id user = User.id (currentUser (app w)))
       /\ (is_profile_mutation e = false ->
           is_switch e = true /\ user ∈ users (app w)).
Proof.
  destruct e; simpl; try roster_kept.
  - (* SwitchUser *)
    unfold handleSwitchUser.
    destruct (array_find _ (users (app w))) as [user|] eqn:E; [|roster_kept].
    apply array_find_Some in E as [Hin _].
    right. exists user. split; [split; reflexivity|]. split; [discriminate|done].
  - (* CaptureAvatar *)
    right. eexists. split; [split; [reflexivity|]|split; [reflexivity|discriminate]].
    simpl. apply replace_user_idem.
  - (* ClickCook *)
    unfold selectCook. destruct (users (app w) !! i) as [u|] eqn:E; [|roster_kept].
    right. exists u. split; [split; reflexivity|]. split; [discriminate|].
    intros _. split; [done|]. by eapply list_elem_of_lookup_2.
  - (* ClickRecipe *)
    destruct (recipes (app w) !! i); roster_kept.
  - (* ClickFavorite *)
    destruct (recipes (app w) !! i); [roster_mutated|roster_kept].
  - (* StartRecording *)
    destruct granted; roster_kept.
  - (* RecordingComplete *)
    unfold stopRecording. destruct (pending w !! k) as [[]|]; roster_kept.
  - (* ClickSave *)
    unfold handleSaveRecipe. destruct (draftRecipe (app w)) as [d|]; [|roster_kept].
    destruct (truthy (Recipe.title d)); roster_kept.
  - (* ClickGenerateVideo *)
    unfold handleGenerateVideo. destruct (draftRecipe (app w)) as [d|]; [|roster_kept].
    destruct (truthy (Recipe.title d) && keySelected); roster_kept.
  - unfold editDraft. destruct (draftRecipe (app w)); roster_kept.
  - unfold editDraft. destruct (draftRecipe (app w)); roster_kept.
  - unfold editDraft. destruct (draftRecipe (app w)); roster_kept.
  - unfold editDraft. destruct (draftRecipe (app w)); roster_kept.
  - (* ClickFavoriteDetail *)
    destruct (selectedRecipe (app w)); [roster_mutated|roster_kept].
  - (* ClickGenerateVideoForRecipe *)
    unfold handleGenerateVideoForActiveRecipe.
    destruct (selectedRecipe (app w)); [|roster_kept]. destruct keySelected; roster_kept.
  - (* ClickVisualizeSteps *)
    unfold handleVisualizeSteps. destruct (selectedRecipe (app w)); roster_kept.
  - (* ClickAddAllToShoppingList *)
    destruct (selectedRecipe (app w)); [roster_mutated|roster_kept].
  - (* ClickNextStep *)
    unfold nextStep. destruct (selectedRecipe (app w)); roster_kept.
  - (* ClickItemCheckbox *)
    destruct (User.shoppingList (currentUser (app w)) !! i); [roster_mutated|roster_kept].
  - (* ClickRemoveItem *)
    destruct (User.shoppingList (currentUser (app w)) !! i); [roster_mutated|roster_kept].
  - (* ClickClearAll *)
    roster_mutated.
  - (* Settle *)
    unfold settle. destruct (pending w !! k) as [t|]; [|roster_kept].
    destruct t, v; simpl; try roster_kept;
      try (destruct (generateRecipeVideo r) as [[]|]; simpl; try roster_kept);
      try (destruct (generateRecipeImage generateContent title description); simpl; try roster_kept);
      try (destruct result; simpl; try roster_kept);
      try (destruct ai; simpl; try roster_kept);
      repeat match goal with
             | |- context [match draftRecipe ?s with _ => _ end] => destruct (draftRecipe s); simpl
             | |- context [if ?b then _ else _] => destruct b; simpl
             end; roster_kept.
Qed.

Lemma step_roster_inv now e w : roster_inv w -> roster_inv (step now e w).
Proof.
  intros [Hm He].
  destruct (step_roster now e w) as [[Hu Hc]|(user & [Hc Hu] & Hmut & Hsw)].
  - split; red; rewrite ?Hu, ?Hc; done.
  - split; red; rewrite Hu, Hc.
    + apply replace_user_mirrored.
    + apply replace_user_enrolled.
      destruct (is_profile_mutation e) eqn:E.
      * exists (currentUser (app w)). split; [done|]. symmetry. by apply Hmut.
      * exists user. split; [by apply Hsw|done].
Qed.

Lemma run_roster_inv es : forall w, roster_inv w -> roster_inv (run es w).
Proof.
  induction es as [|[now e] es IH]; intros w Hw; [done|].
  simpl. apply IH. by apply step_roster_inv.
Qed.

Lemma initialWorld_roster_inv t0 : roster_inv (initialWorld t0).
Proof.
  split.
  - intros u Hu E. simpl in *. unfold DEFAULT_USERS in Hu.
    repeat (apply elem_of_cons in Hu as [->|Hu]; [done || discriminate E|]).
    by apply elem_of_nil in Hu.
  - red. simpl. unfold DEFAULT_USERS. apply elem_of_cons. by left.
Qed.


(** [user]'s entry is in the roster, and it is the only entry with its id. *)
Definition held user roster : Prop :=
  user ∈ roster /\ forall u, u ∈ roster -> User.id u = User.id user -> u = user.

Lemma held_replace_other user other roster :
  User.id other <> User.id user -> held user roster ->
  held user (replace_user other roster).
Proof.
  intros Hne [Hin Huniq]. split.
  - apply elem_of_replace_user. exists user. split; [done|].
    destruct (String.eqb_spec (User.id user) (User.id other)); congruence.
  - intros u' Hu' E. apply elem_of_replace_user in Hu' as (u & Hu & ->).
    destruct (String.eqb_spec (User.id u) (User.id other)); [congruence|auto].
Qed.

Lemma held_step now e w user :
  is_switch e = false ->
  User.id (currentUser (app w)) <> User.id user ->
  held user (users (app w)) ->
  held user (users (app (step now e w)))
  /\ User.id (currentUser (app (step now e w))) = User.id (currentUser (app w)).
Proof.
  intros Hsw Hne Hheld.
  destruct (step_roster now e w) as [[Hu Hc]|(other & [Hc Hu] & Hmut & Hnot)].
  - by rewrite Hu, Hc.
  - destruct (is_profile_mutation e) eqn:E.
    + rewrite Hu, Hc. specialize (Hmut eq_refl). split; [|done].
      apply held_replace_other; [congruence|done].
    + destruct (Hnot eq_refl) as [Hsw' _]. congruence.
Qed.

Lemma held_run user es : forall w,
  Forall (fun e => is_switch (snd e) = false) es ->
  User.id (currentUser (app w)) <> User.id user ->
  held user (users (app w)) ->
  held user (users (app (run es w)))
  /\ User.id (currentUser (app (run es w))) = User.id (currentUser (app w)).
Proof.
  induction es as [|[now e] es IH]; intros w Hes Hne Hheld; [done|].
  apply Forall_cons in Hes as [He Hes]. simpl in *.
  destruct (held_step now e w user He Hne Hheld) as [Hheld' Hid].
  destruct (IH (step now e w) Hes) as [H1 H2]; [congruence|done|].
  split; [done|congruence].
Qed.

Lemma handleSwitchUser_found userId s :
  (exists u, u ∈ users s /\ User.id u = userId) ->
  exists user, user ∈ users s /\ User.id user = userId
    /\ array_find (fun u => String.eqb (User.id u) userId) (users s) = Some user.
Proof.
  intros (u & Hu & E).
  destruct (array_find (fun u => String.eqb (User.id u) userId) (users s)) as [user|] eqn:F.
  - apply array_find_Some in F as [Hin Hp]. apply String.eqb_eq in Hp. eauto.
  - unfold array_find in F. apply list_elem_of_In in Hu.
    apply (find_none _ _ F u) in Hu. apply String.eqb_neq in Hu. contradiction.
Qed.

Lemma switch_back now w user :
  held user (users (app w)) ->
  currentUser (app (step now (SwitchUser (User.id user)) w)) = user.
Proof.
  intros [Hin Huniq]. simpl. unfold handleSwitchUser.
  destruct (handleSwitchUser_found (User.id user) (app w)) as (u & Hu & E & ->); [eauto|].
  simpl. auto.
Qed.

Lemma switch_away now w userId :
  roster_inv w ->
  userId <> User.id (currentUser (app w)) ->
  (exists u, u ∈ users (app w) /\ User.id u = userId) ->
  held (currentUser (app w)) (users (app (step now (SwitchUser userId) w)))
  /\ User.id (currentUser (app (step now (SwitchUser userId) w))) = userId.
Proof.
  intros [Hm He] Hne Hex. simpl. unfold handleSwitchUser.
  destruct (handleSwitchUser_found userId (app w) Hex) as (u & Hu & E & ->).
  simpl. split; [|done]. apply held_replace_other; [congruence|]. by split.
Qed.

(** C3.  From a state in which the roster mirrors the active profile (the
    initial state is one), after every sequence of events the active profile
    is an entry of the roster and every entry with its id equals it; an event
    that mutates the active profile (favorite toggle, avatar update,
    shopping-list edit) changes no entry with another id; and switching to
    another profile of the roster, letting it do anything but switch, and
    switching back restores the first profile, with its favorites and its
    shopping list, as it was last mutated. *)
Theorem roster_mirrors_active_profile (w : World) :
  roster_inv w ->
  (forall es,
     let s' := app (run es w) in
     currentUser s' ∈ users s'
     /\ forall u, u ∈ users s' -> User.id u = User.id (currentUser s') ->
                  u = currentUser s')
  /\ (forall now e i u,
        is_profile_mutation e = true ->
        users (app w) !! i = Some u ->
        User.id u <> User.id (currentUser (app w)) ->
        users (app (step now e w)) !! i = Some u)
  /\ (forall t1 t2 userId es,
        userId <> User.id (currentUser (app w)) ->
        (exists u, u ∈ users (app w) /\ User.id u = userId) ->
        Forall (fun e => is_switch (snd e) = false) es ->
        let p1 := currentUser (app w) in
        let w' := run ((t1, SwitchUser userId) :: es ++ [(t2, SwitchUser (User.id p1))]) w in
        currentUser (app w') = p1
        /\ User.favorites (currentUser (app w')) = User.favorites p1
        /\ User.shoppingList (currentUser (app w')) = User.shoppingList p1).
Proof.
  intros Hinv. split; [|split].
  - intros es s'. destruct (run_roster_inv es w Hinv) as [Hm He]. by split.
  - intros now e i u Hmut Hi Hne.
    destruct (step_roster now e w) as [[Hu Hc]|(user & [Hc Hu] & Hid & _)].
    + by rewrite Hu.
    + rewrite Hu, replace_user_lookup, Hi. simpl.
      rewrite (Hid Hmut). by apply String.eqb_neq in Hne as ->.
  - intros t1 t2 userId es Hne Hex Hes p1 w'.
    assert (E : currentUser (app w') = p1); [|by rewrite E].
    subst w'. rewrite run_cons, run_app. cbn [fst snd].
    change (run [(t2, SwitchUser (User.id p1))] ?x)
      with (step t2 (SwitchUser (User.id p1)) x).
    destruct (switch_away t1 w userId Hinv Hne Hex) as [Hheld Hid].
    destruct (held_run p1 es (step t1 (SwitchUser userId) w) Hes) as [Hheld' _];
      [by rewrite Hid|done|].
    by apply switch_back.
Qed.

Lemma mountedState_roster_inv t0 savedUsers savedRecipes :
  (forall roster, savedUsers = Some roster ->
     exists u, u ∈ roster /\ User.id u = User.id susu) ->
  roster_inv (mkWorld (mountedState t0 savedUsers savedRecipes) [] []).
Proof.
  intros Hsaved. unfold mountedState.
  assert (Hsusu : exists u, u ∈ DEFAULT_USERS /\ User.id u = User.id susu).
  { exists susu. split; [|done]. apply elem_of_cons. by left. }
  destruct savedUsers as [roster|], savedRecipes as [rs|]; split; red;
    cbn -[replace_user DEFAULT_USERS susu];
    first [apply replace_user_mirrored | apply replace_user_enrolled];
    first [by apply Hsaved | exact Hsusu].
Qed.

Lemma roster_mirrors_active_profile_witness :
  let w :=
    run [(1%N, ClickRecipe 0); (2%N, ClickServingsPlus); (3%N, ClickServingsPlus);
         (4%N, ClickFavoriteDetail)] (initialWorld 0) in
  let es :=
    [(6%N, ClickAddAllToShoppingList (fun idx => pretty idx));
     (7%N, ClickItemCheckbox 2); (8%N, ClickFavorite 1)] in
  let w' := run ((5%N, SwitchUser "dad") :: es ++ [(9%N, SwitchUser "susu")]) w in
  User.favorites (currentUser (app w)) = ["rec-1"]
  /\ currentUser (app w') = currentUser (app w)
  /\ User.favorites <$> users (app w') = [["rec-1"]; ["rec-2"]; []; []]
  /\ (fun u => Ingredient.item <$> User.shoppingList u) <$> users (app w') =
     [[]; ["Pork Ribs (x2)"; "San Marzano Tomatoes (x2)"; "Garlic (x2)";
           "Fresh Basil (x2)"]; []; []].
Proof.
  intros w es w'.
  assert (Hinv : roster_inv w).
  { apply run_roster_inv, initialWorld_roster_inv. }
  destruct (roster_mirrors_active_profile w Hinv) as (_ & _ & Hround).
  destruct (Hround 5%N 9%N "dad" es) as (Hback & _).
  - discriminate.
  - exists dad. split; [|reflexivity].
    apply (list_elem_of_lookup_2 _ 1%nat). reflexivity.
  - repeat constructor.
  - split; [reflexivity|]. split; [exact Hback|]. split; reflexivity.
Defined.

End Roster.

(** ** Recipe enrichment: thumbnails and video *)

Section Enrichment.

(** Two recipes that agree on every field other than [videoUrl]. *)
Definition same_but_videoUrl (r r' : Recipe.t) : Prop :=
  Recipe.id r' = Recipe.id r
  /\ Recipe.title r' = Recipe.title r
  /\ Recipe.description r' = Recipe.description r
  /\ Recipe.ingredients r' = Recipe.ingredients r
  /\ Recipe.instructions r' = Recipe.instructions r
  /\ Recipe.instructionThumbnails r' = Recipe.instructionThumbnails r
  /\ Recipe.tips r' = Recipe.tips r
  /\ Recipe.imageUrl r' = Recipe.imageUrl r
  /\ Recipe.authorId r' = Recipe.authorId r
  /\ Recipe.createdAt r' = Recipe.createdAt r
  /\ Recipe.tags r' = Recipe.tags r
  /\ Recipe.servings r' = Recipe.servings r
  /\ Recipe.prepTime r' = Recipe.prepTime r
  /\ Recipe.cookTime r' = Recipe.cookTime r
  /\ Recipe.difficulty r' = Recipe.difficulty r
  /\ Recipe.calories r' = Recipe.calories r.

Lemma with_videoUrl_same (videoUrl : string) (r : Recipe.t) :
  same_but_videoUrl r (Recipe.with_videoUrl videoUrl r).
Proof. repeat split. Qed.

Lemma replace_recipe_lookup (updated : Recipe.t) (prev : list Recipe.t) (i : nat) :
  replace_recipe updated prev !! i =
  (fun r => if String.eqb (Recipe.id r) (Recipe.id updated) then updated else r)
    <$> prev !! i.
Proof. unfold replace_recipe. apply list_lookup_fmap. Qed.

Lemma generateInstructionThumbnails_lookup g (instructions : list string) (i : nat) :
  generateInstructionThumbnails g instructions !! i =
  (fun inst => instruction_thumbnail g inst i) <$> instructions !! i.
Proof.
  unfold generateInstructionThumbnails, array_mapi. apply list_lookup_imap.
Qed.

Lemma generateInstructionThumbnails_length g (instructions : list string) :
  length (generateInstructionThumbnails g instructions) = length instructions.
Proof. unfold generateInstructionThumbnails, array_mapi. apply length_imap. Qed.

(** C5.  The batch of thumbnails has one entry per instruction, the entry at
    an index being the thumbnail of the instruction at that index; a request
    that throws leaves the empty string at its index, and the entries at the
    other indices do not depend on the outcome of that request.  When the
    batch settles for a recipe, the recipe with the thumbnails attached
    becomes the selected recipe and replaces the collection entries with its
    id; its thumbnails are as many as its instructions. *)
Theorem thumbnails_one_per_instruction
    (g : nat -> string -> ContentResult) (instructions : list string) :
  let thumbnails := generateInstructionThumbnails g instructions in
  length thumbnails = length instructions
  /\ (forall i inst, instructions !! i = Some inst ->
        thumbnails !! i = Some (instruction_thumbnail g inst i)
        /\ (g i (thumbnail_prompt inst) = Throws -> thumbnails !! i = Some ""))
  /\ (forall g' i,
        (forall j prompt, j <> i -> g' j prompt = g j prompt) ->
        forall j, j <> i ->
          generateInstructionThumbnails g' instructions !! j = thumbnails !! j)
  /\ (forall now w k selected,
        instructions = Recipe.instructions selected ->
        pending w !! k = Some (AwaitInstructionThumbnails selected) ->
        let w' := step now (Settle k (InstructionThumbnails (Fulfilled g))) w in
        let updated := Recipe.with_instructionThumbnails thumbnails selected in
        selectedRecipe (app w') = Some updated
        /\ recipes (app w') = replace_recipe updated (recipes (app w))
        /\ Recipe.instructions updated = instructions
        /\ Recipe.instructionThumbnails updated = Some thumbnails
        /\ length thumbnails = length (Recipe.instructions updated)
        /\ alerts w' = alerts w).
Proof.
  intros thumbnails. subst thumbnails.
  split; [apply generateInstructionThumbnails_length|].
  split; [|split].
  - intros i inst Hi. rewrite generateInstructionThumbnails_lookup, Hi. simpl.
    split; [done|]. intros Hthrow. unfold instruction_thumbnail. by rewrite Hthrow.
  - intros g' i Hagree j Hj. rewrite !generateInstructionThumbnails_lookup.
    destruct (instructions !! j) as [inst|]; [simpl|done].
    unfold instruction_thumbnail. by rewrite Hagree.
  - intros now w k selected -> Hk. simpl. unfold settle. rewrite Hk. simpl.
    repeat split; try done. apply generateInstructionThumbnails_length.
Qed.

Lemma thumbnails_one_per_instruction_witness :
  let g := thumbnails_failing_at 1 "IMG" in
  let instructions := ["a"; "b"; "c"] in
  let w :=
    run [(1%N, ClickRecipe 0); (2%N, ClickVisualizeSteps)] (initialWorld 0) in
  let w' :=
    step 3 (Settle 0 (InstructionThumbnails (Fulfilled g))) w in
  generateInstructionThumbnails g instructions =
    ["data:image/png;base64,IMG"; ""; "data:image/png;base64,IMG"]
  /\ generateInstructionThumbnails g instructions !! 1%nat = Some ""
  /\ (exists updated thumbnails,
        selectedRecipe (app w') = Some updated
        /\ recipes (app w') !! 0%nat = Some updated
        /\ Recipe.instructionThumbnails updated = Some thumbnails
        /\ length thumbnails = length (Recipe.instructions updated)).
Proof.
  intros g instructions w w'.
  destruct (thumbnails_one_per_instruction g instructions) as (_ & Hat & _).
  destruct (Hat 1%nat "b") as [_ Hempty]; [reflexivity|].
  destruct (thumbnails_one_per_instruction g
              (Recipe.instructions (recipe_rec_1 0))) as (_ & _ & _ & Hsettle).
  destruct (Hsettle 3%N w 0%nat (recipe_rec_1 0))
    as (Hsel & Hrec & _ & Hth & Hlen & _); [reflexivity | reflexivity |].
  split; [reflexivity|]. split; [apply Hempty; reflexivity|].
  eexists; eexists. split; [exact Hsel|].
  split; [unfold w'; rewrite Hrec; reflexivity|].
  split; [exact Hth|exact Hlen].
Defined.

(** What the continuation of a successful video generation writes.  The
    pending request holds [selected], the selected recipe of the click.  The
    recipe written is [selected] with the video reference: it becomes the
    selected recipe, whatever recipe was selected before, and replaces every
    collection entry with its id, so both hold the same reference; it
    differs from [selected] in [videoUrl] only; every collection entry with
    another id, the roster, the active profile and the draft are
    unchanged. *)
Theorem video_written_through (now : N) (w : World) (k : nat)
    (selected : Recipe.t) (r : VideoRun) (videoUrl : string) :
  pending w !! k = Some (AwaitVideoForActiveRecipe selected) ->
  generateRecipeVideo r = Some (Fulfilled videoUrl) ->
  let w' := step now (Settle k (RecipeVideo r)) w in
  let updated := Recipe.with_videoUrl videoUrl selected in
  selectedRecipe (app w') = Some updated
  /\ Recipe.videoUrl updated = Some videoUrl
  /\ same_but_videoUrl selected updated
  /\ length (recipes (app w')) = length (recipes (app w))
  /\ (forall i entry, recipes (app w) !! i = Some entry ->
        (Recipe.id entry = Recipe.id selected ->
         recipes (app w') !! i = Some updated)
        /\ (Recipe.id entry <> Recipe.id selected ->
            recipes (app w') !! i = Some entry))
  /\ users (app w') = users (app w)
  /\ currentUser (app w') = currentUser (app w)
  /\ draftRecipe (app w') = draftRecipe (app w)
  /\ alerts w' = alerts w
  /\ pending w' = delete k (pending w).
Proof.
  intros Hk Hr w' updated. subst w'. simpl. unfold settle. rewrite Hk. simpl.
  rewrite Hr. simpl. fold updated.
  split; [done|]. split; [done|]. split; [apply with_videoUrl_same|].
  split; [apply length_map|]. split; [|done].
  intros i entry Hi. rewrite replace_recipe_lookup, Hi. simpl.
  destruct (String.eqb_spec (Recipe.id entry) (Recipe.id selected)); split; done.
Qed.

Lemma video_written_through_witness :
  let w :=
    run [(1%N, ClickRecipe 1); (2%N, ClickGenerateVideoForRecipe true)]
        (initialWorld 0) in
  let r :=
    VideoSubmitted notDone
      [notDone; notDone; notDone; {| done := true; uri := Some "https://v/1" |}]
      "blob:video-1" in
  let w' := step 9 (Settle 0 (RecipeVideo r)) w in
  selectedRecipe (app w') =
    Some (Recipe.with_videoUrl "blob:video-1" (recipe_rec_2 0))
  /\ recipes (app w') !! 1%nat =
     Some (Recipe.with_videoUrl "blob:video-1" (recipe_rec_2 0))
  /\ recipes (app w') !! 0%nat = Some (recipe_rec_1 0).
Proof.
  intros w r w'.
  destruct (video_written_through 9 w 0 (recipe_rec_2 0) r "blob:video-1")
    as (Hsel & _ & _ & _ & Hentries & _); [reflexivity | reflexivity |].
  split; [exact Hsel|]. split.
  - apply (Hentries 1%nat (recipe_rec_2 0)); reflexivity.
  - apply (Hentries 0%nat (recipe_rec_1 0)); [reflexivity | discriminate].
Defined.

End Enrichment.

(** ** The draft: generation, hero image, commit *)

Section Draft.

Lemma rec_id_inj (t1 t2 : N) :
  "rec-" +:+ pretty t1 = "rec-" +:+ pretty t2 -> t1 = t2.
Proof. simpl. intros E. injection E as E. by apply (inj pretty). Qed.

(** C7.  When the transcribe-and-structure call is rejected, the
    continuation of [handleGenerateRecipe], run in any state, changes
    nothing but the busy flag: the creation step stays what it was
    (Capturing), no draft is created, the recipe collection is unchanged,
    and one alert tells the user to try again.  In particular a recording
    followed by the rejection leaves the state of before the recording. *)
Theorem generation_failure_keeps_state (t0 t1 t2 : N) (w : World) :
  let message := "Susu didn't quite catch that. Try again!" in
  (forall capturedImage currentUser,
     let w' :=
       handleGenerateRecipe_settled capturedImage currentUser Rejected t2 w in
     creationStep (app w') = creationStep (app w)
     /\ draftRecipe (app w') = draftRecipe (app w)
     /\ recipes (app w') = recipes (app w)
     /\ app w' = setIsGenerating false (app w)
     /\ alerts w' = (alerts w ++ [message])%list
     /\ pending w' = pending w)
  /\ (let w' :=
        run [(t0, StartRecording true);
             (t1, RecordingComplete (length (pending w)));
             (t2, Settle (length (pending w)) (RecipeFromMedia Rejected))] w in
      creationStep (app w') = creationStep (app w)
      /\ draftRecipe (app w') = draftRecipe (app w)
      /\ recipes (app w') = recipes (app w)
      /\ app w' = setIsGenerating false (app w)
      /\ alerts w' = (alerts w ++ [message])%list
      /\ pending w' = pending w).
Proof.
  intros message. split.
  - intros capturedImage currentUser. simpl. repeat split.
  - simpl. unfold stopRecording. simpl.
    rewrite list_lookup_middle by done. simpl.
    rewrite delete_middle, app_nil_r.
    unfold settle. simpl.
    rewrite list_lookup_middle by done. simpl.
    rewrite delete_middle, app_nil_r. repeat split.
Qed.

(** C4 (amended).  When the fire-and-forget image request settles and there
    is no draft (it was discarded and none was made since), the state is
    unchanged; a rejected request changes nothing either.  Whatever the
    outcome, the recipe collection, the selected recipe, the roster and the
    active profile, the creation step, the view and the alerts are
    unchanged.  The guard is the emptiness of the draft slot at the arrival:
    when a draft is there, the image becomes its [imageUrl].  Discard and
    cancel empty the slot. *)
Theorem stale_image_guard (now : N) (w : World) (k : nat)
    (title description : string) (g : string -> ContentResult) :
  pending w !! k = Some (AwaitRecipeImage title description) ->
  let w' := step now (Settle k (RecipeImage g)) w in
  (draftRecipe (app w) = None -> app w' = app w)
  /\ (generateRecipeImage g title description = None -> app w' = app w)
  /\ (forall draft url,
        draftRecipe (app w) = Some draft ->
        generateRecipeImage g title description = Some url ->
        draftRecipe (app w') = Some (Recipe.with_imageUrl url draft))
  /\ recipes (app w') = recipes (app w)
  /\ selectedRecipe (app w') = selectedRecipe (app w)
  /\ users (app w') = users (app w)
  /\ currentUser (app w') = currentUser (app w)
  /\ creationStep (app w') = creationStep (app w)
  /\ view (app w') = view (app w)
  /\ alerts w' = alerts w
  /\ pending w' = delete k (pending w)
  /\ draftRecipe (app (step now ClickDiscard w)) = None
  /\ draftRecipe (app (step now ClickCancel w)) = None.
Proof.
  intros Hk w'. subst w'. simpl. unfold settle. rewrite Hk. simpl.
  unfold recipeImage_settled.
  destruct (generateRecipeImage g title description) as [url|]; simpl.
  - split.
    { intros E. destruct (app w); simpl in *. by subst. }
    split; [discriminate|]. split; [|done].
    by intros draft url' -> [= ->].
  - repeat split; done.
Qed.

Lemma stale_image_guard_witness :
  let w :=
    run [(1%N, ClickCreate); (2%N, StartRecording true);
         (3%N, RecordingComplete 0);
         (4%N, Settle 0 (RecipeFromMedia (Fulfilled soup)));
         (5%N, ClickDiscard)] (initialWorld 0) in
  let g := image_only_for (image_prompt "Soup" "Warm") "SOUP" in
  pending w = [AwaitRecipeImage "Soup" "Warm"]
  /\ draftRecipe (app w) = None
  /\ app (step 6 (Settle 0 (RecipeImage g)) w) = app w.
Proof.
  intros w g.
  destruct (stale_image_guard 6 w 0 "Soup" "Warm" g) as (Hnone & _);
    [reflexivity|].
  split; [reflexivity|]. split; [reflexivity|]. apply Hnone. reflexivity.
Defined.

(** C4, counterexample.  The image requested for the draft "Soup" is still
    pending when that draft is discarded and a second draft, "Salad", is
    generated; when the image arrives it is attached to the second draft. *)
Lemma image_attached_to_later_draft :
  let w :=
    run [(1%N, ClickCreate); (2%N, StartRecording true);
         (3%N, RecordingComplete 0);
         (4%N, Settle 0 (RecipeFromMedia (Fulfilled soup)));
         (5%N, ClickDiscard);
         (6%N, StartRecording true); (7%N, RecordingComplete 1);
         (8%N, Settle 1 (RecipeFromMedia (Fulfilled salad)))] (initialWorld 0) in
  let g := image_only_for (image_prompt "Soup" "Warm") "SOUP" in
  let w' := step 9 (Settle 0 (RecipeImage g)) w in
  pending w = [AwaitRecipeImage "Soup" "Warm"; AwaitRecipeImage "Salad" "Fresh"]
  /\ (exists draft,
        draftRecipe (app w) = Some draft
        /\ Recipe.id draft = "rec-8" /\ Recipe.title draft = "Salad"
        /\ Recipe.imageUrl draft = None)
  /\ (exists draft',
        draftRecipe (app w') = Some draft'
        /\ Recipe.id draft' = "rec-8" /\ Recipe.title draft' = "Salad"
        /\ Recipe.imageUrl draft' = Some "data:image/png;base64,SOUP")
  /\ pending w' = [AwaitRecipeImage "Salad" "Fresh"].
Proof.
  split; [vm_compute; reflexivity|]. split; [|split; [|vm_compute; reflexivity]].
  - exists (newRecipe salad 8 None susu).
    repeat split; vm_compute; reflexivity.
  - exists (Recipe.with_imageUrl "data:image/png;base64,SOUP"
              (newRecipe salad 8 None susu)).
    repeat split; vm_compute; reflexivity.
Qed.

End Draft.

(** ** The serving scale and the shopping list *)

Section ServingScale.
Local Open Scope Q_scope.

Definition is_scale_step (e : Event) : bool :=
  match e with
  | ClickServingsMinus | ClickServingsPlus => true
  | _ => false
  end.

(** The multiplier is [k] halves. *)
Definition halves (m : Q) (k : positive) : Prop := m == Z.pos k # 2.

Lemma halves_plus m k : halves m k -> halves (m + (1 # 2)) (k + 1).
Proof. unfold halves. intros ->. unfold Qeq, Qplus. simpl. lia. Qed.

Lemma halves_minus m k :
  halves m k -> halves (Math_max (1 # 2) (m - (1 # 2))) (Pos.pred k).
Proof.
  unfold halves, Math_max. intros H.
  destruct (Qle_bool (1 # 2) (m - (1 # 2))) eqn:E.
  - apply Qle_bool_iff in E. rewrite H in *. clear H.
    unfold Qle, Qeq, Qminus, Qplus, Qopp in *. simpl in *. lia.
  - assert (E' : ~ (1 # 2) <= m - (1 # 2)).
    { rewrite <- Qle_bool_iff. congruence. }
    rewrite H in E'. clear H E.
    unfold Qle, Qeq, Qminus, Qplus, Qopp in *. simpl in *. lia.
Qed.

Lemma halves_floor m k : halves m k -> Qfloor (m * 2) = Z.pos k.
Proof.
  unfold halves. intros H.
  assert (E : m * 2 == inject_Z (Z.pos k)).
  { rewrite H. unfold Qeq, Qmult, inject_Z. simpl. lia. }
  rewrite (Qfloor_comp _ _ E). apply Qfloor_Z.
Qed.

Lemma halves_Number_toString m k :
  halves m k ->
  Number_toString m =
  if (Z.pos k mod 2 =? 0)%Z then pretty (Z.pos k / 2)%Z
  else pretty (Z.pos k / 2)%Z +:+ ".5".
Proof. intros H. unfold Number_toString. by rewrite (halves_floor m k H). Qed.

Lemma num_neq_spec x y : num_neq x y = true <-> ~ x == y.
Proof.
  unfold num_neq. rewrite negb_true_iff, <- Qeq_bool_iff.
  destruct (Qeq_bool x y); split; congruence.
Qed.

Lemma num_gt_spec x y : num_gt x y = true <-> y < x.
Proof.
  unfold num_gt. rewrite negb_true_iff. split.
  - intros E. apply Qnot_le_lt. intros H. apply Qle_bool_iff in H. congruence.
  - intros H. destruct (Qle_bool x y) eqn:E; [|done].
    apply Qle_bool_iff in E. exfalso. by apply (Qlt_not_le y x).
Qed.

(** [toFixed(2)] on a non-negative number rounds half up to hundredths. *)
Lemma toFixed2_digits_bounds x :
  0 <= x ->
  let n := toFixed2_digits x in
  inject_Z n - (1 # 2) <= x * 100 /\ x * 100 < inject_Z n + (1 # 2).
Proof.
  intros Hx n. subst n. unfold toFixed2_digits.
  rewrite (Qfloor_comp (Qabs x * 100 + (1 # 2)) (x * 100 + (1 # 2)))
    by (by rewrite (Qabs_pos x Hx)).
  pose proof (Qfloor_le (x * 100 + (1 # 2))) as H1.
  pose proof (Qlt_floor (x * 100 + (1 # 2))) as H2.
  rewrite inject_Z_plus in H2. change (inject_Z 1) with 1 in H2.
  split; lra.
Qed.

(** The digits are the hundredths nearest to the number, and the larger of
    the two on a tie (the integer [n] of [Number.prototype.toFixed]). *)
Lemma toFixed2_digits_nearest x (j : Z) :
  0 <= x ->
  let n := toFixed2_digits x in
  Qabs (inject_Z n / 100 - x) <= Qabs (inject_Z j / 100 - x)
  /\ (Qabs (inject_Z j / 100 - x) == Qabs (inject_Z n / 100 - x) -> (j <= n)%Z).
Proof.
  intros Hx n. destruct (toFixed2_digits_bounds x Hx) as [H1 H2]. fold n in H1, H2.
  assert (Hj : (j <= n - 1)%Z \/ j = n \/ (n + 1 <= j)%Z) by lia.
  set (a := inject_Z n / 100 - x). set (b := inject_Z j / 100 - x).
  assert (Ea : a * 100 == inject_Z n - x * 100) by (unfold a; field).
  assert (Eb : b * 100 == inject_Z j - x * 100) by (unfold b; field).
  assert (Ha : Qabs a <= 1 # 200) by (apply Qabs_Qle_condition; split; lra).
  destruct Hj as [Hj|[Hj|Hj]].
  - unfold Z.sub in Hj. rewrite Zle_Qle, inject_Z_plus, inject_Z_opp in Hj.
    change (inject_Z 1) with 1 in Hj.
    split; [|intros _; rewrite Zle_Qle; lra].
    pose proof (Qle_Qabs (- b)) as Hb. rewrite Qabs_opp in Hb. lra.
  - split; [|lia]. unfold a, b. rewrite Hj. apply Qle_refl.
  - rewrite Zle_Qle, inject_Z_plus in Hj. change (inject_Z 1) with 1 in Hj.
    pose proof (Qle_Qabs b) as Hb.
    split; [lra|]. intros E. rewrite E in Hb. lra.
Qed.

Lemma scale_step now e w k :
  is_scale_step e = true ->
  halves (servingsMultiplier (app w)) k ->
  (exists k', halves (servingsMultiplier (app (step now e w))) k')
  /\ selectedRecipe (app (step now e w)) = selectedRecipe (app w)
  /\ recipes (app (step now e w)) = recipes (app w).
Proof.
  intros He Hk. destruct e; try discriminate He; simpl.
  - split; [|done]. eexists. by apply halves_minus.
  - split; [|done]. eexists. by apply halves_plus.
Qed.

Lemma scale_run es : forall w k,
  Forall (fun e => is_scale_step (snd e) = true) es ->
  halves (servingsMultiplier (app w)) k ->
  (exists k', halves (servingsMultiplier (app (run es w))) k')
  /\ selectedRecipe (app (run es w)) = selectedRecipe (app w)
  /\ recipes (app (run es w)) = recipes (app w).
Proof.
  induction es as [|[now e] es IH]; intros w k Hes Hk; [eauto|].
  apply Forall_cons in Hes as [He Hes]. simpl in He.
  destruct (scale_step now e w k He Hk) as ((k' & Hk') & Hsel & Hrec).
  destruct (IH (step now e w) k' Hes Hk') as (H1 & H2 & H3).
  change (run ((now, e) :: es) w) with (run es (step now e w)).
  split; [done|]. split; congruence.
Qed.

(** The rounding of a product to the nearest double. *)
Lemma round_half_even_bound (z : Q) :
  Qabs (inject_Z (round_half_even z) - z) <= 1 # 2.
Proof.
  unfold round_half_even.
  pose proof (Qfloor_le z) as H1. pose proof (Qlt_floor z) as H2.
  rewrite inject_Z_plus in H2. change (inject_Z 1) with 1 in H2.
  destruct (Qcompare_spec (z - inject_Z (Qfloor z)) (1 # 2)) as [E|E|E].
  - destruct (Z.even (Qfloor z)).
    + apply Qabs_Qle_condition. split; lra.
    + rewrite inject_Z_plus. change (inject_Z 1) with 1.
      apply Qabs_Qle_condition. split; lra.
  - apply Qabs_Qle_condition. split; lra.
  - rewrite inject_Z_plus. change (inject_Z 1) with 1.
    apply Qabs_Qle_condition. split; lra.
Qed.

Lemma Qpower2_pos (e : Z) : 0 < Qpower 2 e.
Proof. apply Qpower_0_lt. reflexivity. Qed.

Lemma Qpower2_plus (a b : Z) : Qpower 2 (a + b) == Qpower 2 a * Qpower 2 b.
Proof. apply Qpower_plus. discriminate. Qed.

Lemma Qpower2_Z (a : Z) : (0 <= a)%Z -> Qpower 2 a == inject_Z (2 ^ a).
Proof.
  intros Ha. rewrite Zpower_Qpower by done. reflexivity.
Qed.

Lemma Qlog2_spec (x : Q) :
  0 < x -> Qpower 2 (Qlog2 x) <= x /\ x < Qpower 2 (Qlog2 x + 1).
Proof.
  intros Hx. destruct x as [n d]. unfold Qlog2. cbn [Qnum Qden].
  assert (Hn : (0 < n)%Z) by (unfold Qlt in Hx; simpl in Hx; lia).
  set (a := Z.log2 n). set (b := Z.log2 (Z.pos d)).
  assert (Ha : (0 <= a)%Z) by apply Z.log2_nonneg.
  assert (Hb : (0 <= b)%Z) by apply Z.log2_nonneg.
  destruct (Z.log2_spec n Hn) as [Ha1 Ha2]. fold a in Ha1, Ha2.
  destruct (Z.log2_spec (Z.pos d) eq_refl) as [Hb1 Hb2]. fold b in Hb1, Hb2.
  assert (En : n # d == inject_Z n / inject_Z (Z.pos d)) by apply Qmake_Qdiv.
  assert (Hd : 0 < inject_Z (Z.pos d)) by (rewrite <- (Zlt_Qlt 0); lia).
  assert (Qa1 : Qpower 2 a <= inject_Z n) by (rewrite Qpower2_Z, <- Zle_Qle; lia).
  assert (Qa2 : inject_Z n < Qpower 2 (a + 1)).
  { rewrite Qpower2_Z, <- Zlt_Qlt by lia. replace (a + 1)%Z with (Z.succ a) by lia. done. }
  assert (Qb1 : Qpower 2 b <= inject_Z (Z.pos d)) by (rewrite Qpower2_Z, <- Zle_Qle; lia).
  assert (Qb2 : inject_Z (Z.pos d) < Qpower 2 (b + 1)).
  { rewrite Qpower2_Z, <- Zlt_Qlt by lia. replace (b + 1)%Z with (Z.succ b) by lia. done. }
  (* x * D = N *)
  assert (Ex : (n # d) * inject_Z (Z.pos d) == inject_Z n).
  { rewrite En. field. lra. }
  pose proof (Qpower2_pos a). pose proof (Qpower2_pos b).
  pose proof (Qpower2_pos (a - b)). pose proof (Qpower2_pos (a - b - 1)).
  assert (E1 : Qpower 2 (a - b) * Qpower 2 b == Qpower 2 a).
  { rewrite <- Qpower2_plus. by replace (a - b + b)%Z with a by lia. }
  assert (E2 : Qpower 2 (a - b - 1) * Qpower 2 (b + 1) == Qpower 2 a).
  { rewrite <- Qpower2_plus. by replace (a - b - 1 + (b + 1))%Z with a by lia. }
  assert (E3 : Qpower 2 (a - b + 1) * Qpower 2 b == Qpower 2 (a + 1)).
  { rewrite <- Qpower2_plus. by replace (a - b + 1 + b)%Z with (a + 1)%Z by lia. }
  assert (E4 : Qpower 2 (a - b - 1 + 1) == Qpower 2 (a - b)).
  { by replace (a - b - 1 + 1)%Z with (a - b)%Z by lia. }
  destruct (Qle_bool (Qpower 2 (a - b)) (n # d)) eqn:T.
  - apply Qle_bool_iff in T. split; [done|].
    (* x < 2^(a-b+1): x*D = N < 2^(a+1) = 2^(a-b+1) * 2^b <= 2^(a-b+1) * D *)
    apply Qnot_le_lt. intros C.
    pose proof (Qpower2_pos (a - b + 1)).
    assert (Qpower 2 (a - b + 1) * Qpower 2 b <= (n # d) * inject_Z (Z.pos d)).
    { apply Qmult_le_compat_nonneg; split; lra. }
    lra.
  - assert (T' : (n # d) < Qpower 2 (a - b)).
    { apply Qnot_le_lt. intros C. apply Qle_bool_iff in C. congruence. }
    split; [|by rewrite E4].
    (* 2^(a-b-1) <= x: 2^(a-b-1) * D < 2^(a-b-1) * 2^(b+1) = 2^a <= N = x * D *)
    apply Qnot_lt_le. intros C.
    assert (Qpower 2 (a - b - 1) * inject_Z (Z.pos d)
            < Qpower 2 (a - b - 1) * Qpower 2 (b + 1)).
    { by apply Qmult_lt_l. }
    assert ((n # d) * inject_Z (Z.pos d)
            < Qpower 2 (a - b - 1) * inject_Z (Z.pos d)).
    { by apply Qmult_lt_r. }
    lra.
Qed.

Lemma Qabs_of_pos (x : Q) : 0 < x -> Qabs x = x.
Proof.
  destruct x as [n d]. unfold Qlt. simpl. intros H. unfold Qabs.
  f_equal. lia.
Qed.

Lemma Qpower2_le (a b : Z) : (a <= b)%Z -> Qpower 2 a <= Qpower 2 b.
Proof.
  intros H. replace b with (a + (b - a))%Z by lia. rewrite Qpower2_plus.
  pose proof (Qpower2_pos a).
  assert (1 <= Qpower 2 (b - a)).
  { apply Qpower_1_le; [lra|lia]. }
  rewrite <- (Qmult_1_r (Qpower 2 a)) at 1.
  apply Qmult_le_compat_nonneg; split; lra.
Qed.

(** The double nearest to a positive [x]: a significand [n] of at most 53
    bits at the exponent [e] of the binade of [x] (or the smallest
    exponent), [n] being within one half of [x / 2^e]. *)
Lemma round_binary64_pos (x : Q) :
  0 < x ->
  let e := Z.max (Qlog2 x - 52) (-1074) in
  exists n : Z,
    round_binary64 x == inject_Z n * Qpower 2 e
    /\ (0 <= n <= 2 ^ 53)%Z
    /\ Qabs (inject_Z n - x / Qpower 2 e) <= 1 # 2.
Proof.
  intros Hx e. unfold round_binary64.
  assert (Qeq_bool x 0 = false) as ->.
  { destruct (Qeq_bool x 0) eqn:E; [|done]. apply Qeq_bool_iff in E. lra. }
  assert (Qle_bool 0 x = true) as -> by (apply Qle_bool_iff; lra).
  rewrite (Qabs_of_pos x Hx). fold e.
  set (z := x / Qpower 2 e).
  exists (round_half_even z). split.
  { ring. }
  pose proof (round_half_even_bound z) as Hb. split; [|exact Hb].
  pose proof (Qpower2_pos e) as He.
  destruct (Qlog2_spec x Hx) as [_ Hup].
  assert (Hz0 : 0 < z).
  { unfold z. apply Qlt_shift_div_l; [done|]. lra. }
  assert (Hz1 : z < inject_Z (2 ^ 53)).
  { unfold z. apply Qlt_shift_div_r; [done|].
    rewrite <- Qpower2_Z by lia. rewrite <- Qpower2_plus.
    eapply Qlt_le_trans; [exact Hup|]. apply Qpower2_le. lia. }
  apply Qabs_Qle_condition in Hb as [Hb1 Hb2].
  split.
  - assert (H : inject_Z (-1) < inject_Z (round_half_even z)).
    { change (inject_Z (-1)) with (-1). lra. }
    rewrite <- Zlt_Qlt in H. lia.
  - assert (H : inject_Z (round_half_even z) < inject_Z (2 ^ 53 + 1)).
    { rewrite inject_Z_plus. change (inject_Z 1) with 1. lra. }
    rewrite <- Zlt_Qlt in H. lia.
Qed.

Lemma round_binary64_0 (x : Q) : x == 0 -> round_binary64 x = 0.
Proof.
  intros E. unfold round_binary64.
  by rewrite (proj2 (Qeq_bool_iff x 0) E).
Qed.

(** The rounding of a non-negative number: not negative, and, from the
    smallest normal number 2^-1022 on, within the relative error 2^-53. *)
Lemma round_binary64_error (x : Q) :
  0 <= x ->
  0 <= round_binary64 x
  /\ (Qpower 2 (-1022) <= x ->
      Qabs (round_binary64 x - x) <= x * Qpower 2 (-53)).
Proof.
  intros Hx0.
  destruct (Qlt_le_dec 0 x) as [Hx|Hx].
  2:{ assert (E : x == 0) by lra. rewrite (round_binary64_0 x E). split; [lra|].
      intros H. pose proof (Qpower2_pos (-1022)). lra. }
  destruct (round_binary64_pos x Hx) as (n & En & [Hn0 Hn1] & Hb).
  set (e := Z.max (Qlog2 x - 52) (-1074)) in *. rewrite En.
  pose proof (Qpower2_pos e) as He.
  split.
  { apply Qmult_le_0_compat; [|lra]. rewrite <- (Zle_Qle 0). lia. }
  intros Hnormal.
  destruct (Qlog2_spec x Hx) as [Hlow Hup].
  assert (Hk : (-1022 <= Qlog2 x)%Z).
  { destruct (Z_lt_le_dec (Qlog2 x) (-1022)) as [C|C]; [|done]. exfalso.
    assert (Qpower 2 (Qlog2 x + 1) <= Qpower 2 (-1022)) by (apply Qpower2_le; lia).
    lra. }
  assert (Ee : e = (Qlog2 x - 52)%Z) by (unfold e; lia).
  (* |n 2^e - x| = |n - x/2^e| 2^e <= 2^e / 2 *)
  assert (E1 : inject_Z n * Qpower 2 e - x
               == (inject_Z n - x / Qpower 2 e) * Qpower 2 e).
  { field. lra. }
  rewrite E1, Qabs_Qmult, (Qabs_pos (Qpower 2 e)) by lra.
  assert (E2 : Qpower 2 (Qlog2 x) * Qpower 2 (-53) == (1 # 2) * Qpower 2 e).
  { rewrite <- Qpower2_plus, Ee.
    replace (Qlog2 x + -53)%Z with (-1 + (Qlog2 x - 52))%Z by lia.
    rewrite Qpower2_plus. reflexivity. }
  pose proof (Qpower2_pos (-53)) as H53.
  assert ((1 # 2) * Qpower 2 e <= x * Qpower 2 (-53)).
  { rewrite <- E2. apply Qmult_le_compat_r; lra. }
  assert (Qabs (inject_Z n - x / Qpower 2 e) * Qpower 2 e <= (1 # 2) * Qpower 2 e).
  { apply Qmult_le_compat_r; lra. }
  lra.
Qed.

(** The integer within one half of [z] is at least as near to [z] as any
    other integer. *)
Lemma nearest_integer (n j : Z) (z : Q) :
  Qabs (inject_Z n - z) <= 1 # 2 ->
  Qabs (inject_Z n - z) <= Qabs (inject_Z j - z).
Proof.
  intros Hn. destruct (Z.eq_dec j n) as [->|Hne]; [lra|].
  apply Qabs_Qle_condition in Hn as [Hn1 Hn2].
  destruct (Z_lt_le_dec j n) as [Hj|Hj].
  - assert (H : inject_Z j + 1 <= inject_Z n).
    { change 1 with (inject_Z 1). rewrite <- inject_Z_plus, <- Zle_Qle. lia. }
    rewrite (Qabs_neg (inject_Z j - z)) by lra.
    apply Qabs_Qle_condition. split; lra.
  - assert (H : inject_Z n + 1 <= inject_Z j).
    { change 1 with (inject_Z 1). rewrite <- inject_Z_plus, <- Zle_Qle. lia. }
    rewrite (Qabs_pos (inject_Z j - z)) by lra.
    apply Qabs_Qle_condition. split; lra.
Qed.

Lemma round_binary64_binary64 (x : Q) : 0 <= x -> binary64 (round_binary64 x).
Proof.
  intros Hx0. destruct (Qlt_le_dec 0 x) as [Hx|Hx].
  2:{ assert (E : x == 0) by lra. rewrite (round_binary64_0 x E).
      exists 0%Z, 0%Z. split; [done|]. split; [lia|]. reflexivity. }
  destruct (round_binary64_pos x Hx) as (n & En & [Hn0 Hn1] & _).
  set (e := Z.max (Qlog2 x - 52) (-1074)) in *.
  destruct (Z.eq_dec n (2 ^ 53)%Z) as [->|Hne].
  - exists (2 ^ 52)%Z, (e + 1)%Z. split; [done|]. split; [lia|].
    rewrite En, Qpower2_plus. change (Qpower 2 1) with 2.
    assert (E : inject_Z (2 ^ 53) == inject_Z (2 ^ 52) * 2) by reflexivity.
    rewrite E. ring.
  - exists n, e. split; [lia|]. split; [lia|]. exact En.
Qed.

(** No double is nearer to a non-negative [x] than [round_binary64 x]. *)
Lemma round_binary64_nearest (x y : Q) :
  0 <= x -> binary64 y -> Qabs (round_binary64 x - x) <= Qabs (y - x).
Proof.
  intros Hx0 (k & e' & Hk & He' & Ey).
  destruct (Qlt_le_dec 0 x) as [Hx|Hx].
  2:{ assert (E : x == 0) by lra. rewrite (round_binary64_0 x E), E.
      apply Qabs_nonneg. }
  destruct (round_binary64_pos x Hx) as (n & En & [Hn0 Hn1] & Hb).
  set (e := Z.max (Qlog2 x - 52) (-1074)) in *.
  pose proof (Qpower2_pos e) as He.
  set (z := x / Qpower 2 e) in *.
  assert (Ex : x == z * Qpower 2 e) by (unfold z; field; lra).
  assert (E1 : round_binary64 x - x == (inject_Z n - z) * Qpower 2 e).
  { rewrite En. rewrite Ex at 1. ring. }
  rewrite E1, Qabs_Qmult, (Qabs_pos (Qpower 2 e)) by lra.
  destruct (Z_le_gt_dec e e') as [Hee|Hee].
  - (* [y] is on the grid of step [2^e] *)
    assert (Ey' : y == inject_Z (k * 2 ^ (e' - e)) * Qpower 2 e).
    { rewrite Ey. replace e' with (e' - e + e)%Z at 1 by lia.
      rewrite Qpower2_plus, Qpower2_Z, inject_Z_mult by lia. ring. }
    assert (E2 : y - x == (inject_Z (k * 2 ^ (e' - e)) - z) * Qpower 2 e).
    { rewrite Ey'. rewrite Ex at 1. ring. }
    rewrite E2, Qabs_Qmult, (Qabs_pos (Qpower 2 e)) by lra.
    apply Qmult_le_compat_r; [|lra]. by apply nearest_integer.
  - (* [y] lies below the binade of [x] *)
    assert (Ee : e = (Qlog2 x - 52)%Z) by lia.
    destruct (Qlog2_spec x Hx) as [Hlow _].
    assert (Elow : Qpower 2 (Qlog2 x) == inject_Z (2 ^ 52) * Qpower 2 e).
    { replace (Qlog2 x) with (52 + e)%Z by lia.
      rewrite Qpower2_plus, Qpower2_Z by lia. reflexivity. }
    assert (Hz : inject_Z (2 ^ 52) <= z).
    { unfold z. apply Qle_shift_div_l; [done|]. by rewrite <- Elow. }
    pose proof (nearest_integer n (2 ^ 52) z Hb) as Hnear.
    rewrite (Qabs_neg (inject_Z (2 ^ 52) - z)) in Hnear by lra.
    pose proof (Qpower2_pos e') as He'0.
    assert (Hy : y < inject_Z (2 ^ 52) * Qpower 2 e).
    { rewrite Ey. apply Qlt_le_trans with (inject_Z (2 ^ 53) * Qpower 2 e').
      - apply Qmult_lt_r; [done|]. rewrite <- Zlt_Qlt. lia.
      - rewrite <- !Qpower2_Z, <- !Qpower2_plus by lia. apply Qpower2_le. lia. }
    assert (H1 : Qabs (inject_Z n - z) * Qpower 2 e
                 <= - (inject_Z (2 ^ 52) - z) * Qpower 2 e).
    { apply Qmult_le_compat_r; [exact Hnear|lra]. }
    assert (H2 : - (inject_Z (2 ^ 52) - z) * Qpower 2 e
                 == x - inject_Z (2 ^ 52) * Qpower 2 e).
    { rewrite Ex at 1. ring. }
    rewrite (Qabs_neg (y - x)) by lra. lra.
Qed.

(** The two decimals of [toFixed(2)] are the tens and the ones of the
    hundredths. *)
Lemma two_digits_spec (d : Z) :
  (0 <= d < 100)%Z -> two_digits d = pretty (d / 10)%Z +:+ pretty (d mod 10)%Z.
Proof.
  intros Hd.
  assert (H : forallb (fun k => String.eqb (two_digits (Z.of_nat k))
                                 (pretty (Z.of_nat k / 10)%Z
                                    +:+ pretty (Z.of_nat k mod 10)%Z))
                (seq 0 100) = true) by (vm_compute; reflexivity).
  rewrite forallb_forall in H.
  specialize (H (Z.to_nat d)). rewrite Z2Nat.id in H by lia.
  apply String.eqb_eq, H, in_seq. lia.
Qed.

(** An ingredient that costs one cent: [estimatedCost: 0.01]. *)
Definition saffron : Ingredient.t :=
  seed_ingredient "ing-7" "Saffron" "1 thread" (Number_literal (1 # 100)) "Pantry".

(** An ingredient that costs 35 cents: [estimatedCost: 0.35]. *)
Definition stock_cube : Ingredient.t :=
  seed_ingredient "ing-8" "Stock cube" "1" (Number_literal (35 # 100)) "Pantry".

(** C8 (amended).  After a recipe is opened (multiplier 1) and the scale is
    stepped any number of times by the [+] and [-] buttons, the multiplier is
    a positive number of halves, printed as such; the selected recipe and the
    collection, with the amount texts and costs they store, are unchanged.
    For every ingredient of non-negative cost [c] the row shows the stored
    amount text and item, no annotation when the multiplier is 1 and the
    annotation [(x m)] otherwise, and as cost the hundredths [n] nearest to
    the double product [x] of [c] and [m] (the larger [n] on a tie), printed
    with two decimals (for [x] below 1e21, from where [toFixed] prints an
    exponent).  The double product is not negative; it is a double, and no
    double is nearer to the exact product [c * m]; from the smallest normal
    double on it is within the relative error 2^-53 of [c * m]. *)
Theorem serving_scale_display (w : World) (recipe : Recipe.t)
    (es : list (N * Event)) :
  Forall (fun e => is_scale_step (snd e) = true) es ->
  let opened := on_app (openRecipe recipe) w in
  let w' := run es opened in
  let m := servingsMultiplier (app w') in
  servingsMultiplier (app opened) = 1
  /\ (exists k : positive,
        m == Z.pos k # 2
        /\ Number_toString m =
           if (Z.pos k mod 2 =? 0)%Z then pretty (Z.pos k / 2)%Z
           else pretty (Z.pos k / 2)%Z +:+ ".5")
  /\ selectedRecipe (app w') = Some recipe
  /\ recipes (app w') = recipes (app w)
  /\ forall ing : Ingredient.t,
       let c := Ingredient.estimatedCost ing in
       0 <= c ->
       let row := renderIngredient m ing in
       let x := round_binary64 (c * m) in
       let n := toFixed2_digits x in
       row_amount row = Ingredient.amount ing
       /\ row_item row = Ingredient.item ing
       /\ (x < inject_Z (10 ^ 21) ->
           row_cost row =
           "$" +:+ pretty (n / 100)%Z +:+ "."
               +:+ pretty (n / 10 mod 10)%Z +:+ pretty (n mod 10)%Z)
       /\ (inject_Z n - (1 # 2) <= x * 100 /\ x * 100 < inject_Z n + (1 # 2))
       /\ (forall j : Z,
             Qabs (inject_Z n / 100 - x) <= Qabs (inject_Z j / 100 - x)
             /\ (Qabs (inject_Z j / 100 - x) == Qabs (inject_Z n / 100 - x) ->
                 (j <= n)%Z))
       /\ 0 <= x
       /\ binary64 x
       /\ (forall y, binary64 y -> Qabs (x - c * m) <= Qabs (y - c * m))
       /\ (Qpower 2 (-1022) <= c * m ->
           Qabs (x - c * m) <= c * m * Qpower 2 (-53))
       /\ (m == 1 -> row_scale row = None)
       /\ (~ m == 1 ->
           row_scale row = Some ("(x" +:+ Number_toString m +:+ ")")).
Proof.
  intros Hes opened w' m.
  destruct (scale_run es opened 2%positive Hes) as ((k & Hk) & Hsel & Hrec);
    [reflexivity|].
  fold w' in Hk, Hsel, Hrec. fold m in Hk.
  split; [reflexivity|]. split.
  { exists k. split; [exact Hk|]. by apply halves_Number_toString. }
  split; [exact Hsel|]. split; [exact Hrec|].
  intros ing c Hcost row x n.
  assert (Hm : 0 <= m).
  { red in Hk. rewrite Hk. unfold Qle. simpl. lia. }
  assert (Hcm : 0 <= c * m) by (by apply Qmult_le_0_compat).
  destruct (round_binary64_error (c * m) Hcm) as [Hx Herr]. fold x in Hx, Herr.
  split; [reflexivity|]. split; [reflexivity|]. split.
  { intros _. unfold row, renderIngredient, row_cost, toFixed2, Number_times.
    fold c. fold x. fold n.
    rewrite (proj2 (Qle_bool_iff 0 x) Hx).
    rewrite two_digits_spec by (apply Z.mod_pos_bound; lia).
    replace (n mod 100 / 10)%Z with (n / 10 mod 10)%Z
      by (Z.div_mod_to_equations; lia).
    replace (n mod 100 mod 10)%Z with (n mod 10)%Z
      by (Z.div_mod_to_equations; lia).
    reflexivity. }
  split; [by apply toFixed2_digits_bounds|].
  split; [intros j; by apply toFixed2_digits_nearest|].
  split; [exact Hx|].
  split; [by apply round_binary64_binary64|].
  split; [intros y Hy; by apply round_binary64_nearest|].
  split; [exact Herr|].
  unfold row, renderIngredient, row_scale. split.
  - intros E. destruct (num_neq m 1) eqn:F; [|done].
    apply num_neq_spec in F. contradiction.
  - intros E. by rewrite (proj2 (num_neq_spec m 1) E).
Qed.

Lemma serving_scale_display_witness :
  let w' := run [(2%N, ClickServingsPlus); (3%N, ClickServingsPlus);
                 (4%N, ClickServingsMinus); (5%N, ClickServingsPlus)]
                (on_app (openRecipe (recipe_rec_1 0)) (initialWorld 0)) in
  servingsMultiplier (app w') == 2
  /\ selectedRecipe (app w') = Some (recipe_rec_1 0)
  /\ renderIngredient (servingsMultiplier (app w')) garlic =
     {| row_amount := "5 cloves"; row_scale := Some "(x2)";
        row_item := "Garlic"; row_cost := "$1.00" |}
  /\ Number_times (inject_Z (2 ^ 52 + 1)) (3 # 2) == inject_Z 6755399441055746
  /\ Number_times (inject_Z (2 ^ 52 + 3)) (3 # 2) == inject_Z 6755399441055748.
Proof.
  intros w'.
  destruct (serving_scale_display (initialWorld 0) (recipe_rec_1 0)
              [(2%N, ClickServingsPlus); (3%N, ClickServingsPlus);
               (4%N, ClickServingsMinus); (5%N, ClickServingsPlus)])
    as (_ & _ & Hsel & _); [repeat constructor|].
  split; [reflexivity|]. split; [exact Hsel|].
  split; [vm_compute; reflexivity|]. split; vm_compute; reflexivity.
Defined.

(** C8, counterexample.  An ingredient that costs 0.01 at the multiplier
    1.5 (one click on [+]) is shown with the cost $0.01: the double product
    0.01 * 1.5 lies below 0.015.  The exact product of the cost and the
    multiplier, whether the cost is read as the decimal 0.01 or as the double
    that stands for it, rounds to two hundredths.  An ingredient that costs
    0.35 at the multiplier 0.5 (one click on [-]) is shown with the cost
    $0.17, and 0.35 * 0.5 = 0.175 rounds to 18 hundredths: the double that
    stands for 0.35 lies below it. *)
Lemma cost_rounds_the_double_product :
  let opened := on_app (openRecipe (recipe_rec_1 0)) (initialWorld 0) in
  let m := servingsMultiplier (app (run [(2%N, ClickServingsPlus)] opened)) in
  let h := servingsMultiplier (app (run [(2%N, ClickServingsMinus)] opened)) in
  let c := Ingredient.estimatedCost saffron in
  m == 3 # 2
  /\ row_cost (renderIngredient m saffron) = "$0.01"
  /\ toFixed2 (c * m) = "0.02"
  /\ toFixed2 ((1 # 100) * m) = "0.02"
  /\ ~ Number_times c m == c * m
  /\ h == 1 # 2
  /\ row_cost (renderIngredient h stock_cube) = "$0.17"
  /\ toFixed2 ((35 # 100) * h) = "0.18".
Proof.
  split; [reflexivity|]. split; [vm_compute; reflexivity|].
  split; [vm_compute; reflexivity|]. split; [vm_compute; reflexivity|].
  split; [vm_compute; discriminate|].
  split; [reflexivity|]. split; vm_compute; reflexivity.
Qed.

(** What [addToShoppingList] makes of an ingredient: a new id [shop-...],
    unchecked, the stored amount and cost, and the scale annotation exactly
    when the multiplier is above 1. *)
Lemma shopping_item_spec (m : Q) (now : N) (random : nat -> string)
    (ing : Ingredient.t) (idx : nat) :
  let item := shopping_item m now random ing idx in
  Ingredient.id item = "shop-" +:+ pretty now +:+ "-" +:+ random idx
  /\ Ingredient.checked item = false
  /\ Ingredient.amount item = Ingredient.amount ing
  /\ Ingredient.estimatedCost item = Ingredient.estimatedCost ing
  /\ (1 < m ->
      Ingredient.item item =
      Ingredient.item ing +:+ " (x" +:+ Number_toString m +:+ ")")
  /\ (m <= 1 -> Ingredient.item item = Ingredient.item ing +:+ " ").
Proof.
  intros item. repeat split; unfold item, shopping_item; simpl.
  - intros H. by rewrite (proj2 (num_gt_spec m 1) H).
  - intros H. destruct (num_gt m 1) eqn:E; [|done].
    apply num_gt_spec in E. exfalso. by apply (Qlt_not_le 1 m).
Qed.

(** The id of a shopping item is not the id of an ingredient whose id
    starts with [ing-], as the ids of the seed and of the generated
    ingredients do. *)
Lemma shopping_item_id_fresh (m : Q) (now : N) (random : nat -> string)
    (ing : Ingredient.t) (idx : nat) :
  String.prefix "ing-" (Ingredient.id ing) = true ->
  Ingredient.id (shopping_item m now random ing idx) <> Ingredient.id ing.
Proof.
  intros Hprefix E. rewrite <- E in Hprefix. discriminate Hprefix.
Qed.

(** C2, at the failing input.  With the multiplier at one half,
    [addToShoppingList] labels an item with its name and a blank, without
    scale annotation, while the detail view annotates the same ingredient
    with [(x0.5)]; so does the run from the initial state in which Papa Joe
    opens the first recipe, halves the servings and adds all ingredients. *)
Theorem shopping_label_unannotated_at_half (now : N) (random : nat -> string)
    (ing : Ingredient.t) (idx : nat) :
  let w :=
    run [(1%N, SwitchUser "dad"); (2%N, ClickRecipe 0); (3%N, ClickServingsMinus);
         (now, ClickAddAllToShoppingList random)] (initialWorld 0) in
  Ingredient.item (shopping_item (1 # 2) now random ing idx) =
    Ingredient.item ing +:+ " "
  /\ row_scale (renderIngredient (1 # 2) ing) = Some "(x0.5)"
  /\ servingsMultiplier (app w) == 1 # 2
  /\ User.id (currentUser (app w)) = "dad"
  /\ Ingredient.item <$> User.shoppingList (currentUser (app w)) =
     ["Pork Ribs "; "San Marzano Tomatoes "; "Garlic "; "Fresh Basil "]
  /\ Ingredient.checked <$> User.shoppingList (currentUser (app w)) =
     [false; false; false; false]
  /\ row_scale <$> (renderIngredient (servingsMultiplier (app w))
                      <$> Recipe.ingredients (recipe_rec_1 0)) =
     [Some "(x0.5)"; Some "(x0.5)"; Some "(x0.5)"; Some "(x0.5)"].
Proof. intros w. repeat split. Qed.

End ServingScale.

(** ** Cooking mode *)

Section CookingMode.

Definition is_cooking_step (e : Event) : bool :=
  match e with
  | ClickPreviousStep | ClickNextStep => true
  | _ => false
  end.

(** Cooking mode on [selected]: the view is on, the recipe is the selected
    one and the step index is within its instructions. *)
Definition cooking (selected : Recipe.t) (w : World) : Prop :=
  view (app w) = COOKING_MODE
  /\ selectedRecipe (app w) = Some selected
  /\ (0 <= currentStepIndex (app w)
      < Z.of_nat (length (Recipe.instructions selected)))%Z.

Lemma cooking_start now selected w :
  selectedRecipe (app w) = Some selected ->
  Recipe.instructions selected <> [] ->
  cooking selected (step now ClickStartCooking w)
  /\ currentStepIndex (app (step now ClickStartCooking w)) = 0%Z.
Proof.
  intros Hsel Hne. unfold cooking. simpl. repeat split; try done.
  destruct (Recipe.instructions selected); [done | simpl; lia].
Qed.

Lemma cooking_step now selected e w :
  is_cooking_step e = true -> cooking selected w -> cooking selected (step now e w).
Proof.
  intros He (Hv & Hsel & Hi).
  destruct e; try discriminate He; unfold cooking; simpl.
  - repeat split; try done; unfold Math_max_int; lia.
  - unfold nextStep. rewrite Hsel. simpl.
    repeat split; try done; unfold Math_min_int; lia.
Qed.

Lemma cooking_run selected es : forall w,
  Forall (fun e => is_cooking_step (snd e) = true) es ->
  cooking selected w -> cooking selected (run es w).
Proof.
  induction es as [|[now e] es IH]; intros w Hes Hw; [done|].
  apply Forall_cons in Hes as [He Hes]. simpl.
  apply IH; [done|]. by apply cooking_step.
Qed.

Lemma cooking_currentStep selected w :
  cooking selected w ->
  exists text,
    Recipe.instructions selected !! Z.to_nat (currentStepIndex (app w)) = Some text
    /\ currentStep (app w) = Some (Some text).
Proof.
  intros (_ & Hsel & Hi).
  destruct (lookup_lt_is_Some_2 (Recipe.instructions selected)
              (Z.to_nat (currentStepIndex (app w)))) as [text Htext]; [lia|].
  exists text. split; [done|]. unfold currentStep, array_get. rewrite Hsel.
  destruct (Z.ltb_spec (currentStepIndex (app w)) 0); [lia|]. by rewrite Htext.
Qed.

(** Cooking mode under its own buttons.  It is entered at step 0, and after
    any sequence of previous-step and next-step actions on a selected recipe
    with at least one instruction the step index is within the instructions,
    so the current step read from them is an instruction of the recipe; the
    previous-step action at index 0 and the next-step action at the last
    index leave the index where it is.  The runs of this lemma hold no
    settlement of a pending request. *)
Theorem cooking_mode_index_valid (now : N) (w : World) (selected : Recipe.t)
    (es : list (N * Event)) :
  selectedRecipe (app w) = Some selected ->
  Recipe.instructions selected <> [] ->
  Forall (fun e => is_cooking_step (snd e) = true) es ->
  let entered := step now ClickStartCooking w in
  let w' := run es entered in
  let len := Z.of_nat (length (Recipe.instructions selected)) in
  currentStepIndex (app entered) = 0%Z
  /\ selectedRecipe (app w') = Some selected
  /\ (0 <= currentStepIndex (app w') < len)%Z
  /\ (exists text,
        Recipe.instructions selected !! Z.to_nat (currentStepIndex (app w'))
        = Some text
        /\ currentStep (app w') = Some (Some text))
  /\ (currentStepIndex (app w') = 0%Z ->
      currentStepIndex (app (step now ClickPreviousStep w')) = 0%Z)
  /\ (currentStepIndex (app w') = (len - 1)%Z ->
      currentStepIndex (app (step now ClickNextStep w')) = (len - 1)%Z).
Proof.
  intros Hsel Hne Hes entered w' len.
  destruct (cooking_start now selected w Hsel Hne) as [Hentered H0].
  assert (Hw' : cooking selected w') by by apply cooking_run.
  split; [done|]. split; [apply Hw'|]. split; [apply Hw'|].
  split; [by apply cooking_currentStep|].
  destruct Hw' as (_ & Hsel' & Hi). split.
  - intros E. simpl. rewrite E. reflexivity.
  - intros E. simpl. unfold nextStep. rewrite Hsel'. simpl. rewrite E.
    unfold Math_min_int. fold len. lia.
Qed.

Lemma cooking_mode_index_valid_witness :
  let w := run [(1%N, ClickRecipe 0)] (initialWorld 0) in
  let es := [(3%N, ClickNextStep); (4%N, ClickNextStep); (5%N, ClickNextStep);
             (6%N, ClickNextStep); (7%N, ClickNextStep); (8%N, ClickPreviousStep)] in
  let w' := run es (step 2 ClickStartCooking w) in
  selectedRecipe (app w') = Some (recipe_rec_1 0)
  /\ (0 <= currentStepIndex (app w') < 4)%Z
  /\ currentStep (app w') =
     Some (Some "Crush the tomatoes by hand and add them to the pot with the juices.").
Proof.
  intros w es w'.
  destruct (cooking_mode_index_valid 2 w (recipe_rec_1 0) es)
    as (_ & Hsel & Hi & _); [reflexivity | discriminate | repeat constructor |].
  split; [exact Hsel|]. split; [exact Hi|]. reflexivity.
Defined.

End CookingMode.

(** * Further properties of the program *)

(** ** The roster *)

Section RosterMore.

Implicit Types (s : AppState) (w : World) (u user : User.t) (roster : list User.t).

Lemma replace_user_ids user roster :
  User.id <$> replace_user user roster = User.id <$> roster.
Proof.
  unfold replace_user. rewrite <- list_fmap_compose. apply list_fmap_ext.
  intros i u _. simpl.
  destruct (String.eqb_spec (User.id u) (User.id user)); congruence.
Qed.

(** X1.  No run of events adds, removes or reorders roster entries: the
    list of the user ids of the roster, and so the length of the roster, is
    the same after any sequence of events. *)
Theorem roster_ids_constant (es : list (N * Event)) w :
  User.id <$> users (app (run es w)) = User.id <$> users (app w)
  /\ length (users (app (run es w))) = length (users (app w)).
Proof.
  assert (H : User.id <$> users (app (run es w)) = User.id <$> users (app w)).
  { revert w. induction es as [|[now e] es IH]; intros w; [done|].
    rewrite run_cons, IH. cbn [fst snd].
    destruct (step_roster now e w) as [[Hu _]|(user & [_ Hu] & _)]; rewrite Hu;
      [done|apply replace_user_ids]. }
  split; [exact H|].
  by rewrite <- (length_fmap User.id), H, length_fmap.
Qed.

Lemma elem_of_ids_inj roster u1 u2 :
  NoDup (User.id <$> roster) -> u1 ∈ roster -> u2 ∈ roster ->
  User.id u1 = User.id u2 -> u1 = u2.
Proof.
  induction roster as [|x roster IH]; intros Hnd H1 H2 E.
  - by apply elem_of_nil in H1.
  - rewrite fmap_cons in Hnd. apply NoDup_cons in Hnd as [Hx Hnd].
    apply elem_of_cons in H1 as [->|H1]; apply elem_of_cons in H2 as [->|H2].
    + done.
    + exfalso. apply Hx. rewrite E. by apply list_elem_of_fmap_2.
    + exfalso. apply Hx. rewrite <- E. by apply list_elem_of_fmap_2.
    + by apply IH.
Qed.

Lemma replace_user_member user roster :
  NoDup (User.id <$> roster) -> user ∈ roster -> replace_user user roster = roster.
Proof.
  intros Hnd Hin. unfold replace_user.
  rewrite <- (list_fmap_id roster) at 2. apply list_fmap_ext.
  intros i u Hu. simpl.
  destruct (String.eqb_spec (User.id u) (User.id user)) as [E|_]; [|done].
  symmetry. eapply elem_of_ids_inj; eauto. by eapply list_elem_of_lookup_2.
Qed.

(** X2.  Switching to a user id that no roster entry carries changes
    nothing.  When the ids of the roster are pairwise different, switching to
    the id of a roster entry makes that entry the active profile and shows
    the home view, and nothing else changes: the roster stays as it is. *)
Theorem switch_user_spec (now : N) (userId : string) w :
  ((forall u, u ∈ users (app w) -> User.id u <> userId) ->
   step now (SwitchUser userId) w = w)
  /\ (NoDup (User.id <$> users (app w)) ->
      forall user, user ∈ users (app w) -> User.id user = userId ->
        app (step now (SwitchUser userId) w)
        = setView HOME (setCurrentUser user (app w))).
Proof.
  split.
  - intros Hnone. simpl. unfold handleSwitchUser.
    destruct (array_find (fun u => String.eqb (User.id u) userId) (users (app w)))
      as [user|] eqn:F.
    + apply array_find_Some in F as [Hin Hp]. apply String.eqb_eq in Hp.
      by destruct (Hnone user Hin).
    + unfold on_app. rewrite F. apply world_eta.
  - intros Hnd user Hin Hid. simpl. unfold handleSwitchUser.
    destruct (handleSwitchUser_found userId (app w)) as (u & Hu & E & ->); [eauto|].
    assert (u = user) as -> by (eapply elem_of_ids_inj; eauto; congruence).
    unfold mirrorEffect. simpl. by rewrite (replace_user_member user _ Hnd Hin).
Qed.

Lemma switch_user_spec_witness :
  step 3 (SwitchUser "grandpa") (initialWorld 0) = initialWorld 0
  /\ app (step 3 (SwitchUser "kid1") (initialWorld 0))
     = setView HOME (setCurrentUser kid1 (app (initialWorld 0))).
Proof.
  split.
  - apply (proj1 (switch_user_spec 3 "grandpa" (initialWorld 0))).
    intros u Hu. simpl in Hu. unfold DEFAULT_USERS in Hu.
    repeat (apply elem_of_cons in Hu as [->|Hu]; [discriminate|]).
    by apply elem_of_nil in Hu.
  - apply (proj2 (switch_user_spec 3 "kid1" (initialWorld 0))).
    + simpl. repeat constructor; rewrite ?elem_of_cons, ?elem_of_nil; intuition discriminate.
    + apply (list_elem_of_lookup_2 _ 2%nat). reflexivity.
    + reflexivity.
Defined.

End RosterMore.

(** ** Favorites along runs *)

Section FavoritesMore.

Implicit Types (s : AppState) (w : World) (u user : User.t) (favs : list string).

Lemma NoDup_favorites_without recipeId favs :
  NoDup favs -> NoDup (favorites_without recipeId favs).
Proof.
  intros H. unfold favorites_without.
  apply NoDup_ListNoDup, List.NoDup_filter. by apply NoDup_ListNoDup.
Qed.

Lemma NoDup_toggleFavorite (recipeId : string) s :
  NoDup (User.favorites (currentUser s)) ->
  NoDup (User.favorites (currentUser (toggleFavorite recipeId s))).
Proof.
  intros Hnd. rewrite favorites_toggleFavorite.
  destruct (includes (User.favorites (currentUser s)) recipeId) eqn:E.
  - by apply NoDup_favorites_without.
  - apply includes_false in E. apply NoDup_app. split; [done|]. split.
    + intros x Hx Hx'. apply list_elem_of_singleton in Hx'. by subst.
    + apply NoDup_singleton.
Qed.

(** X3.  The favorite button flips whether the id of the recipe is among
    the favorites of the active profile and leaves every other id in or out
    as it was; favorites without duplicates stay without duplicates; the
    shopping list of the profile and the recipe collection are unchanged. *)
Theorem toggleFavorite_flips (recipeId : string) s :
  let favs := User.favorites (currentUser s) in
  let favs' := User.favorites (currentUser (toggleFavorite recipeId s)) in
  includes favs' recipeId = negb (includes favs recipeId)
  /\ (forall x, x <> recipeId -> (x ∈ favs' <-> x ∈ favs))
  /\ (NoDup favs -> NoDup favs')
  /\ User.shoppingList (currentUser (toggleFavorite recipeId s))
     = User.shoppingList (currentUser s)
  /\ recipes (toggleFavorite recipeId s) = recipes s.
Proof.
  intros favs favs'. subst favs'. rewrite favorites_toggleFavorite. fold favs.
  destruct (includes favs recipeId) eqn:E; simpl.
  - split; [apply includes_false; rewrite elem_of_favorites_without; tauto|].
    split; [intros x Hx; rewrite elem_of_favorites_without; tauto|].
    split; [apply NoDup_favorites_without|done].
  - apply includes_false in E.
    split; [apply includes_spec, elem_of_app; right; by apply list_elem_of_singleton|].
    split.
    { intros x Hx. rewrite elem_of_app, list_elem_of_singleton. tauto. }
    split; [|done]. intros Hnd. apply NoDup_app. split; [done|]. split.
    + intros x Hx Hx'. apply list_elem_of_singleton in Hx'. by subst.
    + apply NoDup_singleton.
Qed.

(** How a transition treats the favorites of the active profile. *)
Lemma step_active_favorites now (e : Event) w :
  currentUser (app (step now e w)) ∈ users (app w)
  \/ User.favorites (currentUser (app (step now e w)))
     = User.favorites (currentUser (app w))
  \/ exists recipeId,
       User.favorites (currentUser (app (step now e w)))
       = User.favorites (currentUser (toggleFavorite recipeId (app w))).
Proof.
  destruct e; simpl; try (right; left; reflexivity).
  - unfold handleSwitchUser.
    destruct (array_find (fun u => String.eqb (User.id u) userId) (users (app w)))
      as [user|] eqn:F; [|right; left; reflexivity].
    apply array_find_Some in F as [Hin _]. left. exact Hin.
  - unfold selectCook. destruct (users (app w) !! i) as [u|] eqn:E;
      [|right; left; reflexivity].
    left. simpl. by eapply list_elem_of_lookup_2.
  - destruct (recipes (app w) !! i); right; left; reflexivity.
  - destruct (recipes (app w) !! i) as [recipe|]; [|right; left; reflexivity].
    right; right. by exists (Recipe.id recipe).
  - destruct granted; right; left; reflexivity.
  - unfold stopRecording. destruct (pending w !! k) as [[]|];
      right; left; reflexivity.
  - unfold handleSaveRecipe. destruct (draftRecipe (app w)) as [d|];
      [destruct (truthy (Recipe.title d))|]; right; left; reflexivity.
  - unfold handleGenerateVideo. destruct (draftRecipe (app w)) as [d|];
      [destruct (truthy (Recipe.title d) && keySelected)|]; right; left; reflexivity.
  - unfold editDraft. destruct (draftRecipe (app w)); right; left; reflexivity.
  - unfold editDraft. destruct (draftRecipe (app w)); right; left; reflexivity.
  - unfold editDraft. destruct (draftRecipe (app w)); right; left; reflexivity.
  - unfold editDraft. destruct (draftRecipe (app w)); right; left; reflexivity.
  - destruct (selectedRecipe (app w)) as [selected|]; [|right; left; reflexivity].
    right; right. by exists (Recipe.id selected).
  - unfold handleGenerateVideoForActiveRecipe.
    destruct (selectedRecipe (app w)); [destruct keySelected|]; right; left; reflexivity.
  - unfold handleVisualizeSteps.
    destruct (selectedRecipe (app w)); right; left; reflexivity.
  - destruct (selectedRecipe (app w)); right; left; reflexivity.
  - unfold nextStep. destruct (selectedRecipe (app w)); right; left; reflexivity.
  - destruct (User.shoppingList (currentUser (app w)) !! i); right; left; reflexivity.
  - destruct (User.shoppingList (currentUser (app w)) !! i); right; left; reflexivity.
  - right; left.
    destruct (step_roster now (Settle k v) w) as [[_ Hc]|(user & _ & Hmut & Hsw)].
    + simpl in Hc. by rewrite Hc.
    + destruct (Hsw eq_refl) as [Hsw' _]. discriminate Hsw'.
Qed.

(** X4.  When neither the active profile nor any roster entry has an id
    twice among its favorites, this is still so after any run of events. *)
Theorem favorites_stay_duplicate_free (es : list (N * Event)) w :
  NoDup (User.favorites (currentUser (app w))) ->
  (forall u, u ∈ users (app w) -> NoDup (User.favorites u)) ->
  let w' := run es w in
  NoDup (User.favorites (currentUser (app w')))
  /\ forall u, u ∈ users (app w') -> NoDup (User.favorites u).
Proof.
  revert w. induction es as [|[now e] es IH]; intros w Hcur Hall; [done|].
  rewrite run_cons. cbn [fst snd]. apply IH.
  - destruct (step_active_favorites now e w) as [Hin|[E|(recipeId & E)]].
    + by apply Hall.
    + by rewrite E.
    + rewrite E. by apply NoDup_toggleFavorite.
  - assert (Hcur' : NoDup (User.favorites (currentUser (app (step now e w))))).
    { destruct (step_active_favorites now e w) as [Hin|[E|(recipeId & E)]].
      + by apply Hall.
      + by rewrite E.
      + rewrite E. by apply NoDup_toggleFavorite. }
    intros u Hu.
    destruct (step_roster now e w) as [[Hu' _]|(user & [Hc Hu'] & _)].
    + rewrite Hu' in Hu. by apply Hall.
    + rewrite Hu' in Hu. apply elem_of_replace_user in Hu as (u0 & Hu0 & ->).
      destruct (String.eqb (User.id u0) (User.id user)); [by rewrite <- Hc|by apply Hall].
Qed.

Lemma favorites_stay_duplicate_free_witness :
  let es := [(1%N, ClickFavorite 0); (2%N, ClickFavorite 1);
             (3%N, SwitchUser "dad"); (4%N, ClickFavorite 0);
             (5%N, SwitchUser "susu"); (6%N, ClickFavorite 0)] in
  NoDup (User.favorites (currentUser (app (run es (initialWorld 0))))).
Proof.
  intros es.
  assert (H : Forall (fun u => NoDup (User.favorites u)) DEFAULT_USERS).
  { unfold DEFAULT_USERS.
    repeat (apply List.Forall_cons; [apply NoDup_nil_2|]).
    apply List.Forall_nil. }
  exact (proj1 (favorites_stay_duplicate_free es (initialWorld 0)
                  (NoDup_nil_2 (A:=string))
                  (fun u Hu => proj1 (Forall_forall _ _) H u Hu))).
Defined.

End FavoritesMore.

(** ** The shopping list *)

Section ShoppingList.

Implicit Types (s : AppState) (w : World) (u user : User.t)
  (l : list Ingredient.t) (itemId : string).

(** The items left by [removeItem], and the items after [toggleChecked]. *)
Definition items_without itemId l : list Ingredient.t :=
  List.filter (fun i => negb (String.eqb (Ingredient.id i) itemId)) l.

Definition items_toggled itemId l : list Ingredient.t :=
  map (fun i => if String.eqb (Ingredient.id i) itemId
                then Ingredient.with_checked (negb (Ingredient.checked i)) i
                else i) l.

Lemma with_shoppingList_eta u : User.with_shoppingList (User.shoppingList u) u = u.
Proof. by destruct u. Qed.

Lemma appState_eta s :
  mkApp (users s) (currentUser s) (recipes s) (view s) (selectedRecipe s)
    (servingsMultiplier s) (currentStepIndex s) (isGenerating s)
    (creationStep s) (draftRecipe s) (capturedImage s) = s.
Proof. by destruct s. Qed.

Lemma items_toggled_twice itemId l :
  items_toggled itemId (items_toggled itemId l) = l.
Proof.
  unfold items_toggled. rewrite map_map. rewrite <- (map_id l) at 2.
  apply map_ext. intros i.
  destruct (String.eqb (Ingredient.id i) itemId) eqn:E; simpl; rewrite E; [|done].
  destruct i as [? ? ? ? ? ? ? c]. simpl. by rewrite negb_involutive.
Qed.

Lemma replace_user_same_id a b (roster : list User.t) :
  User.id a = User.id b ->
  replace_user a (replace_user b roster) = replace_user a roster.
Proof.
  intros E. unfold replace_user. rewrite map_map. apply map_ext. intros u.
  rewrite <- E.
  destruct (String.eqb (User.id u) (User.id a)) eqn:F; [|by rewrite F].
  by rewrite <- E, String.eqb_refl.
Qed.

Lemma mirrored_replace_user s :
  mirrored s -> replace_user (currentUser s) (users s) = users s.
Proof.
  intros Hm. unfold replace_user. rewrite <- (map_id (users s)) at 2.
  apply map_ext_in. intros u Hu. apply list_elem_of_In in Hu.
  destruct (String.eqb_spec (User.id u) (User.id (currentUser s))) as [E|_]; [|done].
  symmetry. by apply Hm.
Qed.

(** X5.  In a state whose roster mirrors the active profile, clicking the
    checkbox of a shopping-list item twice restores the whole state. *)
Theorem toggleChecked_twice itemId s :
  mirrored s -> toggleChecked itemId (toggleChecked itemId s) = s.
Proof.
  intros Hm. pose proof (mirrored_replace_user s Hm) as Hroster.
  destruct s as [us cur rs v sel m idx g cs d ci].
  destruct cur as [uid nm rl av fv sl].
  unfold toggleChecked, mirrorEffect, setUsers, setCurrentUser,
    User.with_shoppingList. simpl in *.
  pose proof (items_toggled_twice itemId sl) as Htwice.
  unfold items_toggled in Htwice. rewrite Htwice.
  rewrite replace_user_same_id by reflexivity. by rewrite Hroster.
Qed.

Lemma toggleChecked_twice_witness :
  let s :=
    app (run [(1%N, ClickRecipe 0);
              (2%N, ClickAddAllToShoppingList (fun idx => pretty idx))]
             (initialWorld 0)) in
  Ingredient.checked <$> User.shoppingList (currentUser (toggleChecked "shop-2-1" s))
    = [false; true; false; false]
  /\ toggleChecked "shop-2-1" (toggleChecked "shop-2-1" s) = s.
Proof.
  intros s. split; [reflexivity|].
  apply toggleChecked_twice.
  apply (run_roster_inv _ _ (initialWorld_roster_inv 0)).
Defined.

Lemma elem_of_items_without itemId l (i : Ingredient.t) :
  i ∈ items_without itemId l <-> i ∈ l /\ Ingredient.id i <> itemId.
Proof.
  unfold items_without. rewrite !list_elem_of_In, filter_In, negb_true_iff.
  rewrite String.eqb_neq. tauto.
Qed.

Lemma items_without_sublist itemId l : items_without itemId l `sublist_of` l.
Proof.
  induction l as [|i l IH]; [constructor|]. unfold items_without in *. simpl.
  destruct (negb (String.eqb (Ingredient.id i) itemId)); by constructor.
Qed.

Lemma items_without_idem itemId l :
  items_without itemId (items_without itemId l) = items_without itemId l.
Proof.
  unfold items_without. induction l as [|i l IH]; [done|]. simpl.
  destruct (negb (String.eqb (Ingredient.id i) itemId)) eqn:E; [|done].
  simpl. by rewrite E, IH.
Qed.

Lemma items_without_shorter itemId l (k : nat) (item : Ingredient.t) :
  l !! k = Some item -> Ingredient.id item = itemId ->
  length (items_without itemId l) < length l.
Proof.
  revert k. induction l as [|i l IH]; intros k Hk E; [done|].
  unfold items_without in *. simpl.
  destruct k as [|k]; simpl in Hk.
  - injection Hk as ->. rewrite E, String.eqb_refl. simpl.
    pose proof (List.filter_length_le
                  (fun i => negb (String.eqb (Ingredient.id i) itemId)) l). lia.
  - specialize (IH k Hk E).
    destruct (negb (String.eqb (Ingredient.id i) itemId)); simpl; lia.
Qed.

(** X6.  The remove button of the [k]-th shopping-list item removes every
    item that carries the id of that item and nothing else: the items left
    are those with another id, in their old order; the list gets strictly
    shorter; favorites and recipes are unchanged; removing the same id again
    changes nothing. *)
Theorem removeItem_removes_by_id now (k : nat) (item : Ingredient.t) w :
  User.shoppingList (currentUser (app w)) !! k = Some item ->
  let l := User.shoppingList (currentUser (app w)) in
  let w' := step now (ClickRemoveItem k) w in
  let l' := User.shoppingList (currentUser (app w')) in
  (forall i, i ∈ l' <-> i ∈ l /\ Ingredient.id i <> Ingredient.id item)
  /\ l' `sublist_of` l
  /\ length l' < length l
  /\ User.favorites (currentUser (app w')) = User.favorites (currentUser (app w))
  /\ recipes (app w') = recipes (app w)
  /\ User.shoppingList
       (currentUser (removeItem (Ingredient.id item) (app w'))) = l'.
Proof.
  intros Hk l w' l'. subst w' l' l. cbn [step]. rewrite Hk.
  set (l := User.shoppingList (currentUser (app w))) in *.
  change (User.shoppingList
            (currentUser (app (on_app (removeItem (Ingredient.id item)) w))))
    with (items_without (Ingredient.id item) l).
  change (User.shoppingList
            (currentUser
               (removeItem (Ingredient.id item)
                  (app (on_app (removeItem (Ingredient.id item)) w)))))
    with (items_without (Ingredient.id item)
            (items_without (Ingredient.id item) l)).
  split; [intros i; apply elem_of_items_without|].
  split; [apply items_without_sublist|].
  split; [by eapply items_without_shorter|].
  split; [done|]. split; [done|]. apply items_without_idem.
Qed.

Lemma removeItem_removes_by_id_witness :
  let w :=
    run [(1%N, ClickRecipe 0);
         (2%N, ClickAddAllToShoppingList (fun idx => pretty idx));
         (3%N, ClickItemCheckbox 0)] (initialWorld 0) in
  let w' := step 4 (ClickRemoveItem 1) w in
  Ingredient.item <$> User.shoppingList (currentUser (app w'))
    = ["Pork Ribs "; "Garlic "; "Fresh Basil "]
  /\ length (User.shoppingList (currentUser (app w'))) < 4.
Proof.
  intros w w'.
  destruct (removeItem_removes_by_id 4 1
              (shopping_item 1 2 (fun idx => pretty idx)
                 (seed_ingredient "ing-2" "San Marzano Tomatoes" "2 cans" (6 # 1) "Pantry") 1) w)
    as (_ & _ & Hlen & _); [reflexivity|].
  split; [reflexivity|exact Hlen].
Defined.

Lemma shopping_item_ids now (m : Q) (random : nat -> string) l :
  Ingredient.id <$> array_mapi (shopping_item m now random) l
  = imap (fun idx _ => "shop-" +:+ pretty now +:+ "-" +:+ random idx) l.
Proof.
  unfold array_mapi. apply list_eq. intros i.
  rewrite list_lookup_fmap, !list_lookup_imap. by destruct (l !! i).
Qed.

Lemma shop_id_inj (now : N) (r1 r2 : string) :
  "shop-" +:+ pretty now +:+ "-" +:+ r1 = "shop-" +:+ pretty now +:+ "-" +:+ r2 ->
  r1 = r2.
Proof.
  intros E. apply (inj (String.append "shop-")) in E.
  apply (inj (String.append (pretty now))) in E.
  by apply (inj (String.append "-")) in E.
Qed.

(** X7.  Adding the ingredients of the selected recipe to the shopping list
    keeps the items already on the list and appends one item per ingredient,
    in the order of the recipe, each built by [shopping_item] at the current
    multiplier and clock value; the ids of the new items are pairwise
    different when the random suffixes are; the selected recipe, the
    collection and the favorites are unchanged and one alert is raised. *)
Theorem addToShoppingList_appends now (random : nat -> string) w
    (selected : Recipe.t) :
  selectedRecipe (app w) = Some selected ->
  let w' := step now (ClickAddAllToShoppingList random) w in
  let l := User.shoppingList (currentUser (app w)) in
  let l' := User.shoppingList (currentUser (app w')) in
  let ings := Recipe.ingredients selected in
  take (length l) l' = l
  /\ length l' = length l + length ings
  /\ (forall idx ing, ings !! idx = Some ing ->
        l' !! (length l + idx)
        = Some (shopping_item (servingsMultiplier (app w)) now random ing idx))
  /\ ((forall i j, i < length ings -> j < length ings ->
         random i = random j -> i = j) ->
      NoDup (Ingredient.id <$> drop (length l) l'))
  /\ selectedRecipe (app w') = Some selected
  /\ recipes (app w') = recipes (app w)
  /\ User.favorites (currentUser (app w')) = User.favorites (currentUser (app w))
  /\ alerts w' = (alerts w ++ ["Added to your shopping list!"])%list.
Proof.
  intros Hsel w' l l' ings. subst w' l'. cbn [step]. rewrite Hsel.
  set (new := array_mapi (shopping_item (servingsMultiplier (app w)) now random) ings).
  assert (E : User.shoppingList
                (currentUser
                   (app (addToShoppingList now random
                           (Recipe.ingredients selected) w)))
              = (l ++ new)%list) by reflexivity.
  rewrite !E. clear E.
  assert (Hlen : length new = length ings).
  { unfold new, array_mapi. apply length_imap. }
  split; [by rewrite take_app_length|].
  split; [by rewrite length_app, Hlen|].
  split.
  { intros idx ing Hidx. rewrite lookup_app_r by lia.
    replace (length l + idx - length l) with idx by lia.
    unfold new, array_mapi. by rewrite list_lookup_imap, Hidx. }
  split; [|by repeat split].
  intros Hinj. rewrite drop_app_length. unfold new. rewrite shopping_item_ids.
  apply NoDup_alt. intros i j x Hi Hj.
  rewrite list_lookup_imap in Hi, Hj.
  destruct (ings !! i) as [a|] eqn:Ei; [|done].
  destruct (ings !! j) as [b|] eqn:Ej; [|done].
  simpl in Hi, Hj.
  apply Hinj; [by eapply lookup_lt_Some|by eapply lookup_lt_Some|].
  apply (shop_id_inj now). congruence.
Qed.

Lemma addToShoppingList_appends_witness :
  let w :=
    run [(1%N, ClickRecipe 0); (2%N, ClickServingsPlus); (3%N, ClickServingsPlus);
         (4%N, ClickAddAllToShoppingList (fun idx => pretty idx))]
        (initialWorld 0) in
  let w' := step 5 (ClickAddAllToShoppingList (fun idx => pretty idx)) w in
  length (User.shoppingList (currentUser (app w'))) = 8
  /\ Ingredient.id <$> drop 4 (User.shoppingList (currentUser (app w')))
     = ["shop-5-0"; "shop-5-1"; "shop-5-2"; "shop-5-3"]
  /\ NoDup (Ingredient.id <$> drop 4 (User.shoppingList (currentUser (app w')))).
Proof.
  intros w w'.
  destruct (addToShoppingList_appends 5 (fun idx => pretty idx) w (recipe_rec_1 0))
    as (_ & Hlen & _ & Hnd & _); [reflexivity|].
  split; [exact Hlen|]. split; [reflexivity|].
  apply Hnd. intros i j _ _ E. by apply (inj pretty) in E.
Defined.

End ShoppingList.

(** ** The draft and the continuations *)

Section DraftMore.

Implicit Types (s : AppState) (w : World).

Lemma ing_id_inj (now : N) (i j : nat) :
  "ing-" +:+ pretty now +:+ "-" +:+ pretty i
  = "ing-" +:+ pretty now +:+ "-" +:+ pretty j -> i = j.
Proof.
  intros E. apply (inj (String.append "ing-")) in E.
  apply (inj (String.append (pretty now))) in E.
  apply (inj (String.append "-")) in E. by apply (inj pretty) in E.
Qed.

(** X8.  A generated draft has one ingredient per generated ingredient, in
    order: the one at index [idx] has the id [ing-<clock>-<idx>], the
    generated item, amount, cost and category, and is unchecked; the
    ingredient ids of a draft are pairwise different; the instructions are
    the generated ones. *)
Theorem generated_draft_ingredients (genData : RecipeGenResponse.t) (now : N)
    (capturedImage : option string) (author : User.t) :
  let draft := newRecipe genData now capturedImage author in
  let generated := RecipeGenResponse.ingredients genData in
  length (Recipe.ingredients draft) = length generated
  /\ (forall idx g, generated !! idx = Some g ->
        exists ing,
          Recipe.ingredients draft !! idx = Some ing
          /\ Ingredient.id ing = "ing-" +:+ pretty now +:+ "-" +:+ pretty idx
          /\ Ingredient.item ing = GenIngredient.item g
          /\ Ingredient.amount ing = GenIngredient.amount g
          /\ Ingredient.estimatedCost ing = GenIngredient.estimatedCost g
          /\ Ingredient.category ing = GenIngredient.category g
          /\ Ingredient.checked ing = false)
  /\ NoDup (Ingredient.id <$> Recipe.ingredients draft)
  /\ Recipe.instructions draft = RecipeGenResponse.instructions genData.
Proof.
  intros draft generated. subst draft. simpl. fold generated. unfold array_mapi.
  split; [apply length_imap|]. split; [|split; [|done]].
  - intros idx g Hg. eexists. rewrite list_lookup_imap, Hg. simpl.
    split; [reflexivity|]. by repeat split.
  - apply NoDup_alt. intros i j x Hi Hj.
    rewrite list_lookup_fmap, list_lookup_imap in Hi, Hj.
    destruct (generated !! i); [|done]. destruct (generated !! j); [|done].
    simpl in Hi, Hj. apply (ing_id_inj now). congruence.
Qed.

(** X9.  A recording hands to the generation the photo of the state in
    which it was started: a photo taken, or taken again, while the recorder
    runs is not used.  When the generation is fulfilled, a hero image is
    requested exactly when there was no photo at the start of the recording
    and both the generated title and the generated description are
    non-empty; with a photo at the start the draft carries that photo and
    nothing is requested.  The busy flag is cleared and no alert is
    raised. *)
Theorem hero_image_requested (t0 t1 now : N) w (es : list (N * Event))
    (genData : RecipeGenResponse.t) :
  Forall (fun e => is_click (snd e) = true) es ->
  let photo := capturedImage (app w) in
  let recording := run es (step t0 (StartRecording true) w) in
  let stopped := step t1 (RecordingComplete (length (pending w))) recording in
  let k := (length (pending recording) - 1)%nat in
  let w' := step now (Settle k (RecipeFromMedia (Fulfilled genData))) stopped in
  let title := RecipeGenResponse.title genData in
  let description := RecipeGenResponse.description genData in
  pending stopped !! k = Some (AwaitRecipeFromMedia photo (currentUser (app w)))
  /\ (truthy_opt photo = true ->
      pending w' = delete k (pending stopped)
      /\ (Recipe.imageUrl <$> draftRecipe (app w')) = Some photo)
  /\ (truthy_opt photo = false ->
      (Recipe.imageUrl <$> draftRecipe (app w')) = Some None
      /\ (truthy title = true -> truthy description = true ->
          pending w'
          = (delete k (pending stopped) ++ [AwaitRecipeImage title description])%list)
      /\ (truthy title = false \/ truthy description = false ->
          pending w' = delete k (pending stopped)))
  /\ isGenerating (app w') = false
  /\ alerts w' = alerts recording.
Proof.
  intros Hes photo recording stopped k w' title description.
  pose proof (recording_handed_over t0 t1 es w Hes) as H. cbv zeta in H.
  change (run es (step t0 (StartRecording true) w)) with recording in H.
  change (step t1 (RecordingComplete (length (pending w))) recording)
    with stopped in H.
  fold photo in H. destruct H as (more & Erec & Estop & Hlen & _ & Halerts).
  assert (Hk : pending stopped !! k
               = Some (AwaitRecipeFromMedia photo (currentUser (app w)))).
  { subst k. rewrite Estop, app_assoc.
    rewrite Erec, length_app. cbn [length].
    replace (length (pending w) + S (length more) - 1)%nat
      with (length (pending w ++ more)%list + 0)%nat
      by (rewrite length_app; lia).
    by rewrite lookup_app_r, Nat.add_comm, Nat.add_sub by lia. }
  split; [exact Hk|]. rewrite <- Halerts. clear Erec Estop Hlen Halerts.
  subst w'. cbn [step]. unfold settle.
  rewrite Hk. cbn [resume]. unfold handleGenerateRecipe_settled.
  cbn [newRecipe Recipe.title Recipe.description]. fold title description.
  generalize (currentUser (app w)). intros author.
  destruct (truthy_opt photo) eqn:Eimg; simpl.
  - split; [|split; [discriminate|done]]. intros _. split; [done|].
    destruct photo as [img|]; [|done]. simpl in *. by rewrite Eimg.
  - split; [discriminate|]. split; [|by destruct (truthy title && truthy description)].
    intros _. split.
    { destruct (truthy title && truthy description); simpl;
        destruct photo as [img|]; simpl in *; by rewrite ?Eimg. }
    split.
    + intros -> ->. reflexivity.
    + intros [-> | ->]; [done|]. by destruct (truthy title).
Qed.

Lemma hero_image_requested_witness :
  let w := step 1 ClickCreate (initialWorld 0) in
  let late := [(3%N, CapturePhoto "data:image/jpeg;base64,PHOTO")] in
  let recording := run late (step 2 (StartRecording true) w) in
  let stopped := step 4 (RecordingComplete 0) recording in
  let w' := step 5 (Settle 0 (RecipeFromMedia (Fulfilled soup))) stopped in
  capturedImage (app recording) = Some "data:image/jpeg;base64,PHOTO"
  /\ (Recipe.imageUrl <$> draftRecipe (app w')) = Some None
  /\ pending w' = [AwaitRecipeImage "Soup" "Warm"].
Proof.
  intros w late recording stopped w'.
  destruct (hero_image_requested 2 4 5 w late soup) as (_ & _ & Hnone & _).
  { repeat constructor. }
  destruct Hnone as (Hi & Hp & _); [reflexivity|].
  split; [reflexivity|]. split; [exact Hi|].
  exact (Hp eq_refl eq_refl).
Defined.

(** X10.  When the video generation started on the draft settles, the busy
    flag is cleared and the collection, the selected recipe and the creation
    step are unchanged.  A fulfilment writes the video URL to the draft that
    is present then (to none when the draft is gone); a rejection leaves the
    draft and raises the alert. *)
Theorem draft_video_settled (now : N) w (k : nat) (title : string)
    (imageUrl : option string) (r : VideoRun) (result : Settled string) :
  pending w !! k = Some (AwaitDraftVideo title imageUrl) ->
  generateRecipeVideo r = Some result ->
  let w' := step now (Settle k (RecipeVideo r)) w in
  recipes (app w') = recipes (app w)
  /\ selectedRecipe (app w') = selectedRecipe (app w)
  /\ creationStep (app w') = creationStep (app w)
  /\ isGenerating (app w') = false
  /\ pending w' = delete k (pending w)
  /\ match result with
     | Fulfilled videoUrl =>
         draftRecipe (app w') = Recipe.with_videoUrl videoUrl <$> draftRecipe (app w)
         /\ alerts w' = alerts w
     | Rejected =>
         draftRecipe (app w') = draftRecipe (app w)
         /\ alerts w' = (alerts w ++ ["Video generation failed or quota exceeded."])%list
     end.
Proof.
  intros Hk Hr w'. subst w'. cbn [step]. unfold settle. rewrite Hk.
  cbn [resume]. rewrite Hr. destruct result as [videoUrl|]; simpl.
  - by repeat split.
  - by repeat split.
Qed.

Lemma draft_video_settled_witness :
  let w := run [(1%N, ClickCreate); (2%N, StartRecording true);
                (2%N, RecordingComplete 0);
                (3%N, Settle 0 (RecipeFromMedia (Fulfilled soup)));
                (4%N, ClickGenerateVideo true)] (initialWorld 0) in
  let w' := step 5 (Settle 1 (RecipeVideo VideoThrows)) w in
  draftRecipe (app w') = draftRecipe (app w)
  /\ alerts w' = ["Video generation failed or quota exceeded."]
  /\ recipes (app w') = INITIAL_RECIPES 0.
Proof.
  intros w w'.
  destruct (draft_video_settled 5 w 1 "Soup" None VideoThrows Rejected)
    as (Hrec & _ & _ & _ & _ & Hdraft & Halerts); [reflexivity|reflexivity|].
  split; [exact Hdraft|]. split; [exact Halerts|]. exact Hrec.
Defined.

(** X11.  The video button of the review form does nothing unless there is
    a draft with a non-empty title and an API key has been selected; then it
    sets the busy flag and starts one generation, on the title and image the
    draft has at the click. *)
Theorem draft_video_guard (now : N) (keySelected : bool) w :
  ((forall draft, draftRecipe (app w) = Some draft ->
      truthy (Recipe.title draft) = false \/ keySelected = false) ->
   step now (ClickGenerateVideo keySelected) w = w)
  /\ (forall draft, draftRecipe (app w) = Some draft ->
        truthy (Recipe.title draft) = true -> keySelected = true ->
        let w' := step now (ClickGenerateVideo keySelected) w in
        pending w' = (pending w ++ [AwaitDraftVideo (Recipe.title draft)
                                      (Recipe.imageUrl draft)])%list
        /\ app w' = setIsGenerating true (app w)).
Proof.
  split.
  - intros H. cbn [step]. unfold handleGenerateVideo.
    destruct (draftRecipe (app w)) as [draft|]; [|done].
    by destruct (H draft eq_refl) as [-> | ->]; rewrite ?andb_false_r.
  - intros draft Hd Ht ->. cbn [step]. unfold handleGenerateVideo.
    rewrite Hd, Ht. by split.
Qed.

(** X12.  A failed enrichment of the selected recipe (video or step
    thumbnails) changes nothing but the busy flag, which is cleared, and
    raises the alert of the handler: collection, selected recipe and roster
    are as before. *)
Theorem enrichment_failure_keeps_recipes (now : N) w (k : nat)
    (selected : Recipe.t) :
  (pending w !! k = Some (AwaitVideoForActiveRecipe selected) ->
   forall r, generateRecipeVideo r = Some Rejected ->
     let w' := step now (Settle k (RecipeVideo r)) w in
     app w' = setIsGenerating false (app w)
     /\ alerts w' = (alerts w ++ ["Video generation failed. Please try again."])%list
     /\ pending w' = delete k (pending w))
  /\ (pending w !! k = Some (AwaitInstructionThumbnails selected) ->
      let w' := step now (Settle k (InstructionThumbnails Rejected)) w in
      app w' = setIsGenerating false (app w)
      /\ alerts w' = (alerts w ++ ["Could not generate visuals. Please try again."])%list
      /\ pending w' = delete k (pending w)).
Proof.
  split.
  - intros Hk r Hr. cbn [step]. unfold settle. rewrite Hk. cbn [resume].
    rewrite Hr. by repeat split.
  - intros Hk. cbn [step]. unfold settle. rewrite Hk. by repeat split.
Qed.

Lemma enrichment_failure_keeps_recipes_witness :
  let w := run [(1%N, ClickRecipe 2); (2%N, ClickVisualizeSteps)] (initialWorld 0) in
  let w' := step 3 (Settle 0 (InstructionThumbnails Rejected)) w in
  selectedRecipe (app w') = Some (recipe_rec_3 0)
  /\ recipes (app w') = INITIAL_RECIPES 0
  /\ alerts w' = ["Could not generate visuals. Please try again."].
Proof.
  intros w w'.
  destruct (enrichment_failure_keeps_recipes 3 w 0 (recipe_rec_3 0)) as [_ H].
  destruct H as (Happ & Halerts & _); [reflexivity|].
  unfold w'. rewrite Happ. split; [reflexivity|]. split; [reflexivity|exact Halerts].
Defined.

(** X13.  Every continuation but the one of the hero image ends with the
    busy flag cleared, whatever the outcome and whatever else is still
    pending; the hero-image continuation leaves the flag as it is. *)
Theorem busy_flag_cleared_by_any_settlement (now : N) (t : Task)
    (v : Settlement) w w' :
  resume now t v w = Some w' ->
  isGenerating (app w') =
  match t with
  | AwaitRecipeImage _ _ => isGenerating (app w)
  | _ => false
  end.
Proof.
  destruct t as [photo author|photo author|title description|title imageUrl
                 |selected|selected],
    v as [result|generateContent|r|ai]; simpl; try discriminate.
  - intros [= <-]. unfold handleGenerateRecipe_settled.
    destruct result as [genData|]; [|done].
    by destruct (negb (truthy_opt photo)
                 && truthy (Recipe.title (newRecipe genData now photo author))
                 && truthy (Recipe.description
                              (newRecipe genData now photo author))).
  - intros [= <-]. unfold recipeImage_settled.
    by destruct (generateRecipeImage generateContent title description).
  - destruct (generateRecipeVideo r) as [result|]; [|discriminate].
    intros [= <-]. by destruct result.
  - destruct (generateRecipeVideo r) as [result|]; [|discriminate].
    intros [= <-]. by destruct result.
  - intros [= <-]. by destruct ai.
Qed.

Lemma busy_flag_cleared_by_any_settlement_witness :
  let w := run [(1%N, ClickRecipe 0); (2%N, ClickVisualizeSteps);
                (3%N, ClickGenerateVideoForRecipe true)] (initialWorld 0) in
  let w' := step 4 (Settle 0 (InstructionThumbnails Rejected)) w in
  isGenerating (app w) = true
  /\ pending w' = [AwaitVideoForActiveRecipe (recipe_rec_1 0)]
  /\ isGenerating (app w') = false.
Proof.
  intros w w'. split; [reflexivity|]. split; [reflexivity|].
  apply (busy_flag_cleared_by_any_settlement 4
           (AwaitInstructionThumbnails (recipe_rec_1 0))
           (InstructionThumbnails Rejected)
           (mkWorld (app w) (alerts w) (delete 0 (pending w)))).
  reflexivity.
Defined.

End DraftMore.

(** ** The recipe collection and the review form *)

Section CollectionMore.

Implicit Types (s : AppState) (w : World).

Lemma replace_recipe_ids (updated : Recipe.t) (prev : list Recipe.t) :
  Recipe.id <$> replace_recipe updated prev = Recipe.id <$> prev.
Proof.
  unfold replace_recipe. rewrite <- list_fmap_compose. apply list_fmap_ext.
  intros i r _. simpl.
  destruct (String.eqb_spec (Recipe.id r) (Recipe.id updated)); congruence.
Qed.

Ltac ids_kept := left; reflexivity.

(** How a transition treats the ids of the collection. *)
Lemma step_recipe_ids now (e : Event) w :
  Recipe.id <$> recipes (app (step now e w)) = Recipe.id <$> recipes (app w)
  \/ exists draft,
       e = ClickSave /\ draftRecipe (app w) = Some draft
       /\ truthy (Recipe.title draft) = true
       /\ recipes (app (step now e w)) = draft :: recipes (app w).
Proof.
  destruct e; simpl; try ids_kept.
  - unfold handleSwitchUser.
    destruct (array_find _ (users (app w))); ids_kept.
  - unfold selectCook. destruct (users (app w) !! i); ids_kept.
  - destruct (recipes (app w) !! i); ids_kept.
  - destruct (recipes (app w) !! i); ids_kept.
  - destruct granted; ids_kept.
  - unfold stopRecording. destruct (pending w !! k) as [[]|]; ids_kept.
  - unfold handleSaveRecipe. destruct (draftRecipe (app w)) as [d|]; [|ids_kept].
    destruct (truthy (Recipe.title d)) eqn:E; [|ids_kept].
    right. by exists d.
  - unfold handleGenerateVideo. destruct (draftRecipe (app w)) as [d|];
      [destruct (truthy (Recipe.title d) && keySelected)|]; ids_kept.
  - unfold editDraft. destruct (draftRecipe (app w)); ids_kept.
  - unfold editDraft. destruct (draftRecipe (app w)); ids_kept.
  - unfold editDraft. destruct (draftRecipe (app w)); ids_kept.
  - unfold editDraft. destruct (draftRecipe (app w)); ids_kept.
  - destruct (selectedRecipe (app w)); ids_kept.
  - unfold handleGenerateVideoForActiveRecipe.
    destruct (selectedRecipe (app w)); [destruct keySelected|]; ids_kept.
  - unfold handleVisualizeSteps. destruct (selectedRecipe (app w)); ids_kept.
  - destruct (selectedRecipe (app w)); ids_kept.
  - unfold nextStep. destruct (selectedRecipe (app w)); ids_kept.
  - destruct (User.shoppingList (currentUser (app w)) !! i); ids_kept.
  - destruct (User.shoppingList (currentUser (app w)) !! i); ids_kept.
  - left. unfold settle. destruct (pending w !! k) as [t|]; [|done].
    destruct t, v; simpl; try done;
      try (destruct (generateRecipeVideo r) as [[]|]; simpl; try done);
      try (destruct (generateRecipeImage generateContent title description);
           simpl; try done);
      try (destruct result; simpl; try done);
      try (destruct ai; simpl; try done);
      try apply replace_recipe_ids;
      repeat match goal with
             | |- context [match draftRecipe ?s with _ => _ end] =>
                 destruct (draftRecipe s); simpl
             | |- context [if ?b then _ else _] => destruct b; simpl
             end; done.
Qed.

(** X14.  No event removes or reorders recipes: after any run the ids of
    the old collection are a suffix of the ids of the new one, and the
    collection has grown by at most the number of save clicks of the run. *)
Theorem recipes_never_removed (es : list (N * Event)) w :
  (Recipe.id <$> recipes (app w)) `suffix_of` (Recipe.id <$> recipes (app (run es w)))
  /\ length (recipes (app w)) <= length (recipes (app (run es w)))
  /\ length (recipes (app (run es w)))
     <= length (recipes (app w))
        + length (List.filter (fun e => match snd e with ClickSave => true | _ => false end) es).
Proof.
  revert w. induction es as [|[now e] es IH]; intros w.
  - simpl. split; [done|lia].
  - rewrite run_cons. cbn [fst snd]. destruct (IH (step now e w)) as (Hs & Hl1 & Hl2).
    destruct (step_recipe_ids now e w) as [E|(d & -> & _ & _ & E)].
    + assert (El : length (recipes (app (step now e w))) = length (recipes (app w))).
      { by rewrite <- (length_fmap Recipe.id), E, length_fmap. }
      rewrite E in Hs. rewrite El in Hl1, Hl2. split; [done|]. split; [done|].
      set (saves := List.filter _ es) in *.
      assert (Hf : length saves
                   <= length (List.filter
                                (fun e => match snd e with ClickSave => true | _ => false end)
                                ((now, e) :: es))).
      { cbn [List.filter snd]. fold saves. destruct e; simpl; lia. }
      lia.
    + rewrite E in Hs, Hl1, Hl2. cbn [List.filter snd].
      rewrite fmap_cons in Hs. simpl in Hl1, Hl2 |- *.
      split; [by eapply suffix_cons_l|]. split; lia.
Qed.

Definition is_draft_edit (e : Event) : bool :=
  match e with
  | EditTitle _ | EditDescription _ | EditDifficulty _ | EditCalories _ => true
  | _ => false
  end.

(** X15.  The four fields of the review form (title, description,
    difficulty, calories) edit the draft only: id, author, creation time,
    ingredients, instructions, image, video, tips, tags, servings and
    preparation time of the draft are kept, and the collection, the creation
    step, the pending requests and the alerts are unchanged. *)
Theorem draft_edit_keeps_generated (now : N) (e : Event) w (draft : Recipe.t) :
  is_draft_edit e = true ->
  draftRecipe (app w) = Some draft ->
  let w' := step now e w in
  (exists draft',
     draftRecipe (app w') = Some draft'
     /\ Recipe.id draft' = Recipe.id draft
     /\ Recipe.authorId draft' = Recipe.authorId draft
     /\ Recipe.createdAt draft' = Recipe.createdAt draft
     /\ Recipe.ingredients draft' = Recipe.ingredients draft
     /\ Recipe.instructions draft' = Recipe.instructions draft
     /\ Recipe.imageUrl draft' = Recipe.imageUrl draft
     /\ Recipe.videoUrl draft' = Recipe.videoUrl draft
     /\ Recipe.tips draft' = Recipe.tips draft
     /\ Recipe.tags draft' = Recipe.tags draft
     /\ Recipe.servings draft' = Recipe.servings draft
     /\ Recipe.prepTime draft' = Recipe.prepTime draft)
  /\ recipes (app w') = recipes (app w)
  /\ creationStep (app w') = creationStep (app w)
  /\ pending w' = pending w
  /\ alerts w' = alerts w.
Proof.
  intros He Hd w'. subst w'.
  destruct e; try discriminate He; cbn [step]; unfold on_app, editDraft; simpl;
    rewrite Hd; simpl; (split; [eexists; split; [reflexivity|by repeat split]|done]).
Qed.

Lemma draft_edit_keeps_generated_witness :
  let w := run [(1%N, ClickCreate); (2%N, StartRecording true);
                (2%N, RecordingComplete 0);
                (3%N, Settle 0 (RecipeFromMedia (Fulfilled soup)))] (initialWorld 0) in
  let w' := step 4 (EditTitle "Grandma's Soup") w in
  exists draft',
    draftRecipe (app w') = Some draft'
    /\ Recipe.title draft' = "Grandma's Soup"
    /\ Recipe.id draft' = "rec-3"
    /\ Recipe.createdAt draft' = 3%N.
Proof.
  intros w w'.
  destruct (draft_edit_keeps_generated 4 (EditTitle "Grandma's Soup") w
              (newRecipe soup 3 None susu))
    as ((draft' & Hd & Hid & _ & Hcreated & _) & _); [reflexivity|reflexivity|].
  exists draft'. split; [exact Hd|].
  split; [|split; [exact Hid|exact Hcreated]].
  unfold w' in Hd. simpl in Hd. by injection Hd as <-.
Defined.

(** X16.  Saving after the title has been edited: with an empty title
    nothing is saved and the draft stays in review; with a non-empty title
    the draft with the edited title becomes the first recipe of the
    collection, the draft is cleared and the home view is shown. *)
Theorem title_gates_save (t1 t2 : N) (title : string) w (draft : Recipe.t) :
  draftRecipe (app w) = Some draft ->
  let w' := run [(t1, EditTitle title); (t2, ClickSave)] w in
  (truthy title = false ->
     recipes (app w') = recipes (app w)
     /\ draftRecipe (app w') = Some (Recipe.with_title title draft)
     /\ creationStep (app w') = creationStep (app w)
     /\ view (app w') = view (app w))
  /\ (truthy title = true ->
      recipes (app w') = Recipe.with_title title draft :: recipes (app w)
      /\ draftRecipe (app w') = None
      /\ creationStep (app w') = MEDIA
      /\ view (app w') = HOME).
Proof.
  intros Hd w'. subst w'. unfold run. simpl. unfold editDraft. rewrite Hd.
  unfold handleSaveRecipe. simpl.
  split; intros ->; by repeat split.
Qed.

Lemma title_gates_save_witness :
  let w := run [(1%N, ClickCreate); (2%N, StartRecording true);
                (2%N, RecordingComplete 0);
                (3%N, Settle 0 (RecipeFromMedia (Fulfilled soup)))] (initialWorld 0) in
  let w' := run [(4%N, EditTitle ""); (5%N, ClickSave)] w in
  recipes (app w') = INITIAL_RECIPES 0
  /\ creationStep (app w') = REVIEW.
Proof.
  intros w w'.
  destruct (title_gates_save 4 5 "" w (newRecipe soup 3 None susu)) as [Hempty _];
    [reflexivity|].
  destruct Hempty as (Hrec & _ & Hstep & _); [reflexivity|].
  split; [exact Hrec|exact Hstep].
Defined.

(** X17.  A second click on the save button changes nothing: a draft is
    saved at most once, and one click adds at most one recipe. *)
Theorem save_twice_saves_once (t1 t2 : N) w :
  step t2 ClickSave (step t1 ClickSave w) = step t1 ClickSave w
  /\ length (recipes (app (step t1 ClickSave w))) <= S (length (recipes (app w))).
Proof.
  cbn [step]. unfold on_app, handleSaveRecipe. simpl.
  destruct (draftRecipe (app w)) as [draft|] eqn:Hd.
  - destruct (truthy (Recipe.title draft)) eqn:Ht; simpl.
    + split; [done|lia].
    + rewrite Hd, Ht. split; [done|lia].
  - rewrite Hd. split; [done|lia].
Qed.

End CollectionMore.

(** ** The gateway: polling and thumbnails *)

Section Gateway.

Definition running (o : Operation) : Prop := done o = false.
Definition imageless (p : Part) : Prop := inlineData p = None.

Lemma poll_until_done_None operation polls :
  poll_until_done operation polls = None <-> Forall running (operation :: polls).
Proof.
  revert operation. induction polls as [|next rest IH]; intros operation; simpl.
  - destruct (done operation) eqn:E; split; try done.
    + intros H. apply Forall_cons in H as [H _]. red in H. congruence.
    + intros _. by repeat constructor.
  - destruct (done operation) eqn:E.
    + split; [done|]. intros H. apply Forall_cons in H as [H _]. red in H. congruence.
    + rewrite IH. split; [by constructor|]. intros H. by apply Forall_cons in H as [_ H].
Qed.

Lemma poll_until_done_Some operation polls o :
  poll_until_done operation polls = Some o ->
  exists before after,
    operation :: polls = (before ++ o :: after)%list
    /\ Forall running before /\ done o = true.
Proof.
  revert operation. induction polls as [|next rest IH]; intros operation; simpl.
  - destruct (done operation) eqn:E; [|done]. intros [= <-].
    by exists [], [].
  - destruct (done operation) eqn:E.
    + intros [= <-]. by exists [], (next :: rest).
    + intros H. destruct (IH next H) as (before & after & E1 & E2 & E3).
      exists (operation :: before), after. rewrite E1. split; [done|].
      split; [by constructor|done].
Qed.

Lemma poll_until_done_first before o after :
  Forall running before -> done o = true ->
  forall operation polls, operation :: polls = (before ++ o :: after)%list ->
  poll_until_done operation polls = Some o.
Proof.
  induction before as [|b before IH]; intros Hb Ho operation polls E; simpl in E.
  - injection E as -> ->. destruct after; simpl; by rewrite Ho.
  - injection E as -> ->. apply Forall_cons in Hb as [Hb1 Hb2]. red in Hb1.
    destruct before as [|b' before]; simpl in *; rewrite Hb1.
    + by apply (IH Hb2 Ho o after).
    + by apply (IH Hb2 Ho b' (before ++ o :: after)%list).
Qed.

(** X18.  The polling loop of the video generation goes on exactly as long
    as every snapshot of the operation is not done.  It stops at the first
    snapshot that is done, and that snapshot alone decides the outcome
    (fulfilled when it has a result URI, rejected otherwise): what later
    polls would return has no influence. *)
Theorem video_polling_outcome (submitted : Operation) (polls : list Operation)
    (objectUrl : string) :
  (generateRecipeVideo (VideoSubmitted submitted polls objectUrl) = None
   <-> Forall running (submitted :: polls))
  /\ (forall before o after,
        submitted :: polls = (before ++ o :: after)%list ->
        Forall running before -> done o = true ->
        generateRecipeVideo (VideoSubmitted submitted polls objectUrl)
        = Some (if truthy_opt (uri o) then Fulfilled objectUrl else Rejected)
        /\ forall later,
             generateRecipeVideo
               (VideoSubmitted submitted (polls ++ later) objectUrl)
             = generateRecipeVideo (VideoSubmitted submitted polls objectUrl)).
Proof.
  split.
  - rewrite <- poll_until_done_None. cbn [generateRecipeVideo].
    destruct (poll_until_done submitted polls) as [o|]; [|done].
    split; [|discriminate]. destruct (truthy_opt (uri o)); discriminate.
  - intros before o after E Hb Ho.
    assert (H1 : poll_until_done submitted polls = Some o)
      by by eapply poll_until_done_first.
    split; [simpl; rewrite H1; by destruct (truthy_opt (uri o))|].
    intros later. simpl. rewrite H1.
    rewrite (poll_until_done_first before o (after ++ later) Hb Ho); [done|].
    rewrite app_comm_cons, E, <- app_assoc. done.
Qed.

Lemma first_inline_image_None parts :
  first_inline_image parts = None <-> Forall imageless parts.
Proof.
  induction parts as [|part rest IH]; simpl; [done|].
  destruct (inlineData part) eqn:E.
  - split; [done|]. intros H. apply Forall_cons in H as [H _]. red in H. congruence.
  - rewrite IH. split; [by constructor|]. intros H. by apply Forall_cons in H as [_ H].
Qed.

Lemma first_inline_image_Some parts url :
  first_inline_image parts = Some url <->
  exists before part after data,
    parts = (before ++ part :: after)%list
    /\ Forall imageless before
    /\ inlineData part = Some data
    /\ url = "data:image/png;base64," +:+ data.
Proof.
  revert url. induction parts as [|part rest IH]; intros url; simpl.
  - split; [done|]. intros (before & p & after & data & E & _). by destruct before.
  - destruct (inlineData part) as [data|] eqn:E.
    + split.
      * intros [= <-]. by exists [], part, rest, data.
      * intros ([|b before] & p & after & data' & E1 & E2 & E3 & ->); simpl in E1.
        -- injection E1 as <- <-. congruence.
        -- injection E1 as <- ->. apply Forall_cons in E2 as [E2 _]. red in E2. congruence.
    + rewrite IH. split.
      * intros (before & p & after & data & -> & ? & ? & ->).
        exists (part :: before), p, after, data. split; [done|].
        split; [by constructor|done].
      * intros ([|b before] & p & after & data & E1 & E2 & E3 & ->); simpl in E1.
        -- injection E1 as <- <-. congruence.
        -- injection E1 as <- ->. apply Forall_cons in E2 as [_ E2].
           by exists before, p, after, data.
Qed.

(** X19.  The thumbnail of a step is the empty string exactly when the
    request of that step threw or its answer holds no inline image;
    otherwise it is the PNG data URL of the first inline image of the
    answer. *)
Theorem thumbnail_empty_iff_failed (g : nat -> string -> ContentResult)
    (inst : string) (index : nat) :
  (instruction_thumbnail g inst index = "" <->
   g index (thumbnail_prompt inst) = Throws
   \/ exists parts,
        g index (thumbnail_prompt inst) = Responds parts /\ Forall imageless parts)
  /\ (forall before part after data,
        g index (thumbnail_prompt inst) = Responds (before ++ part :: after) ->
        Forall imageless before -> inlineData part = Some data ->
        instruction_thumbnail g inst index = "data:image/png;base64," +:+ data).
Proof.
  unfold instruction_thumbnail. split.
  - destruct (g index (thumbnail_prompt inst)) as [|parts]; [split; auto|].
    destruct (first_inline_image parts) as [url|] eqn:E.
    + apply first_inline_image_Some in E as (before & part & after & data & -> & Hb & Hd & ->).
      split; [discriminate|]. intros [H|(parts & [= <-] & H)]; [done|].
      apply Forall_app in H as [_ H]. apply Forall_cons in H as [H _]. red in H. congruence.
    + split; [|done]. intros _. right. exists parts. split; [done|].
      by apply first_inline_image_None.
  - intros before part after data -> Hb Hd.
    assert (E : first_inline_image (before ++ part :: after)
                = Some ("data:image/png;base64," +:+ data)).
    { apply first_inline_image_Some. by exists before, part, after, data. }
    by rewrite E.
Qed.

End Gateway.

(** ** The start frame of a video request *)

(** [s] has no comma. *)
Fixpoint comma_free (s : string) : bool :=
  match s with
  | EmptyString => true
  | String c rest => negb (Ascii.eqb c comma) && comma_free rest
  end.

Section StartFrame.

Lemma comma_is_comma : String comma EmptyString = ",".
Proof. reflexivity. Qed.

Lemma split_comma_comma_free s : comma_free s = true -> split_comma s = [s].
Proof.
  induction s as [|c rest IH]; simpl; [done|].
  destruct (Ascii.eqb c comma); simpl; [done|]. intros H. by rewrite (IH H).
Qed.

Lemma split_comma_app prefix rest :
  comma_free prefix = true ->
  split_comma (prefix +:+ "," +:+ rest) = prefix :: split_comma rest.
Proof.
  induction prefix as [|c prefix IH]; simpl; [done|].
  destruct (Ascii.eqb c comma); simpl; [done|]. intros H. by rewrite (IH H).
Qed.

Lemma second_piece_app prefix data :
  comma_free prefix = true -> comma_free data = true ->
  second_piece (prefix +:+ "," +:+ data) = Some data.
Proof.
  intros Hp Hd. unfold second_piece.
  by rewrite (split_comma_app _ _ Hp), (split_comma_comma_free _ Hd).
Qed.

Lemma truthy_app_l (a b : string) : truthy a = true -> truthy (a +:+ b) = true.
Proof. by destruct a. Qed.

(** X20.  The start frame of a video request.  For a recipe image that is
    a data URL the bytes after the comma are submitted, with the prompt of
    the dish; this holds for every image the hero-image generation returns.
    A recipe image without a comma (a plain web address) is submitted with
    the same prompt and no start frame, and the persona image is not
    fetched.  Without a recipe image the persona image is fetched: the
    request carries the persona prompt and the fetched bytes, and no request
    is submitted when the fetch is rejected. *)
Theorem video_start_frame (readAsDataURL : string -> Settled string)
    (title : string) (personaImageUrl : option string) :
  (forall prefix data,
     comma_free prefix = true -> comma_free data = true ->
     truthy prefix = true -> truthy data = true ->
     generateRecipeVideo_request readAsDataURL title
       (Some (prefix +:+ "," +:+ data)) personaImageUrl
     = Fulfilled {| request_prompt := video_prompt_of_image title;
                    request_imageBytes := Some data |})
  /\ (forall parts url,
        first_inline_image parts = Some url ->
        (forall part data, part ∈ parts -> inlineData part = Some data ->
           comma_free data = true /\ truthy data = true) ->
        exists data,
          url = "data:image/png;base64," +:+ data
          /\ generateRecipeVideo_request readAsDataURL title (Some url)
               personaImageUrl
             = Fulfilled {| request_prompt := video_prompt_of_image title;
                            request_imageBytes := Some data |})
  /\ (forall url,
        comma_free url = true -> truthy url = true ->
        generateRecipeVideo_request readAsDataURL title (Some url) personaImageUrl
        = Fulfilled {| request_prompt := video_prompt_of_image title;
                       request_imageBytes := None |})
  /\ (forall persona,
        truthy persona = true ->
        generateRecipeVideo_request readAsDataURL title None (Some persona)
        = match readAsDataURL persona with
          | Fulfilled base64 =>
              Fulfilled {| request_prompt := video_prompt_of_persona title;
                           request_imageBytes := or_undefined (second_piece base64) |}
          | Rejected => Rejected
          end).
Proof.
  assert (Hframe : forall prefix data,
     comma_free prefix = true -> comma_free data = true ->
     truthy prefix = true -> truthy data = true ->
     generateRecipeVideo_request readAsDataURL title
       (Some (prefix +:+ "," +:+ data)) personaImageUrl
     = Fulfilled {| request_prompt := video_prompt_of_image title;
                    request_imageBytes := Some data |}).
  { intros prefix data Hp Hd Htp Htd. unfold generateRecipeVideo_request.
    cbn [truthy_opt]. rewrite (truthy_app_l _ _ Htp).
    cbn [mbind option_bind]. rewrite (second_piece_app _ _ Hp Hd).
    cbn [or_undefined]. by rewrite Htd. }
  split; [exact Hframe|]. split; [|split].
  - intros parts url Hurl Hparts.
    apply first_inline_image_Some in Hurl
      as (before & part & after & data & -> & _ & Hdata & ->).
    destruct (Hparts part data) as [Hc Ht]; [|done|].
    { apply elem_of_app. right. apply elem_of_cons. by left. }
    exists data. split; [done|].
    by apply (Hframe "data:image/png;base64" data).
  - intros url Hc Ht. unfold generateRecipeVideo_request. cbn [truthy_opt].
    rewrite Ht. cbn [mbind option_bind]. unfold second_piece.
    by rewrite (split_comma_comma_free _ Hc).
  - intros persona Ht. unfold generateRecipeVideo_request, urlToBase64.
    cbn [truthy_opt]. rewrite Ht. by destruct (readAsDataURL persona).
Qed.

End StartFrame.

(** ** [SafeImage] *)

Section SafeImage.


End SafeImage.

(** ** The tag filter *)

Section TagFilter.

Lemma filter_sublist {A} (p : A -> bool) (l : list A) :
  List.filter p l `sublist_of` l.
Proof.
  induction l as [|x l IH]; simpl; [constructor|].
  destruct (p x); by constructor.
Qed.

Lemma unique_acc (a seen : list string) :
  NoDup seen ->
  let r := fold_left (fun seen x => if includes seen x then seen else (seen ++ [x])%list)
             a seen in
  NoDup r /\ forall x, x ∈ r <-> x ∈ seen \/ x ∈ a.
Proof.
  revert seen. induction a as [|y a IH]; intros seen Hnd; simpl.
  - split; [done|]. intros x. rewrite elem_of_nil. tauto.
  - destruct (includes seen y) eqn:E.
    + destruct (IH seen Hnd) as [H1 H2]. split; [done|].
      intros x. rewrite H2, elem_of_cons. apply includes_spec in E.
      split; [tauto|]. intros [?|[->|?]]; tauto.
    + apply includes_false in E.
      destruct (IH (seen ++ [y])%list) as [H1 H2].
      { apply NoDup_app. split; [done|]. split; [|apply NoDup_singleton].
        intros x Hx Hx'. apply list_elem_of_singleton in Hx'. by subst. }
      split; [done|]. intros x.
      rewrite H2, elem_of_app, list_elem_of_singleton, elem_of_cons. tauto.
Qed.

Lemma elem_of_flat_map_tags (recipes : list Recipe.t) (tag : string) :
  tag ∈ flat_map Recipe.tags recipes <->
  exists r, r ∈ recipes /\ tag ∈ Recipe.tags r.
Proof.
  rewrite list_elem_of_In, in_flat_map. split; intros (r & H1 & H2); exists r;
    by rewrite ?list_elem_of_In in *.
Qed.

Lemma code_units_leb_total (a b : list N) :
  code_units_leb a b = true \/ code_units_leb b a = true.
Proof.
  revert b. induction a as [|x a IH]; intros [|y b]; simpl; auto.
  destruct (N.ltb_spec x y); [by left|].
  destruct (N.ltb_spec y x); [by right|]. apply IH.
Qed.

#[local] Instance string_le_total : Total string_le.
Proof. intros a b. apply code_units_leb_total. Qed.

(** [code_units_leb] is the lexicographic order: [a] is a prefix of [b], or
    at the first place where they differ [a] has the smaller unit. *)
Lemma code_units_leb_spec (a b : list N) :
  code_units_leb a b = true <->
  (exists rest, b = (a ++ rest)%list)
  \/ (exists common x y ra rb,
        a = (common ++ x :: ra)%list /\ b = (common ++ y :: rb)%list /\ (x < y)%N).
Proof.
  revert b. induction a as [|x a IH]; intros b.
  - simpl. split; [|done]. intros _. left. by exists b.
  - destruct b as [|y b]; simpl.
    + split; [done|]. intros [[rest [=]] | (common & x' & y' & ra & rb & _ & E & _)].
      by destruct common.
    + destruct (N.ltb_spec x y) as [Hxy|Hxy].
      { split; [|done]. intros _. right. by exists [], x, y, a, b. }
      destruct (N.ltb_spec y x) as [Hyx|Hyx].
      { split; [done|].
        intros [[rest [= -> _]] | (common & x' & y' & ra & rb & Ea & Eb & Hlt)];
          [lia|].
        destruct common as [|c common]; simplify_eq/=; lia. }
      assert (x = y) as -> by lia. rewrite IH. split.
      * intros [[rest ->] | (common & x' & y' & ra & rb & -> & -> & Hlt)].
        -- left. by exists rest.
        -- right. by exists (y :: common), x', y', ra, rb.
      * intros [[rest [= ->]] | (common & x' & y' & ra & rb & Ea & Eb & Hlt)].
        -- left. by exists rest.
        -- destruct common as [|c common]; simplify_eq/=; [lia|].
           right. by exists common, x', y', ra, rb.
Qed.

(** X22.  The tag bar of the home view offers every tag of every recipe
    once, sorted by UTF-16 code units, and nothing else: a tag comes before
    another when its code units are a prefix of the other's or, at the first
    place where they differ, it has the smaller unit.  Without a selected
    tag all recipes are listed; with a (non-empty) selected tag exactly the
    recipes that carry it, in their order in the collection.  Selecting an
    offered tag never gives an empty list. *)
Theorem tag_filter_spec (recipes : list Recipe.t) :
  NoDup (allTags recipes)
  /\ Sorted string_le (allTags recipes)
  /\ (forall a b,
        string_le a b <->
        (exists rest, code_units b = (code_units a ++ rest)%list)
        \/ (exists common x y ra rb,
              code_units a = (common ++ x :: ra)%list
              /\ code_units b = (common ++ y :: rb)%list /\ (x < y)%N))
  /\ (forall tag, tag ∈ allTags recipes <->
        exists r, r ∈ recipes /\ tag ∈ Recipe.tags r)
  /\ filteredRecipes None recipes = recipes
  /\ (forall tag, truthy tag = true ->
        filteredRecipes (Some tag) recipes `sublist_of` recipes
        /\ forall r, r ∈ filteredRecipes (Some tag) recipes <->
                     r ∈ recipes /\ tag ∈ Recipe.tags r)
  /\ (forall tag, tag ∈ allTags recipes ->
        filteredRecipes (Some tag) recipes <> []).
Proof.
  destruct (unique_acc (flat_map Recipe.tags recipes) [] (NoDup_nil_2)) as [Hnd Hin].
  fold (unique (flat_map Recipe.tags recipes)) in Hnd, Hin.
  assert (Htags : forall tag, tag ∈ allTags recipes <->
                    exists r, r ∈ recipes /\ tag ∈ Recipe.tags r).
  { intros tag. unfold allTags. rewrite merge_sort_Permutation, Hin, elem_of_nil.
    rewrite elem_of_flat_map_tags. tauto. }
  assert (Hfilter : forall tag r,
            r ∈ List.filter (fun r => includes (Recipe.tags r) tag) recipes
            <-> r ∈ recipes /\ tag ∈ Recipe.tags r).
  { intros tag r. by rewrite !list_elem_of_In, filter_In, includes_spec, list_elem_of_In. }
  split; [unfold allTags; by rewrite merge_sort_Permutation|].
  split; [apply Sorted_merge_sort; apply _|].
  split; [intros a b; apply code_units_leb_spec|].
  split; [exact Htags|]. split; [done|].
  split.
  - intros tag Ht. unfold filteredRecipes. rewrite Ht. split; [|apply Hfilter].
    apply filter_sublist.
  - intros tag Htag. apply Htags in Htag as (r & Hr & Hrt).
    unfold filteredRecipes. destruct (truthy tag).
    + intros E. assert (H : r ∈ List.filter (fun r => includes (Recipe.tags r) tag) recipes)
        by by apply Hfilter.
      rewrite E in H. by apply elem_of_nil in H.
    + intros ->. by apply elem_of_nil in Hr.
Qed.

(** A generated recipe with the given tags. *)
Definition tagged (tags : list string) : RecipeGenResponse.t := {|
  RecipeGenResponse.title := "Toast";
  RecipeGenResponse.description := "Crisp";
  RecipeGenResponse.ingredients := [];
  RecipeGenResponse.instructions := ["Toast."];
  RecipeGenResponse.tips := "Butter.";
  RecipeGenResponse.servings := 1;
  RecipeGenResponse.prepTime := "2 mins";
  RecipeGenResponse.tags := tags;
  RecipeGenResponse.difficulty := Easy;
  RecipeGenResponse.calories := 90
|}.

(** Two recipes with tags beyond ASCII: the emoji (U+1F600, the code units
    D83D DE00) is sorted before the fullwidth tilde (U+FF5E), as the code
    units order them, though its UTF-8 bytes and its code point are the
    larger ones. *)
Lemma tag_filter_spec_witness :
  let recipes :=
    [newRecipe (tagged ["～"; "Dinner"; "😀"]) 7 None susu;
     newRecipe (tagged ["dinner"; "Dinner"; "Émile"]) 8 None susu] in
  allTags recipes = ["Dinner"; "dinner"; "Émile"; "😀"; "～"]
  /\ Sorted string_le (allTags recipes)
  /\ code_units "😀" = [55357; 56832]%N
  /\ code_units "～" = [65374]%N
  /\ code_units "Émile" = [201; 109; 105; 108; 101]%N
  /\ String.leb "～" "😀" = true
  /\ Recipe.id <$> filteredRecipes (Some "Dinner") recipes = ["rec-7"; "rec-8"]
  /\ Recipe.id <$> filteredRecipes (Some "😀") recipes = ["rec-7"].
Proof.
  intros recipes.
  destruct (tag_filter_spec recipes) as (_ & Hsorted & _).
  split; [vm_compute; reflexivity|]. split; [exact Hsorted|].
  repeat (split; [vm_compute; reflexivity|]). vm_compute; reflexivity.
Defined.

End TagFilter.

(** ** Ask Susu *)

Section AskSusu.



End AskSusu.

(** ** The mount, cooking mode and the serving scale *)

Section Mount.

(** X24.  After the mount the active profile is the seed profile of Susu,
    whatever was saved.  A saved roster is restored entry by entry, except
    that every entry with the id of Susu is overwritten by the seed profile:
    the favorites and the shopping list saved for Susu are gone.  Saved
    recipes are restored; without saved data the seed data are used. *)
Theorem mount_resets_susu (t0 : N) (savedUsers : option (list User.t))
    (savedRecipes : option (list Recipe.t)) :
  let s := mountedState t0 savedUsers savedRecipes in
  let saved := default DEFAULT_USERS savedUsers in
  currentUser s = susu
  /\ length (users s) = length saved
  /\ (forall i u, saved !! i = Some u ->
        users s !! i = Some (if String.eqb (User.id u) "susu" then susu else u))
  /\ (forall u, u ∈ users s -> User.id u = "susu" ->
        User.favorites u = [] /\ User.shoppingList u = [])
  /\ recipes s = default (INITIAL_RECIPES t0) savedRecipes
  /\ view s = HOME /\ selectedRecipe s = None /\ draftRecipe s = None.
Proof.
  intros s saved.
  assert (Hu : users s = replace_user susu saved).
  { subst s saved. by destruct savedUsers, savedRecipes. }
  split; [by destruct savedUsers, savedRecipes|].
  split; [rewrite Hu; apply length_map|].
  split.
  { intros i u Hi. rewrite Hu. unfold replace_user.
    rewrite list_lookup_fmap, Hi. done. }
  split.
  { intros u Hin Hid. rewrite Hu in Hin. unfold replace_user in Hin.
    apply list_elem_of_fmap in Hin as (u0 & -> & _).
    destruct (String.eqb (User.id u0) (User.id susu)) eqn:E; [done|].
    apply String.eqb_neq in E. done. }
  split; [by destruct savedUsers, savedRecipes|].
  by destruct savedUsers, savedRecipes.
Qed.

End Mount.

Section CookingMore.

(** [k] clicks on a button. *)
Definition clicks (k : nat) (e : Event) (t : N) : list (N * Event) :=
  replicate k (t, e).

Lemma run_clicks_S k e t w :
  run (clicks (S k) e t) w = step t e (run (clicks k e t) w).
Proof.
  unfold clicks. replace (S k) with (k + 1)%nat by lia.
  rewrite replicate_add. rewrite run_app. reflexivity.
Qed.

Lemma next_clicks (k : nat) (t : N) (selected : Recipe.t) (w : World) :
  selectedRecipe (app w) = Some selected ->
  currentStepIndex (app w) = 0%Z ->
  let w' := run (clicks k ClickNextStep t) w in
  let len := Z.of_nat (length (Recipe.instructions selected)) in
  selectedRecipe (app w') = Some selected
  /\ currentStepIndex (app w')
     = (if k is O then 0 else Z.min (len - 1) (Z.of_nat k))%Z.
Proof.
  intros Hsel H0. induction k as [|k IH]; [done|]. cbn zeta in *.
  rewrite run_clicks_S. destruct IH as [IHsel IHi].
  set (w0 := run (clicks k ClickNextStep t) w) in *.
  simpl. unfold nextStep. rewrite IHsel. simpl. split; [done|].
  rewrite IHi. unfold Math_min_int. destruct k; lia.
Qed.

(** X25.  Every instruction of the selected recipe can be reached: [k]
    clicks on the next-step button after entering cooking mode show the
    instruction at index [k], still in cooking mode, and [k] clicks on the
    previous-step button lead back to the first one. *)
Theorem next_reaches_every_step (now t : N) (w : World) (selected : Recipe.t)
    (k : nat) (text : string) :
  selectedRecipe (app w) = Some selected ->
  Recipe.instructions selected !! k = Some text ->
  let w' := run (clicks k ClickNextStep t) (step now ClickStartCooking w) in
  currentStepIndex (app w') = Z.of_nat k
  /\ currentStep (app w') = Some (Some text)
  /\ view (app w') = COOKING_MODE
  /\ currentStepIndex (app (run (clicks k ClickPreviousStep t) w')) = 0%Z.
Proof.
  intros Hsel Hk w'.
  pose proof (lookup_lt_Some _ _ _ Hk) as Hlt.
  destruct (next_clicks k t selected (step now ClickStartCooking w)) as [Hs Hi];
    [done|done|]. fold w' in Hs, Hi.
  assert (Hi' : currentStepIndex (app w') = Z.of_nat k) by (destruct k; lia).
  split; [done|]. split.
  { unfold currentStep, array_get. rewrite Hs, Hi'.
    destruct (Z.ltb_spec (Z.of_nat k) 0); [lia|]. by rewrite Nat2Z.id, Hk. }
  split.
  { subst w'. clear. induction k as [|k IH]; [done|].
    rewrite run_clicks_S. simpl. unfold nextStep.
    destruct (selectedRecipe _); exact IH. }
  assert (G : forall j v, (currentStepIndex (app v) <= Z.of_nat j)%Z ->
            (0 <= currentStepIndex (app v))%Z ->
            currentStepIndex (app (run (clicks j ClickPreviousStep t) v)) = 0%Z).
  { clear. intros j v Hle Hge.
    assert (currentStepIndex (app (run (clicks j ClickPreviousStep t) v))
            = Z.max 0 (currentStepIndex (app v) - Z.of_nat j)) as ->; [|lia].
    clear Hle. induction j as [|j IH]; [simpl; lia|].
    rewrite run_clicks_S. simpl. rewrite IH. unfold Math_max_int. lia. }
  apply G; lia.
Qed.

Lemma next_reaches_every_step_witness :
  let w := step 1 (ClickRecipe 0) (initialWorld 0) in
  let w' := run (clicks 3 ClickNextStep 5) (step 2 ClickStartCooking w) in
  currentStepIndex (app w') = 3%Z
  /\ currentStep (app w')
     = Some (Recipe.instructions (recipe_rec_1 0) !! 3%nat).
Proof.
  intros w w'.
  destruct (Recipe.instructions (recipe_rec_1 0) !! 3%nat) as [text|] eqn:E;
    [|discriminate E].
  destruct (next_reaches_every_step 2 5 w (recipe_rec_1 0) 3 text eq_refl E)
    as (H1 & H2 & _).
  split; [exact H1 | exact H2].
Defined.

(** A generated recipe without instructions. *)
Definition broth : RecipeGenResponse.t := {|
  RecipeGenResponse.title := "Broth";
  RecipeGenResponse.description := "Clear";
  RecipeGenResponse.ingredients := [];
  RecipeGenResponse.instructions := [];
  RecipeGenResponse.tips := "Skim.";
  RecipeGenResponse.servings := 2;
  RecipeGenResponse.prepTime := "5 mins";
  RecipeGenResponse.tags := [];
  RecipeGenResponse.difficulty := Easy;
  RecipeGenResponse.calories := 5
|}.

(** X26.  Cooking mode on a recipe without instructions: there is no
    current step to show, and a click on the next-step button sets the step
    index to -1 (the header then reads step 0 of 0), where it stays under
    further next-step clicks; the previous-step button sets it back to 0. *)
Theorem cooking_without_instructions (now : N) (w : World) (selected : Recipe.t) :
  selectedRecipe (app w) = Some selected ->
  Recipe.instructions selected = [] ->
  let entered := step now ClickStartCooking w in
  let after_next := step now ClickNextStep entered in
  currentStep (app entered) = Some None
  /\ currentStepIndex (app after_next) = (-1)%Z
  /\ currentStep (app after_next) = Some None
  /\ currentStepIndex (app (step now ClickNextStep after_next)) = (-1)%Z
  /\ currentStepIndex (app (step now ClickPreviousStep after_next)) = 0%Z.
Proof.
  intros Hsel Hnil entered after_next.
  subst after_next entered. simpl. unfold nextStep, currentStep. simpl.
  rewrite Hsel. simpl. rewrite Hsel, Hnil. simpl. done.
Qed.

Lemma cooking_without_instructions_witness :
  let bare := newRecipe broth 7 None susu in
  let w := on_app (openRecipe bare) (initialWorld 0) in
  currentStepIndex (app (step 2 ClickNextStep (step 1 ClickStartCooking w)))
  = (-1)%Z.
Proof.
  intros bare w.
  exact (proj1 (proj2 (cooking_without_instructions 1 w bare eq_refl eq_refl))).
Defined.

End CookingMore.

Section ScaleMore.
Local Open Scope Q_scope.

Lemma plus_clicks (p : nat) (t : N) (w : World) :
  servingsMultiplier (app (run (clicks p ClickServingsPlus t) w))
  == servingsMultiplier (app w) + inject_Z (Z.of_nat p) * (1 # 2).
Proof.
  induction p as [|p IH].
  - change (run (clicks 0 ClickServingsPlus t) w) with w. change (inject_Z (Z.of_nat 0)) with 0%Q. lra.
  - rewrite run_clicks_S. simpl. rewrite IH.
    rewrite Nat2Z.inj_succ. unfold Z.succ. rewrite inject_Z_plus.
    change (inject_Z 1) with 1%Q. lra.
Qed.

Lemma Math_max_spec (x y : Q) :
  (x <= y /\ Math_max x y = y) \/ (y < x /\ Math_max x y = x).
Proof.
  unfold Math_max. destruct (Qle_bool x y) eqn:E.
  - left. by apply Qle_bool_iff in E.
  - right. split; [|done]. apply Qnot_le_lt. intros H.
    apply Qle_bool_iff in H. congruence.
Qed.

Lemma minus_clicks (q : nat) (t : N) (w : World) :
  1 # 2 <= servingsMultiplier (app w) ->
  let m := servingsMultiplier (app (run (clicks q ClickServingsMinus t) w)) in
  let x := servingsMultiplier (app w) - inject_Z (Z.of_nat q) * (1 # 2) in
  (x <= 1 # 2 /\ m == 1 # 2) \/ ((1 # 2) < x /\ m == x).
Proof.
  intros Hm. induction q as [|q IH].
  - change (run (clicks 0 ClickServingsMinus t) w) with w. change (inject_Z (Z.of_nat 0)) with 0%Q.
    destruct (Qlt_le_dec (1 # 2) (servingsMultiplier (app w))).
    + right. split; lra.
    + left. split; lra.
  - cbn zeta in *. rewrite run_clicks_S. simpl.
    set (m0 := servingsMultiplier (app (run (clicks q ClickServingsMinus t) w))) in *.
    rewrite Nat2Z.inj_succ. unfold Z.succ. rewrite inject_Z_plus.
    change (inject_Z 1) with 1%Q.
    destruct (Math_max_spec (1 # 2) (m0 - (1 # 2))) as [[H1 ->]|[H1 ->]];
      destruct IH as [[H2 H3]|[H2 H3]].
    + lra.
    + destruct (Qlt_le_dec (1 # 2) (m0 - (1 # 2))).
      * right. split; lra.
      * left. split; lra.
    + left. split; lra.
    + left. split; lra.
Qed.

(** X27.  The serving multiplier after [p] clicks on [+] followed by [q]
    clicks on [-] on a freshly opened recipe is [1 + p/2 - q/2], but never
    less than one half.  From there, [j] clicks on [+] followed by [j] clicks
    on [-] give the same multiplier again. *)
Theorem serving_scale_arithmetic (recipe : Recipe.t) (w : World) (p q : nat)
    (t : N) :
  let opened := on_app (openRecipe recipe) w in
  let w' := run (clicks p ClickServingsPlus t ++ clicks q ClickServingsMinus t)
              opened in
  let x := 1 + inject_Z (Z.of_nat p) * (1 # 2) - inject_Z (Z.of_nat q) * (1 # 2) in
  servingsMultiplier (app w') == (if Qle_bool x (1 # 2) then 1 # 2 else x)
  /\ (forall j : nat,
      servingsMultiplier
        (app (run (clicks j ClickServingsPlus t ++ clicks j ClickServingsMinus t)
                w'))
      == servingsMultiplier (app w')).
Proof.
  intros opened w' x.
  assert (Hp : forall v k,
            servingsMultiplier (app (run (clicks k ClickServingsPlus t) v))
            == servingsMultiplier (app v) + inject_Z (Z.of_nat k) * (1 # 2))
    by (intros; apply plus_clicks).
  assert (Hw' : (x <= 1 # 2 /\ servingsMultiplier (app w') == 1 # 2)
                \/ ((1 # 2) < x /\ servingsMultiplier (app w') == x)).
  { subst w'. rewrite run_app.
    set (v := run (clicks p ClickServingsPlus t) opened).
    assert (Hv : servingsMultiplier (app v) == 1 + inject_Z (Z.of_nat p) * (1 # 2)).
    { subst v. rewrite Hp. subst opened. simpl. lra. }
    assert (Hpos : 0 <= inject_Z (Z.of_nat p)).
    { change 0%Q with (inject_Z 0). rewrite <- Zle_Qle. lia. }
    destruct (minus_clicks q t v) as [[H1 H2]|[H1 H2]].
    - rewrite Hv. lra.
    - left. split; [|done]. subst x. rewrite Hv in H1. done.
    - right. split; [by subst x; rewrite Hv in H1|]. rewrite H2, Hv. done. }
  split.
  { destruct Hw' as [[H1 H2]|[H1 H2]].
    - apply Qle_bool_iff in H1. by rewrite H1.
    - destruct (Qle_bool x (1 # 2)) eqn:E; [|done].
      apply Qle_bool_iff in E. lra. }
  intros j. rewrite run_app.
  set (v := run (clicks j ClickServingsPlus t) w').
  assert (Hv : servingsMultiplier (app v)
               == servingsMultiplier (app w') + inject_Z (Z.of_nat j) * (1 # 2))
    by apply Hp.
  assert (Hq : 0 <= inject_Z (Z.of_nat j)).
  { change 0%Q with (inject_Z 0). rewrite <- Zle_Qle. lia. }
  assert (Hge : 1 # 2 <= servingsMultiplier (app w')).
  { destruct Hw' as [[_ ->]|[H1 ->]]; lra. }
  destruct (minus_clicks j t v) as [[H1 H2]|[H1 H2]].
  - rewrite Hv. lra.
  - rewrite Hv in H1. rewrite H2. lra.
  - rewrite H2, Hv. lra.
Qed.

End ScaleMore.

(** ** The author of a committed recipe *)

Section Author.

Implicit Types (s : AppState) (w : World) (u user : User.t) (a : string).

Lemma ViewState_eqb_eq (x y : ViewState) : ViewState_eqb x y = true <-> x = y.
Proof. destruct x, y; simpl; split; congruence. Qed.

Lemma capturing_view s : capturing s = true -> view s = CREATE_RECIPE.
Proof.
  unfold capturing. intros H. apply andb_prop in H as [H _].
  by apply ViewState_eqb_eq.
Qed.

Lemma reviewing_view s : reviewing s = true -> view s = CREATE_RECIPE.
Proof.
  unfold reviewing. intros H. apply andb_prop in H as [H _].
  apply andb_prop in H as [H _]. by apply ViewState_eqb_eq.
Qed.

Lemma admin_is_replace_user a user roster :
  admin_is a user -> (forall u, u ∈ roster -> admin_is a u) ->
  forall u, u ∈ replace_user user roster -> admin_is a u.
Proof.
  intros Huser Hroster u' Hu'. apply elem_of_replace_user in Hu' as (u & Hu & ->).
  destruct (String.eqb (User.id u) (User.id user)); auto.
Qed.

Lemma admin_is_same_person a u u' : same_person u u' -> admin_is a u -> admin_is a u'.
Proof. intros [Hid Hrole] H. unfold admin_is, is_ADMIN in *. rewrite Hid, Hrole. exact H. Qed.

Lemma is_ADMIN_same_person u u' : same_person u u' -> is_ADMIN u' = is_ADMIN u.
Proof. intros [_ Hrole]. unfold is_ADMIN. by rewrite Hrole. Qed.

(** The transitions that mirror an updated active profile. *)
Lemma author_inv_update a w w' :
  author_inv a w ->
  same_person (currentUser (app w)) (currentUser (app w')) ->
  users (app w') = replace_user (currentUser (app w')) (users (app w))
  \/ users (app w')
     = replace_user (currentUser (app w'))
         (replace_user (currentUser (app w')) (users (app w))) ->
  view (app w') = view (app w) ->
  draftRecipe (app w') = draftRecipe (app w) ->
  pending w' = pending w ->
  author_inv a w'.
Proof.
  intros (Hroster & Hcur & Hview & Hdraft & Hpend) Hsame Eusers Eview Edraft Epend.
  assert (Hu' : admin_is a (currentUser (app w'))) by by eapply admin_is_same_person.
  unfold author_inv. rewrite Eview, Edraft, Epend.
  split; [|split; [done|split; [|done]]].
  - destruct Eusers as [-> | ->]; repeat apply admin_is_replace_user; done.
  - intros E. rewrite (is_ADMIN_same_person _ _ Hsame). auto.
Qed.

(** The transitions that keep the profile, the roster and the draft's
    author, and do not enter the create view. *)
Lemma author_inv_frame a w w' :
  author_inv a w ->
  users (app w') = users (app w) ->
  currentUser (app w') = currentUser (app w) ->
  (view (app w') = CREATE_RECIPE -> view (app w) = CREATE_RECIPE) ->
  (forall draft', draftRecipe (app w') = Some draft' ->
     exists draft, draftRecipe (app w) = Some draft
                   /\ Recipe.authorId draft' = Recipe.authorId draft) ->
  Forall (authored_by a) (pending w') ->
  author_inv a w'.
Proof.
  intros (Hroster & Hcur & Hview & Hdraft & Hpend) Eusers Ecur Eview Edraft Hpend'.
  unfold author_inv. rewrite Eusers, Ecur.
  split; [done|]. split; [done|]. split; [auto|]. split; [|done].
  intros draft' Hd'. destruct (Edraft draft' Hd') as (draft & Hd & ->). auto.
Qed.

Ltac frame w :=
  match goal with
  | H : author_inv ?a w |- author_inv ?a _ =>
      apply (author_inv_frame a w);
      [exact H | reflexivity | reflexivity
       | cbn; try done; try (intros; discriminate)
       | cbn; try (intros ? ?; discriminate); eauto
       | cbn; try assumption ]
  end.

Ltac update w :=
  match goal with
  | H : author_inv ?a w |- author_inv ?a _ =>
      apply (author_inv_update a w);
      [exact H | by split | cbn; auto | reflexivity | reflexivity | reflexivity]
  end.

Lemma author_inv_step a inert now (e : Event) w :
  author_inv a w -> offered inert w e = true -> author_inv a (step now e w).
Proof.
  intros Hinv Hoff. pose proof Hinv as (Hroster & Hcur & Hview & Hdraft & Hpend).
  destruct e; cbn [step]; cbn [offered] in Hoff.
  - (* ClickLogo *) frame w.
  - (* ClickShoppingList *) frame w.
  - (* SwitchUser *)
    unfold on_app, handleSwitchUser.
    destruct (array_find _ (users (app w))) as [user|] eqn:F; [|by rewrite world_eta].
    apply array_find_Some in F as [Hin _].
    unfold author_inv. cbn.
    split; [apply admin_is_replace_user; auto|].
    split; [auto|]. split; [discriminate|]. split; done.
  - (* CaptureAvatar *)
    update w.
  - (* ClickCreate *)
    apply andb_prop in Hoff as [_ Hadmin].
    unfold on_app, author_inv. cbn. repeat split; auto.
  - (* ClickCook *)
    apply andb_prop in Hoff as [Hhome _]. apply ViewState_eqb_eq in Hhome.
    unfold on_app, selectCook.
    destruct (users (app w) !! i) as [u|] eqn:E; [|by rewrite world_eta].
    apply list_elem_of_lookup_2 in E.
    unfold author_inv. cbn.
    split; [apply admin_is_replace_user; auto|].
    split; [auto|]. split; [by rewrite Hhome|]. split; done.
  - (* ClickRecipe *)
    destruct (recipes (app w) !! i); [|done]. frame w.
  - (* ClickFavorite *)
    destruct (recipes (app w) !! i) as [recipe|]; [|done].
    update w.
  - (* ClickCancel *) frame w.
  - (* CapturePhoto *) frame w.
  - (* RetakePhoto *) frame w.
  - (* StartRecording *)
    apply andb_prop in Hoff as [Hcap _]. apply capturing_view in Hcap.
    unfold startRecording. destruct granted; [|frame w].
    frame w. apply Forall_app. split; [done|]. constructor; [|constructor].
    cbn. auto.
  - (* RecordingComplete *)
    unfold stopRecording.
    destruct (pending w !! k) as [[photo author| | | | |]|] eqn:E; try done.
    rewrite Forall_lookup in Hpend. pose proof (Hpend _ _ E) as Hauthor.
    frame w. apply Forall_app. split.
    + apply Forall_delete. by apply Forall_lookup.
    + constructor; [exact Hauthor|constructor].
  - (* ClickDiscard *) frame w.
  - (* ClickSave *)
    unfold on_app, handleSaveRecipe.
    destruct (draftRecipe (app w)) as [draft|]; [|by rewrite world_eta].
    destruct (truthy (Recipe.title draft)); [|by rewrite world_eta]. frame w.
  - (* ClickGenerateVideo *)
    unfold handleGenerateVideo.
    destruct (draftRecipe (app w)) as [draft|]; [|done].
    destruct (truthy (Recipe.title draft) && keySelected); [|done].
    frame w. apply Forall_app. split; [done|]. by repeat constructor.
  - (* EditTitle *)
    unfold on_app, editDraft. destruct (draftRecipe (app w)) as [draft|] eqn:E;
      [|by rewrite world_eta].
    frame w. intros ? [= <-]. by exists draft.
  - unfold on_app, editDraft. destruct (draftRecipe (app w)) as [draft|] eqn:E;
      [|by rewrite world_eta].
    frame w. intros ? [= <-]. by exists draft.
  - unfold on_app, editDraft. destruct (draftRecipe (app w)) as [draft|] eqn:E;
      [|by rewrite world_eta].
    frame w. intros ? [= <-]. by exists draft.
  - unfold on_app, editDraft. destruct (draftRecipe (app w)) as [draft|] eqn:E;
      [|by rewrite world_eta].
    frame w. intros ? [= <-]. by exists draft.
  - (* ClickBack *) frame w.
  - (* ClickFavoriteDetail *)
    destruct (selectedRecipe (app w)) as [selected|]; [|done].
    update w.
  - (* ClickGenerateVideoForRecipe *)
    unfold handleGenerateVideoForActiveRecipe.
    destruct (selectedRecipe (app w)) as [selected|]; [|done].
    destruct keySelected; [|done].
    frame w. apply Forall_app. split; [done|]. by repeat constructor.
  - (* ClickVisualizeSteps *)
    unfold handleVisualizeSteps.
    destruct (selectedRecipe (app w)) as [selected|]; [|done].
    frame w. apply Forall_app. split; [done|]. by repeat constructor.
  - frame w.
  - frame w.
  - (* ClickAddAllToShoppingList *)
    destruct (selectedRecipe (app w)) as [selected|]; [|done].
    update w.
  - (* ClickStartCooking *) frame w.
  - frame w.
  - frame w.
  - (* ClickNextStep *)
    unfold on_app, nextStep. destruct (selectedRecipe (app w)); [|by rewrite world_eta].
    frame w.
  - (* ClickItemCheckbox *)
    destruct (User.shoppingList (currentUser (app w)) !! i); [|done].
    update w.
  - destruct (User.shoppingList (currentUser (app w)) !! i); [|done].
    update w.
  - update w.
  - (* Settle *)
    unfold settle. destruct (pending w !! k) as [t|] eqn:E; [|done].
    assert (Hdel : Forall (authored_by a) (delete k (pending w)))
      by by apply Forall_delete.
    rewrite Forall_lookup in Hpend. pose proof (Hpend _ _ E) as Ht.
    destruct t as [photo author|photo author|title description|title imageUrl
                   |selected|selected],
      v as [result|generateContent|r|ai]; cbn [resume]; try done.
    + (* generation *)
      unfold handleGenerateRecipe_settled. destruct result as [genData|].
      * destruct (negb (truthy_opt photo) && _ && _);
          unfold author_inv; cbn; (split; [done|]); (split; [done|]);
          (split; [done|]); (split; [by intros ? [= <-]|]); try done.
        apply Forall_app. split; [done|]. by repeat constructor.
      * frame w.
    + (* hero image *)
      unfold on_app, recipeImage_settled.
      destruct (generateRecipeImage generateContent title description) as [url|].
      * destruct (draftRecipe (app w)) as [draft|] eqn:Ed.
        -- frame w. rewrite Ed. intros ? [= <-]. by exists draft.
        -- frame w. by rewrite Ed.
      * frame w.
    + (* draft video *)
      destruct (generateRecipeVideo r) as [[videoUrl|]|]; [| |done].
      * unfold handleGenerateVideo_settled. cbn.
        destruct (draftRecipe (app w)) as [draft|] eqn:Ed.
        -- frame w. rewrite Ed. intros ? [= <-]. by exists draft.
        -- frame w. by rewrite Ed.
      * frame w.
    + destruct (generateRecipeVideo r) as [[videoUrl|]|]; [| |done]; frame w.
    + destruct ai; frame w.
Qed.

Lemma author_inv_run a inert es : forall w,
  author_inv a w -> ui_run inert es w = true -> author_inv a (run es w).
Proof.
  induction es as [|[now e] es IH]; intros w Hw Hes; [done|].
  cbn [ui_run fst snd] in Hes. apply andb_prop in Hes as [He Hes].
  rewrite run_cons. cbn [fst snd]. apply IH; [|done].
  by eapply author_inv_step.
Qed.

Lemma initialWorld_author_inv t0 : author_inv "susu" (initialWorld t0).
Proof.
  unfold author_inv. cbn. split; [|split; [done|split; [done|split; [done|constructor]]]].
  intros u Hu. unfold DEFAULT_USERS in Hu.
  repeat (apply elem_of_cons in Hu as [->|Hu]; [done|]).
  by apply elem_of_nil in Hu.
Qed.

Lemma mounted_author_inv t0 (savedUsers : option (list User.t))
    (savedRecipes : option (list Recipe.t)) :
  (forall us u, savedUsers = Some us -> u ∈ us -> admin_is "susu" u) ->
  author_inv "susu" (mkWorld (mountedState t0 savedUsers savedRecipes) [] []).
Proof.
  intros Hsaved. unfold author_inv, mountedState.
  split; [|by destruct savedUsers, savedRecipes; cbn; repeat split; try constructor].
  intros u Hu.
  assert (Hroster : forall us, (forall u, u ∈ us -> admin_is "susu" u) ->
                      forall u, u ∈ replace_user susu us -> admin_is "susu" u).
  { intros us Hus u' Hu'. apply elem_of_replace_user in Hu' as (u0 & Hu0 & ->).
    destruct (String.eqb (User.id u0) (User.id susu)); [done|by apply Hus]. }
  destruct savedUsers as [us|].
  - apply (Hroster us); [by intros u' Hu'; eapply Hsaved|].
    by destruct savedRecipes.
  - apply (Hroster DEFAULT_USERS).
    + apply (initialWorld_author_inv t0).
    + by destruct savedRecipes.
Qed.

End Author.

(** ** The ids of the drafts and recipes *)

Section Ids.

Implicit Types (s : AppState) (w : World).

Lemma catalogue_recipes w :
  (Recipe.id <$> recipes (app w)) `sublist_of` catalogue w.
Proof.
  unfold catalogue. destruct (draftRecipe (app w)); [by apply sublist_cons|done].
Qed.

Ltac same_catalogue := left; unfold catalogue; cbn; reflexivity.

Lemma catalogue_same w w' :
  (Recipe.id <$> draftRecipe (app w')) = (Recipe.id <$> draftRecipe (app w)) ->
  (Recipe.id <$> recipes (app w')) = (Recipe.id <$> recipes (app w)) ->
  catalogue w' = catalogue w.
Proof.
  unfold catalogue. intros Hd ->.
  destruct (draftRecipe (app w')), (draftRecipe (app w)); simpl in Hd; congruence.
Qed.

Lemma catalogue_dropped w w' :
  draftRecipe (app w') = None ->
  (Recipe.id <$> recipes (app w')) = (Recipe.id <$> recipes (app w)) ->
  catalogue w' `sublist_of` catalogue w.
Proof.
  intros Hd Hr. unfold catalogue at 1. rewrite Hd, Hr. apply catalogue_recipes.
Qed.

(** A transition keeps the ids in use, drops the one of the draft, or, when
    a generation is fulfilled, replaces the id of the draft by [rec-] and
    the clock value. *)
Lemma step_catalogue now (e : Event) w :
  catalogue (step now e w) `sublist_of` catalogue w
  \/ catalogue (step now e w)
     = ("rec-" +:+ pretty now) :: (Recipe.id <$> recipes (app w)).
Proof.
  destruct e; cbn [step]; try (left; by erewrite catalogue_same by reflexivity).
  - (* SwitchUser *)
    left. erewrite catalogue_same; [done| |]; unfold on_app, handleSwitchUser; cbn;
      by destruct (array_find _ (users (app w))).
  - (* ClickCook *)
    left. erewrite catalogue_same; [done| |]; unfold on_app, selectCook; cbn;
      by destruct (users (app w) !! i).
  - destruct (recipes (app w) !! i); left; by erewrite catalogue_same by reflexivity.
  - destruct (recipes (app w) !! i); left; by erewrite catalogue_same by reflexivity.
  - (* ClickCancel *) left. by apply catalogue_dropped.
  - (* StartRecording *)
    destruct granted; left; by erewrite catalogue_same by reflexivity.
  - (* RecordingComplete *)
    unfold stopRecording. destruct (pending w !! k) as [[]|];
      left; by erewrite catalogue_same by reflexivity.
  - (* ClickDiscard *) left. by apply catalogue_dropped.
  - (* ClickSave *)
    left. unfold on_app, handleSaveRecipe.
    destruct (draftRecipe (app w)) as [draft|] eqn:E; [|by rewrite world_eta].
    destruct (truthy (Recipe.title draft)); [|by rewrite world_eta].
    unfold catalogue. cbn. by rewrite E.
  - (* ClickGenerateVideo *)
    unfold handleGenerateVideo. destruct (draftRecipe (app w)) as [draft|] eqn:E;
      [destruct (truthy (Recipe.title draft) && keySelected)|];
      left; by erewrite catalogue_same by reflexivity.
  - left. unfold on_app, editDraft.
    destruct (draftRecipe (app w)) as [draft|] eqn:E; [|by rewrite world_eta].
    erewrite catalogue_same; [done|cbn; by rewrite E|reflexivity].
  - left. unfold on_app, editDraft.
    destruct (draftRecipe (app w)) as [draft|] eqn:E; [|by rewrite world_eta].
    erewrite catalogue_same; [done|cbn; by rewrite E|reflexivity].
  - left. unfold on_app, editDraft.
    destruct (draftRecipe (app w)) as [draft|] eqn:E; [|by rewrite world_eta].
    erewrite catalogue_same; [done|cbn; by rewrite E|reflexivity].
  - left. unfold on_app, editDraft.
    destruct (draftRecipe (app w)) as [draft|] eqn:E; [|by rewrite world_eta].
    erewrite catalogue_same; [done|cbn; by rewrite E|reflexivity].
  - destruct (selectedRecipe (app w)); left; by erewrite catalogue_same by reflexivity.
  - unfold handleGenerateVideoForActiveRecipe.
    destruct (selectedRecipe (app w)); [destruct keySelected|];
      left; by erewrite catalogue_same by reflexivity.
  - unfold handleVisualizeSteps.
    destruct (selectedRecipe (app w)); left; by erewrite catalogue_same by reflexivity.
  - destruct (selectedRecipe (app w)); left; by erewrite catalogue_same by reflexivity.
  - unfold on_app, nextStep.
    destruct (selectedRecipe (app w)); left; by erewrite catalogue_same by reflexivity.
  - destruct (User.shoppingList (currentUser (app w)) !! i);
      left; by erewrite catalogue_same by reflexivity.
  - destruct (User.shoppingList (currentUser (app w)) !! i);
      left; by erewrite catalogue_same by reflexivity.
  - (* Settle *)
    unfold settle. destruct (pending w !! k) as [t|]; [|by left].
    destruct t as [photo author|photo author|title description|title imageUrl
                   |selected|selected],
      v as [result|generateContent|r|ai]; cbn [resume]; try (by left).
    + unfold handleGenerateRecipe_settled. destruct result as [genData|].
      * right. unfold catalogue. by destruct (negb (truthy_opt photo) && _ && _).
      * left. by erewrite catalogue_same by reflexivity.
    + left. unfold on_app, recipeImage_settled.
      destruct (generateRecipeImage generateContent title description);
        [|by erewrite catalogue_same by reflexivity].
      erewrite catalogue_same; [done| |reflexivity].
      cbn. by destruct (draftRecipe (app w)).
    + destruct (generateRecipeVideo r) as [[videoUrl|]|]; [| |by left].
      * left. erewrite catalogue_same; [done| |reflexivity].
        cbn. by destruct (draftRecipe (app w)).
      * left. by erewrite catalogue_same by reflexivity.
    + destruct (generateRecipeVideo r) as [[videoUrl|]|]; [| |by left].
      * left. erewrite catalogue_same; [done|reflexivity|]. cbn.
        apply replace_recipe_ids.
      * left. by erewrite catalogue_same by reflexivity.
    + destruct ai as [g|].
      * left. erewrite catalogue_same; [done|reflexivity|]. cbn.
        apply replace_recipe_ids.
      * left. by erewrite catalogue_same by reflexivity.
Qed.

Lemma ids_inv_step (T now : N) (e : Event) w :
  ids_inv T w -> (T <= now)%N -> ids_inv (now + 1) (step now e w).
Proof.
  intros [Hnd Hfrom] HT. unfold ids_inv.
  destruct (step_catalogue now e w) as [Hsub | ->].
  - split; [by eapply sublist_NoDup|].
    intros id Hid. destruct (Hfrom id) as (t & Ht & ->); [by eapply elem_of_sublist|].
    exists t. split; [lia|done].
  - pose proof (catalogue_recipes w) as Hsub. split.
    + apply NoDup_cons. split; [|by eapply sublist_NoDup].
      intros Hin. destruct (Hfrom ("rec-" +:+ pretty now)) as (t & Ht & E);
        [by eapply elem_of_sublist|].
      apply rec_id_inj in E. lia.
    + intros id Hid. apply elem_of_cons in Hid as [->|Hid].
      * exists now. split; [lia|done].
      * destruct (Hfrom id) as (t & Ht & ->); [by eapply elem_of_sublist|].
        exists t. split; [lia|done].
Qed.

Lemma ids_inv_run es : forall (from : N) w,
  ids_inv (from + 1) w -> ticking from es -> exists T, ids_inv T (run es w).
Proof.
  induction es as [|[now e] es IH]; intros from w Hw Hes; [by eexists|].
  destruct Hes as [Hnow Hes]. cbn [fst] in *. rewrite run_cons. cbn [fst snd].
  apply (IH now); [|done]. apply (ids_inv_step (from + 1)); [done|lia].
Qed.

Lemma initialWorld_ids_inv t0 : ids_inv 7 (initialWorld t0).
Proof.
  split.
  - unfold catalogue. cbn.
    repeat (apply NoDup_cons; split;
            [rewrite ?elem_of_cons, elem_of_nil; intuition discriminate|]).
    apply NoDup_nil_2.
  - intros id Hid. unfold catalogue in Hid. cbn in Hid.
    rewrite !elem_of_cons, elem_of_nil in Hid.
    destruct Hid as [->|[->|[->|[->|[->|[->|[]]]]]]];
      [by exists 1%N|by exists 2%N|by exists 3%N
      |by exists 4%N|by exists 5%N|by exists 6%N].
Qed.

End Ids.

(** ** Committing a draft *)

Section Commit.

Implicit Types (s : AppState) (w : World).

(** The generation that the stop of a recording requests is the last entry
    of the pending list. *)
Lemma recording_generation (t0 t1 : N) es w :
  Forall (fun e => is_click (snd e) = true) es ->
  let recording := run es (step t0 (StartRecording true) w) in
  let stopped := step t1 (RecordingComplete (length (pending w))) recording in
  pending stopped !! (length (pending recording) - 1)%nat
  = Some (AwaitRecipeFromMedia (capturedImage (app w)) (currentUser (app w)))
  /\ app stopped = setIsGenerating true (app recording).
Proof.
  intros Hes recording stopped.
  pose proof (recording_handed_over t0 t1 es w Hes) as H. cbv zeta in H.
  change (run es (step t0 (StartRecording true) w)) with recording in H.
  change (step t1 (RecordingComplete (length (pending w))) recording)
    with stopped in H.
  destruct H as (more & Erec & Estop & _ & Eapp & _). split; [|exact Eapp].
  rewrite Estop, app_assoc, Erec, length_app. cbn [length].
  replace (length (pending w) + S (length more) - 1)%nat
    with (length (pending w ++ more)%list + 0)%nat
    by (rewrite length_app; lia).
  by rewrite lookup_app_r, Nat.add_comm, Nat.add_sub by lia.
Qed.

(** C1 (amended).  Saving creates a recipe exactly when there is a draft
    with a non-empty title; otherwise it changes nothing.  The recipe is the
    draft itself, put in front of the collection; the draft, the captured
    photo and the creation step are reset and the view returns home.  The
    draft was given its id, its author and its [createdAt] when it was
    generated: the id is [rec-] followed by the clock value of the
    generation, the author is the profile of the state in which the
    recording was started, and [createdAt] is the clock value of the
    generation; saving later keeps them.  On every run of the interface from
    a state in which [a] is the id of the administrators (the initial state,
    and the state after the mount when the saved roster is such), whenever
    saving is offered the author of the draft is [a], the id of the profile
    active at that moment.  On a run from a state whose ids are pairwise
    different and were made from earlier clock values (the initial state is
    one), when the clock advances between events, the id of the draft
    differs from every id of the collection, and the ids of the collection
    stay pairwise different when the draft is saved. *)
Theorem commit_promotes_draft :
  (forall now w draft,
     draftRecipe (app w) = Some draft -> truthy (Recipe.title draft) = true ->
     let w' := step now ClickSave w in
     recipes (app w') = draft :: recipes (app w)
     /\ draftRecipe (app w') = None
     /\ capturedImage (app w') = None
     /\ creationStep (app w') = MEDIA
     /\ view (app w') = HOME
     /\ users (app w') = users (app w)
     /\ currentUser (app w') = currentUser (app w)
     /\ pending w' = pending w
     /\ alerts w' = alerts w)
  /\ (forall now w,
        (forall draft,
           draftRecipe (app w) = Some draft -> truthy (Recipe.title draft) = false) ->
        step now ClickSave w = w)
  /\ (forall (t0 t1 generatedAt : N) w es genData,
        Forall (fun e => is_click (snd e) = true) es ->
        let recording := run es (step t0 (StartRecording true) w) in
        let stopped := step t1 (RecordingComplete (length (pending w))) recording in
        let k := (length (pending recording) - 1)%nat in
        let generated :=
          step generatedAt (Settle k (RecipeFromMedia (Fulfilled genData))) stopped in
        let draft :=
          newRecipe genData generatedAt (capturedImage (app w)) (currentUser (app w)) in
        draftRecipe (app generated) = Some draft
        /\ creationStep (app generated) = REVIEW
        /\ recipes (app generated) = recipes (app recording)
        /\ Recipe.id draft = "rec-" +:+ pretty generatedAt
        /\ Recipe.authorId draft = User.id (currentUser (app w))
        /\ Recipe.createdAt draft = generatedAt
        /\ forall later,
             truthy (RecipeGenResponse.title genData) = true ->
             recipes (app (step later ClickSave generated))
             = draft :: recipes (app recording))
  /\ (forall a inert w0 es,
        author_inv a w0 ->
        ui_run inert es w0 = true ->
        let w := run es w0 in
        offered inert w ClickSave = true ->
        exists draft,
          draftRecipe (app w) = Some draft
          /\ Recipe.authorId draft = User.id (currentUser (app w))
          /\ User.id (currentUser (app w)) = a)
  /\ (forall t0, author_inv "susu" (initialWorld t0))
  /\ (forall t0 savedUsers savedRecipes,
        (forall us u, savedUsers = Some us -> u ∈ us ->
                      is_ADMIN u = true -> User.id u = "susu") ->
        author_inv "susu" (mkWorld (mountedState t0 savedUsers savedRecipes) [] []))
  /\ (forall from w0 es,
        ids_inv (from + 1) w0 ->
        ticking from es ->
        let w := run es w0 in
        NoDup (Recipe.id <$> recipes (app w))
        /\ forall draft now,
             draftRecipe (app w) = Some draft ->
             (Recipe.id draft ∉ (Recipe.id <$> recipes (app w)))
             /\ NoDup (Recipe.id <$> recipes (app (step now ClickSave w))))
  /\ (forall t0, ids_inv 7 (initialWorld t0))
  /\ (forall t1 t2 : N, "rec-" +:+ pretty t1 = "rec-" +:+ pretty t2 -> t1 = t2).
Proof.
  split; [|split; [|split; [|split; [|split; [|split; [|split; [|split]]]]]]].
  - intros now w draft E Htitle. cbn [step]. unfold on_app, handleSaveRecipe.
    rewrite E, Htitle. by repeat split.
  - intros now w H. cbn [step]. unfold on_app, handleSaveRecipe.
    destruct (draftRecipe (app w)) as [draft|] eqn:E.
    + rewrite (H draft eq_refl). apply world_eta.
    + apply world_eta.
  - intros t0 t1 generatedAt w es genData Hes recording stopped k generated draft.
    destruct (recording_generation t0 t1 es w Hes) as [Hk Eapp].
    change (run es (step t0 (StartRecording true) w)) with recording in Hk, Eapp.
    change (step t1 (RecordingComplete (length (pending w))) recording)
      with stopped in Hk, Eapp.
    fold k in Hk. subst generated. cbn [step]. unfold settle. rewrite Hk.
    cbn [resume]. unfold handleGenerateRecipe_settled. fold draft.
    assert (Erecipes : recipes (app stopped) = recipes (app recording))
      by (rewrite Eapp; reflexivity).
    destruct (negb (truthy_opt (capturedImage (app w))) && _ && _); simpl;
      (repeat split; try done; intros later Htitle; unfold handleSaveRecipe;
       simpl; by rewrite Htitle, Erecipes).
  - intros a inert w0 es Hw0 Hes w Hsave.
    pose proof (author_inv_run a inert es w0 Hw0 Hes)
      as (_ & Hcur & Hview & Hdraft & _).
    fold w in Hcur, Hview, Hdraft.
    cbn [offered] in Hsave. pose proof (reviewing_view _ Hsave) as Ev.
    unfold reviewing in Hsave.
    destruct (draftRecipe (app w)) as [draft|] eqn:E;
      [|by rewrite !andb_false_r in Hsave].
    exists draft. split; [done|].
    by rewrite (Hdraft draft eq_refl), (Hcur (Hview Ev)).
  - apply initialWorld_author_inv.
  - apply mounted_author_inv.
  - intros from w0 es Hw0 Hes w.
    destruct (ids_inv_run es from w0 Hw0 Hes) as [T [Hnd _]].
    fold w in Hnd. unfold catalogue in Hnd. split.
    + destruct (draftRecipe (app w)); [by apply NoDup_cons in Hnd as [_ ?]|done].
    + intros draft now E. rewrite E in Hnd. apply NoDup_cons in Hnd as [Hfresh Hnd].
      split; [done|]. cbn [step]. unfold on_app, handleSaveRecipe. rewrite E.
      destruct (truthy (Recipe.title draft)); [|done].
      cbn. by apply NoDup_cons.
  - apply initialWorld_ids_inv.
  - apply rec_id_inj.
Qed.

Lemma commit_promotes_draft_witness :
  let es := [(10%N, ClickCreate); (15%N, StartRecording true);
             (20%N, RecordingComplete 0);
             (1000%N, Settle 0 (RecipeFromMedia (Fulfilled soup)))] in
  let w := run es (initialWorld 0) in
  ui_run true es (initialWorld 0) = true
  /\ offered true w ClickSave = true
  /\ ticking 6 es
  /\ (exists draft,
        draftRecipe (app w) = Some draft
        /\ Recipe.authorId draft = User.id (currentUser (app w))
        /\ User.id (currentUser (app w)) = "susu")
  /\ NoDup (Recipe.id <$> recipes (app (step 2000 ClickSave w))).
Proof.
  intros es w.
  destruct commit_promotes_draft
    as (_ & _ & _ & Hauthor & Hinit & _ & Hids & Hids0 & _).
  assert (Hrun : ui_run true es (initialWorld 0) = true) by (vm_compute; reflexivity).
  assert (Hsave : offered true w ClickSave = true) by (vm_compute; reflexivity).
  assert (Htick : ticking 6 es) by (cbn; lia).
  split; [exact Hrun|]. split; [exact Hsave|]. split; [exact Htick|]. split.
  - exact (Hauthor "susu" true (initialWorld 0) es (Hinit 0%N) Hrun Hsave).
  - destruct (Hids 6%N (initialWorld 0) es (Hids0 0%N) Htick) as [_ Hdraft].
    assert (E : draftRecipe (app w) = Some (newRecipe soup 1000 None susu))
      by (vm_compute; reflexivity).
    exact (proj2 (Hdraft _ 2000%N E)).
Defined.

(** C1, counterexample.  On a run of the interface, a draft generated at
    clock value 1000 and saved at clock value 2000 becomes a recipe whose
    [createdAt] is 1000, not the time of the commit; its author is the
    active profile. *)
Lemma commit_keeps_generation_time :
  let es := [(10%N, ClickCreate); (15%N, StartRecording true);
             (20%N, RecordingComplete 0);
             (1000%N, Settle 0 (RecipeFromMedia (Fulfilled soup)))] in
  let generated := run es (initialWorld 0) in
  let committed := step 2000 ClickSave generated in
  ui_run true (es ++ [(2000%N, ClickSave)]) (initialWorld 0) = true
  /\ exists recipe,
       recipes (app committed) = recipe :: recipes (app generated)
       /\ Recipe.title recipe = "Soup"
       /\ Recipe.authorId recipe = User.id (currentUser (app generated))
       /\ Recipe.createdAt recipe = 1000%N
       /\ Recipe.createdAt recipe <> 2000%N.
Proof.
  split; [vm_compute; reflexivity|].
  exists (newRecipe soup 1000 None susu).
  split; [vm_compute; reflexivity|]. split; [reflexivity|].
  split; [vm_compute; reflexivity|]. split; [reflexivity|]. discriminate.
Qed.

End Commit.

(** ** A video that settles after the user has moved on *)

Section StaleVideo.

Implicit Types (s : AppState) (w : World).

(** C6, on a run of the interface.  The continuation of
    [handleGenerateVideoForActiveRecipe] writes [{...selectedRecipe,
    videoUrl}] with the [selectedRecipe] of the click.  A video is requested
    on the first seed recipe, the user goes back and opens the second one,
    then the video arrives: the displayed recipe, the second one, is
    replaced by the first one with the video, and the collection entry of
    the second one has no video.  On a second run, which needs the
    Visualize button to pass a click while a generation is going on, the
    thumbnails attached to the first recipe after the click are gone from
    the displayed recipe and from the collection entry once the video
    arrives. *)
Theorem video_replaces_displayed_recipe :
  let r :=
    VideoSubmitted notDone [{| done := true; uri := Some "https://v/1" |}]
      "blob:video-1" in
  let video := Recipe.with_videoUrl "blob:video-1" in
  let es := [(1%N, ClickRecipe 0); (2%N, ClickGenerateVideoForRecipe true);
             (3%N, ClickBack); (4%N, ClickRecipe 1)] in
  let w := run es (initialWorld 0) in
  let w' := step 9 (Settle 0 (RecipeVideo r)) w in
  let g := thumbnails_failing_at 1 "IMG" in
  let es2 := [(1%N, ClickRecipe 0); (2%N, ClickGenerateVideoForRecipe true);
              (3%N, ClickVisualizeSteps);
              (4%N, Settle 1 (InstructionThumbnails (Fulfilled g)))] in
  let v := run es2 (initialWorld 0) in
  let v' := step 9 (Settle 0 (RecipeVideo r)) v in
  let thumbnails :=
    generateInstructionThumbnails g (Recipe.instructions (recipe_rec_1 0)) in
  (forall inert,
     ui_run inert (es ++ [(9%N, Settle 0 (RecipeVideo r))]) (initialWorld 0) = true)
  /\ view (app w) = RECIPE_DETAIL
  /\ selectedRecipe (app w) = Some (recipe_rec_2 0)
  /\ pending w = [AwaitVideoForActiveRecipe (recipe_rec_1 0)]
  /\ view (app w') = RECIPE_DETAIL
  /\ selectedRecipe (app w') = Some (video (recipe_rec_1 0))
  /\ selectedRecipe (app w') <> Some (video (recipe_rec_2 0))
  /\ recipes (app w') !! 0%nat = Some (video (recipe_rec_1 0))
  /\ recipes (app w') !! 1%nat = Some (recipe_rec_2 0)
  /\ ui_run false (es2 ++ [(9%N, Settle 0 (RecipeVideo r))]) (initialWorld 0) = true
  /\ ui_run true es2 (initialWorld 0) = false
  /\ selectedRecipe (app v)
     = Some (Recipe.with_instructionThumbnails thumbnails (recipe_rec_1 0))
  /\ recipes (app v) !! 0%nat
     = Some (Recipe.with_instructionThumbnails thumbnails (recipe_rec_1 0))
  /\ selectedRecipe (app v') = Some (video (recipe_rec_1 0))
  /\ recipes (app v') !! 0%nat = Some (video (recipe_rec_1 0))
  /\ Recipe.instructionThumbnails (video (recipe_rec_1 0)) = None.
Proof.
  cbv zeta. split; [intros []; vm_compute; reflexivity|].
  repeat (split; [vm_compute; first [reflexivity | discriminate]|]).
  reflexivity.
Qed.

(** C10, on a run of the interface.  A recipe with one instruction is
    generated and saved, and a video is requested on it.  The user goes
    back, opens the first seed recipe, starts cooking mode and goes to its
    fourth step.  The video arrives: the selected recipe becomes the
    one-instruction recipe, the step index stays 3, and the current step
    read from the instructions is [undefined]. *)
Theorem cooking_step_undefined_after_video :
  let r :=
    VideoSubmitted notDone [{| done := true; uri := Some "https://v/1" |}]
      "blob:video-1" in
  let es := [(10%N, ClickCreate); (15%N, StartRecording true);
             (20%N, RecordingComplete 0);
             (1000%N, Settle 0 (RecipeFromMedia (Fulfilled soup)));
             (2000%N, ClickSave); (2001%N, ClickRecipe 0);
             (2002%N, ClickGenerateVideoForRecipe true); (2003%N, ClickBack);
             (2004%N, ClickRecipe 1); (2005%N, ClickStartCooking);
             (2006%N, ClickNextStep); (2007%N, ClickNextStep);
             (2008%N, ClickNextStep)] in
  let w := run es (initialWorld 0) in
  let w' := step 3000 (Settle 1 (RecipeVideo r)) w in
  (forall inert,
     ui_run inert (es ++ [(3000%N, Settle 1 (RecipeVideo r))]) (initialWorld 0)
     = true)
  /\ view (app w) = COOKING_MODE
  /\ selectedRecipe (app w) = Some (recipe_rec_1 0)
  /\ currentStepIndex (app w) = 3%Z
  /\ (exists text, currentStep (app w) = Some (Some text))
  /\ view (app w') = COOKING_MODE
  /\ selectedRecipe (app w')
     = Some (Recipe.with_videoUrl "blob:video-1" (newRecipe soup 1000 None susu))
  /\ (Recipe.instructions <$> selectedRecipe (app w')) = Some ["Boil."]
  /\ currentStepIndex (app w') = 3%Z
  /\ currentStep (app w') = Some None.
Proof.
  cbv zeta. split; [intros []; vm_compute; reflexivity|].
  split; [vm_compute; reflexivity|]. split; [vm_compute; reflexivity|].
  split; [vm_compute; reflexivity|].
  split; [eexists; vm_compute; reflexivity|].
  repeat (split; [vm_compute; reflexivity|]).
  vm_compute; reflexivity.
Qed.

End StaleVideo.
